(** * TrendStory edge functions: job pipeline, scene claim and batch retry

    A shallow embedding of the Supabase edge functions of the repository
    (trendstory-start, trendstory-generate-scene-image,
    trendstory-retry-images, trendstory-delete-job) together with the three
    tables they work on, and the properties of the job pipeline and of the
    per-scene image generation state machine.

    Conventions of the embedding.
    - A table is the list of its rows, in physical order.  One call of the
      Supabase query builder ([select], [update], [insert], [delete]) is one
      atomic statement, a function on [World].
    - Code that throws returns a [result]; [Throw m] carries the message of
      the JavaScript [Error].
    - Timestamps are milliseconds since the epoch ([Z]); numbers read from
      JSON or from the environment are integers ([Z]), [None] standing for
      a value for which [Number.isFinite] is false or [Number(..)] is NaN.
    - What the outside world decides (the provider's answers, the clock,
      random identifiers, the secrets) is a field of an environment record,
      so every property is proved for all behaviours of the outside world. *)

From Stdlib Require Import ZArith List String Ascii Bool Lia Permutation Sorted.
From stdpp Require Import base gmap strings list.
Import ListNotations.
Local Open Scope string_scope.
Local Open Scope Z_scope.

(** ** JavaScript values and operators used by the functions *)

Module Js.

(** [try { .. } catch] and [throw]: a computation yields a value or the
    message of the error it threw. *)
Inductive result (A : Type) : Type :=
| Ok (a : A)
| Throw (msg : string).
Arguments Ok {A} a.
Arguments Throw {A} msg.

Definition is_ok {A} (r : result A) : bool :=
  match r with Ok _ => true | Throw _ => false end.

(** White space removed by [String.prototype.trim] (the ASCII part). *)
Definition is_ws (a : ascii) : bool :=
  let n := nat_of_ascii a in
  (Nat.eqb n 32 || (Nat.leb 9 n && Nat.leb n 13))%bool.

(** [trimStart] on the characters of a string *)
Fixpoint drop_ws (l : list ascii) : list ascii :=
  match l with
  | [] => []
  | a :: l' => if is_ws a then drop_ws l' else l
  end.

Definition trim (s : string) : string :=
  string_of_list_ascii
    (rev (drop_ws (rev (drop_ws (list_ascii_of_string s))))).

(** Truthiness of a string: [Boolean(s)], [!s], [s || t]. *)
Definition truthy (s : string) : bool :=
  match s with EmptyString => false | _ => true end.

(** [a || b] on strings. *)
Definition or_else (a b : string) : string := if truthy a then a else b.

(** [String(v ?? '')] for a nullable string. *)
Definition str (v : option string) : string := default "" v.

(** [Boolean(v)] for a nullable string column. *)
Definition truthy_opt (v : option string) : bool := truthy (str v).

(** [xs.join(sep)] *)
Fixpoint join (sep : string) (xs : list string) : string :=
  match xs with
  | [] => ""
  | [x] => x
  | x :: rest => x +:+ sep +:+ join sep rest
  end.

(** [Number(env ?? 'd') || d]: an unset, non numeric or zero value gives
    the default. *)
Definition num_or (v : option Z) (d : Z) : Z :=
  match v with
  | Some n => if n =? 0 then d else n
  | None => d
  end.

(** [Math.max(lo, Math.min(Number(env ?? 'd') || d, hi))] *)
Definition clamp_env (v : option Z) (d lo hi : Z) : Z :=
  Z.max lo (Z.min (num_or v d) hi).

End Js.
Export Js.

(** ** The tables (supabase/migrations) *)

(** [ytg_jobs.status], with its check constraint. *)
Inductive JobStatus : Type := QUEUED | RUNNING | SUCCEEDED | FAILED.

Global Instance JobStatus_eq_dec : EqDecision JobStatus.
Proof. solve_decision. Defined.

(** One entry of [packager._runtime.logs] (and of the console).  The
    message texts, Korean in the source, are given in English; the time
    stamp of an entry is left out. *)
Inductive LogLevel : Type := info | warn | error.

Inductive LogData : Type :=
| NoData
| SceneData (scene_id : Z)
| SceneError (scene_id : Z) (msg : string)
| Counters (attempted succeeded failed skipped : nat)
| BudgetExceeded (depth maxRuntimeMs : Z) (remaining : nat)
| Requeue (depth next_depth : Z)
| Note (text : string).

Record LogEntry : Type := mkLog {
  log_level : LogLevel;
  log_msg : string;
  log_data : LogData
}.

(** The request body of trendstory-start, stored as [ytg_jobs.input]. *)
Record StartRequest : Type := mkStartRequest {
  topic_domain : string;
  language : string;
  audience : string;
  input_as_text : option string;
  reuse_job_id : option string
}.

(** A scene as the packager model returns it.  [raw_scene_id = None] when
    [Number.isFinite(s.scene_id)] is false (missing, null, a string). *)
Record RawScene : Type := mkRawScene {
  raw_scene_id : option Z;
  raw_narration : option string;
  raw_on_screen_text : option string;
  raw_visual_brief : option string;
  raw_mood : option string;
  raw_duration_sec : option Z
}.

Record StyleGuide : Type := mkStyle {
  visual_style : option string;
  tone : option string;
  platform_target : option string
}.

(** The [packager] column: the stage-2 output with the runtime log the
    server injects.  [pk_scenes = None] when [scenes] is missing or not an
    array; the keys no function of the repository reads are left out. *)
Record Packager : Type := mkPackager {
  pk_scenes : option (list RawScene);
  pk_style_guide : option StyleGuide;
  pk_image_render_requests : option (list (option Z * option string));
  pk_autoconfig_status : option string;
  pk_packager_status : option string;
  pk_logs : list LogEntry
}.

(** The [autoconfig] column: the stage-1 output. *)
Record AutoConfig : Type := mkAutoConfig {
  ac_scene_count : option Z;
  ac_tone : option string
}.

(** The [final_package] column, as far as the functions read or patch it:
    the scenes of the package and [audio.scene_audios]. *)
Record FinalPackage : Type := mkFinalPackage {
  fp_scenes : list (Z * RawScene);
  fp_scene_audios : list (Z * string)
}.

Module Job.
Record row : Type := mk {
  id : string;
  status : JobStatus;
  input : StartRequest;
  autoconfig : option AutoConfig;
  packager : option Packager;
  final_package : option FinalPackage;
  error : option string;
  trace_id : string
}.
End Job.

Module Scene.
Record row : Type := mk {
  id : nat;
  job_id : string;
  scene_id : Z;
  narration : option string;
  on_screen_text : option string;
  visual_brief : option string;
  mood : option string;
  duration_sec : option Z;
  image_prompt : option string;
  image_path : option string;
  image_url : option string;
  image_gen_status : option string;
  image_gen_request_id : option string;
  image_gen_started_at : option Z;
  image_gen_error : option string
}.
End Scene.

Inductive AssetType : Type := asset_image | asset_audio | asset_json.

Module Asset.
Record row : Type := mk {
  id : nat;
  job_id : string;
  type : AssetType;
  path : option string;
  url : option string;
  meta_scene_id : option Z;
  meta_request_id : option string
}.
End Asset.

(** A request to the text model, by the stage that issues it. *)
Inductive TextRequest : Type :=
| AutoconfigRequest
| PackagerRequest (web_search : bool)
| RepairRequest (targetCount : Z).

(** One write of [ytg_jobs.status]: the row, the status it had ([None] for
    a row being inserted) and the status written. *)
Record Transition : Type := mkTransition {
  tr_job : string;
  tr_from : option JobStatus;
  tr_to : JobStatus
}.

(** The durable store and what the functions do to the outside world.
    [next_id] stands for [gen_random_uuid()] of the scene and asset rows;
    [bucket] holds the paths of the stored objects; [text_requests],
    [speech_requests] and [image_requests] list the calls made to the
    provider, oldest first.  [journal] is not data of the program: it lists,
    oldest first, the status every insert and update of [ytg_jobs] wrote on
    every row it touched, so that the transitions of a job can be stated. *)
Record World : Type := mkWorld {
  jobs : list Job.row;
  scenes : list Scene.row;
  assets : list Asset.row;
  next_id : nat;
  bucket : list string;
  text_requests : list TextRequest;
  speech_requests : list string;
  image_requests : list string;
  console : list LogEntry;
  journal : list Transition
}.

(** Field updates of [World] (the record has no update syntax). *)
Definition set_jobs (js : list Job.row) (trs : list Transition) (w : World) : World :=
  mkWorld js (scenes w) (assets w) (next_id w) (bucket w)
          (text_requests w) (speech_requests w) (image_requests w) (console w)
          (journal w ++ trs).
Definition set_scenes (ss : list Scene.row) (n : nat) (w : World) : World :=
  mkWorld (jobs w) ss (assets w) n (bucket w)
          (text_requests w) (speech_requests w) (image_requests w) (console w) (journal w).
Definition set_assets (xs : list Asset.row) (n : nat) (w : World) : World :=
  mkWorld (jobs w) (scenes w) xs n (bucket w)
          (text_requests w) (speech_requests w) (image_requests w) (console w) (journal w).
Definition set_bucket (b : list string) (w : World) : World :=
  mkWorld (jobs w) (scenes w) (assets w) (next_id w) b
          (text_requests w) (speech_requests w) (image_requests w) (console w) (journal w).
Definition add_text_request (r : TextRequest) (w : World) : World :=
  mkWorld (jobs w) (scenes w) (assets w) (next_id w) (bucket w)
          (text_requests w ++ [r]) (speech_requests w) (image_requests w) (console w)
          (journal w).
Definition add_speech_request (input : string) (w : World) : World :=
  mkWorld (jobs w) (scenes w) (assets w) (next_id w) (bucket w)
          (text_requests w) (speech_requests w ++ [input]) (image_requests w) (console w)
          (journal w).
Definition add_image_request (prompt : string) (w : World) : World :=
  mkWorld (jobs w) (scenes w) (assets w) (next_id w) (bucket w)
          (text_requests w) (speech_requests w) (image_requests w ++ [prompt]) (console w)
          (journal w).
Definition add_console (e : LogEntry) (w : World) : World :=
  mkWorld (jobs w) (scenes w) (assets w) (next_id w) (bucket w)
          (text_requests w) (speech_requests w) (image_requests w) (console w ++ [e])
          (journal w).

(** The HTTP answer of an edge function: [json(body, status)]. *)
Inductive Response (A : Type) : Type :=
| Json (http_status : Z) (body : A)
| JsonError (http_status : Z) (error : string).
Arguments Json {A} http_status body.
Arguments JsonError {A} http_status error.

Definition http_status_of {A} (r : Response A) : Z :=
  match r with Json s _ => s | JsonError s _ => s end.

(** [.order('scene_id', { ascending: true })]: a stable insertion sort on
    the key; the unique index on (job_id, scene_id) leaves one order. *)
Fixpoint insert_by {A} (key : A → Z) (x : A) (l : list A) : list A :=
  match l with
  | [] => [x]
  | y :: l' => if key x <=? key y then x :: y :: l' else y :: insert_by key x l'
  end.

Definition sort_by {A} (key : A → Z) (l : list A) : list A :=
  fold_right (insert_by key) [] l.

(** ** The statements of the query builder *)

Module Db.

(** [.single()]: the row when the filter selects exactly one, an error
    otherwise. *)
Definition single {A} (rows : list A) : result A :=
  match rows with
  | [r] => Ok r
  | _ => Throw "JSON object requested, multiple (or no) rows returned"
  end.

Definition job_is (jobId : string) (j : Job.row) : bool :=
  bool_decide (Job.id j = jobId).

(** [.eq('job_id', jobId).eq('scene_id', sceneId)] on [ytg_scenes] *)
Definition scene_is (jobId : string) (sceneId : Z) (r : Scene.row) : bool :=
  bool_decide (Scene.job_id r = jobId) && bool_decide (Scene.scene_id r = sceneId).

(** [from('ytg_jobs').select(..).eq('id', jobId).single()] *)
Definition select_job (jobId : string) (w : World) : result Job.row :=
  single (List.filter (job_is jobId) (jobs w)).

(** [from('ytg_scenes').select(..).eq('job_id', ..).eq('scene_id', ..).single()] *)
Definition select_scene (jobId : string) (sceneId : Z) (w : World) : result Scene.row :=
  single (List.filter (scene_is jobId sceneId) (scenes w)).

(** [from(t).update(values).<filters>]: every row the filters select is
    rewritten, the others are kept. *)
Definition update_where {A} (sel : A → bool) (f : A → A) (rows : list A) : list A :=
  List.map (fun r => if sel r then f r else r) rows.

(** The status writes of an update of [ytg_jobs]. *)
Definition transitions (jobId : string) (f : Job.row → Job.row) (rows : list Job.row)
    : list Transition :=
  List.map (fun j => mkTransition (Job.id j) (Some (Job.status j)) (Job.status (f j)))
           (List.filter (job_is jobId) rows).

(** [from('ytg_jobs').update(values).eq('id', jobId)] *)
Definition update_jobs (jobId : string) (f : Job.row → Job.row) (w : World) : World :=
  set_jobs (update_where (job_is jobId) f (jobs w)) (transitions jobId f (jobs w)) w.

(** [from('ytg_jobs').insert(row)]: refused by the primary key when the
    identifier is taken. *)
Definition insert_job (j : Job.row) (w : World) : option string * World :=
  if existsb (job_is (Job.id j)) (jobs w) then
    (Some "duplicate key value violates unique constraint ytg_jobs_pkey", w)
  else (None, set_jobs (jobs w ++ [j]) [mkTransition (Job.id j) None (Job.status j)] w).

Definition update_scenes (sel : Scene.row → bool) (f : Scene.row → Scene.row)
    (w : World) : World :=
  set_scenes (update_where sel f (scenes w)) (next_id w) w.

(** [.select('id')] after an update: the rows that were rewritten. *)
Definition updated_ids (sel : Scene.row → bool) (w : World) : list nat :=
  List.map Scene.id (List.filter sel (scenes w)).

Definition job_exists (jobId : string) (w : World) : bool :=
  existsb (job_is jobId) (jobs w).

(** [from('ytg_assets').insert(row)]: refused by the foreign key when the
    job is gone; the new row takes a fresh identifier. *)
Definition insert_asset (jobId : string) (t : AssetType) (path url : option string)
    (sceneId : option Z) (requestId : option string) (w : World) : option string * World :=
  if job_exists jobId w then
    (None, set_assets (assets w ++ [Asset.mk (next_id w) jobId t path url sceneId requestId])
                      (S (next_id w)) w)
  else (Some "insert or update on table ytg_assets violates foreign key constraint", w).

(** [from('ytg_jobs').delete().eq('id', jobId)], with
    [on delete cascade] of [ytg_scenes.job_id] and [ytg_assets.job_id]. *)
Definition delete_job (jobId : string) (w : World) : World :=
  if job_exists jobId w then
    set_jobs (List.filter (fun j => negb (job_is jobId j)) (jobs w)) []
      (set_scenes (List.filter (fun s => negb (bool_decide (Scene.job_id s = jobId))) (scenes w))
                  (next_id w)
         (set_assets (List.filter (fun a => negb (bool_decide (Asset.job_id a = jobId)))
                                  (assets w))
                     (next_id w) w))
  else w.

(** [from('ytg_scenes').select(..).eq('job_id', jobId)
      .order('scene_id', { ascending: true })] *)
Definition scenes_of (jobId : string) (w : World) : list Scene.row :=
  sort_by Scene.scene_id
    (List.filter (fun s => bool_decide (Scene.job_id s = jobId)) (scenes w)).

(** [from('ytg_scenes').delete().eq('job_id', jobId)] *)
Definition delete_scenes_of (jobId : string) (w : World) : World :=
  set_scenes (List.filter (fun s => negb (bool_decide (Scene.job_id s = jobId))) (scenes w))
             (next_id w) w.

(** [from('ytg_assets').delete().eq('job_id', jobId)] *)
Definition delete_assets_of (jobId : string) (w : World) : World :=
  set_assets (List.filter (fun a => negb (bool_decide (Asset.job_id a = jobId))) (assets w))
             (next_id w) w.

End Db.

(** [update({ packager })] *)
Definition set_packager (p : option Packager) (j : Job.row) : Job.row :=
  Job.mk (Job.id j) (Job.status j) (Job.input j) (Job.autoconfig j) p
         (Job.final_package j) (Job.error j) (Job.trace_id j).

(** The prompt both image functions fall back to when a scene has none:
    [[brief || onScreen || `educational illustration about ${topic}`, mood,
      style.visual_style, style.tone, '...'].filter(Boolean).join(', ').trim()] *)
Definition promptSuffix : string :=
  "no text, no logo, no watermark, clean composition, high quality, 16:9".

Definition styleOf (p : option Packager) : StyleGuide :=
  default (mkStyle None None None) (p ≫= pk_style_guide).

Definition synthesizedPrompt (s : Scene.row) (topic : string) (style : StyleGuide) : string :=
  trim (join ", "
    (List.filter truthy
      [ or_else (trim (str (Scene.visual_brief s)))
          (or_else (trim (str (Scene.on_screen_text s)))
                   ("educational illustration about " +:+ topic));
        trim (str (Scene.mood s));
        trim (str (visual_style style));
        trim (str (tone style));
        promptSuffix ])).

(** [String((job.input as any)?.topic_domain ?? 'topic').trim()] *)
Definition topicOf (j : Job.row) : string := trim (topic_domain (Job.input j)).

(** ** trendstory-generate-scene-image *)

Module GenerateSceneImage.

Inductive Status : Type := QUEUED | ALREADY_EXISTS | IN_PROGRESS | SUCCEEDED | FAILED.

Record GenerateSceneImageResponse : Type := mkResponse {
  job_id : string;
  scene_id : Z;
  accepted : bool;
  status : Status;
  image_url : option string;
  message : string
}.

Record GenerateSceneImageRequest : Type := mkRequest {
  req_job_id : option string;
  req_scene_id : option Z;
  req_force : bool
}.

(** What the outside world decides during one invocation. *)
Record Env : Type := mkEnv {
  randomUUID : string;                      (* crypto.randomUUID() *)
  dateNow : Z;                              (* Date.now() of the staleness window *)
  nowIso : Z;                               (* nowIso() written by the claim *)
  SCENE_IMAGE_LOCK_STALE_MS : option Z;
  openaiImagePng : string → result string;  (* the provider's answer to a prompt *)
  upload_error : string → option string;    (* storage.upload(path).error *)
  getPublicUrl : string → string;
  scenePath : string → Z → string → string  (* `jobs/${jobId}/scene-..-${topic}.png` *)
}.

(** [canClaim] of [claimSceneImageGeneration]:
    [currentStatus === null || currentStatus !== 'GENERATING' ||
     (startedAt && new Date(startedAt) < new Date(staleBeforeIso))] *)
Definition canClaim (currentStatus : option string) (startedAt : option Z)
    (staleBefore : Z) : bool :=
  bool_decide (currentStatus = None)
  || negb (bool_decide (currentStatus = Some "GENERATING"))
  || match startedAt with
     | Some t => t <? staleBefore
     | None => false
     end.

(** The values the claim writes. *)
Definition claimed (requestId : string) (now : Z) (r : Scene.row) : Scene.row :=
  Scene.mk (Scene.id r) (Scene.job_id r) (Scene.scene_id r) (Scene.narration r)
    (Scene.on_screen_text r) (Scene.visual_brief r) (Scene.mood r) (Scene.duration_sec r)
    (Scene.image_prompt r) (Scene.image_path r) (Scene.image_url r)
    (Some "GENERATING") (Some requestId) (Some now) None.

(** The filter of the claiming update:
    [.eq('job_id', jobId).eq('scene_id', sceneId).eq('id', check.data.id)] *)
Definition claim_filter (jobId : string) (sceneId : Z) (rowId : nat) (r : Scene.row) : bool :=
  Db.scene_is jobId sceneId r && bool_decide (Scene.id r = rowId).

(** [claimSceneImageGeneration] awaits two statements; between them other
    invocations may run.  Its control point is before the check, before
    the update (holding the row identity it read), or after its return. *)
Inductive ClaimPc : Type :=
| AtCheck
| AtUpdate (rowId : nat)
| Returned (r : result bool).

Section OneClaim.
Variables (jobId : string) (sceneId : Z) (requestId : string) (staleBefore now : Z).

(** One statement of [claimSceneImageGeneration]. *)
Definition claim_step (pc : ClaimPc) (w : World) : ClaimPc * World :=
  match pc with
  | AtCheck =>
      match Db.select_scene jobId sceneId w with
      | Throw m => (Returned (Throw m), w)
      | Ok row =>
          if canClaim (Scene.image_gen_status row) (Scene.image_gen_started_at row)
                      staleBefore
          then (AtUpdate (Scene.id row), w)
          else (Returned (Ok false), w)
      end
  | AtUpdate rowId =>
      let sel := claim_filter jobId sceneId rowId in
      (Returned (Ok (negb (Nat.eqb (length (Db.updated_ids sel w)) 0))),
       Db.update_scenes sel (claimed requestId now) w)
  | Returned r => (Returned r, w)
  end.

(** The call run without interruption: the check, then the update. *)
Definition claimSceneImageGeneration (w : World) : result bool * World :=
  let '(pc1, w1) := claim_step AtCheck w in
  let '(pc2, w2) := claim_step pc1 w1 in
  match pc2 with
  | Returned r => (r, w2)
  | _ => (Throw "unreachable", w2)
  end.
End OneClaim.

(** Two invocations claiming the same scene.  A schedule names, statement
    by statement, which of the two runs next. *)
Inductive Caller : Type := A | B.

Record ClaimArgs : Type := mkArgs {
  arg_requestId : string;
  arg_staleBefore : Z;
  arg_now : Z
}.

Definition step_of (jobId : string) (sceneId : Z) (a : ClaimArgs) :=
  claim_step jobId sceneId (arg_requestId a) (arg_staleBefore a) (arg_now a).

Fixpoint interleave (jobId : string) (sceneId : Z) (a b : ClaimArgs)
    (schedule : list Caller) (pcA pcB : ClaimPc) (w : World) : ClaimPc * ClaimPc * World :=
  match schedule with
  | [] => (pcA, pcB, w)
  | A :: rest =>
      let '(pcA', w') := step_of jobId sceneId a pcA w in
      interleave jobId sceneId a b rest pcA' pcB w'
  | B :: rest =>
      let '(pcB', w') := step_of jobId sceneId b pcB w in
      interleave jobId sceneId a b rest pcA pcB' w'
  end.

(** The completion writes of [runGenerate]. *)
Definition succeeded (path url prompt : string) (r : Scene.row) : Scene.row :=
  Scene.mk (Scene.id r) (Scene.job_id r) (Scene.scene_id r) (Scene.narration r)
    (Scene.on_screen_text r) (Scene.visual_brief r) (Scene.mood r) (Scene.duration_sec r)
    (Some prompt) (Some path) (Some url)
    (Some "SUCCEEDED") (Scene.image_gen_request_id r) (Scene.image_gen_started_at r) None.

Definition failed (msg : string) (r : Scene.row) : Scene.row :=
  Scene.mk (Scene.id r) (Scene.job_id r) (Scene.scene_id r) (Scene.narration r)
    (Scene.on_screen_text r) (Scene.visual_brief r) (Scene.mood r) (Scene.duration_sec r)
    (Scene.image_prompt r) (Scene.image_path r) (Scene.image_url r)
    (Some "FAILED") (Scene.image_gen_request_id r) (Scene.image_gen_started_at r) (Some msg).

(** [.eq('job_id', jobId).eq('scene_id', sceneId).eq('image_gen_request_id', requestId)] *)
Definition completion_filter (jobId : string) (sceneId : Z) (requestId : string)
    (r : Scene.row) : bool :=
  Db.scene_is jobId sceneId r && bool_decide (Scene.image_gen_request_id r = Some requestId).

Definition write_succeeded (jobId : string) (sceneId : Z) (requestId path url prompt : string)
    (w : World) : World :=
  Db.update_scenes (completion_filter jobId sceneId requestId) (succeeded path url prompt) w.

Definition write_failed (jobId : string) (sceneId : Z) (requestId msg : string)
    (w : World) : World :=
  Db.update_scenes (completion_filter jobId sceneId requestId) (failed msg) w.

(** [staleMs] and [staleBeforeIso] of [runGenerate]. *)
Definition staleMs (env : Env) : Z :=
  clamp_env (SCENE_IMAGE_LOCK_STALE_MS env) 300000 60000 3600000.

Definition staleBefore (env : Env) : Z := dateNow env - staleMs env.

(** The prompt of [runGenerate]. *)
Definition promptOf (job : Job.row) (scene : Scene.row) : string :=
  or_else (trim (str (Scene.image_prompt scene)))
          (synthesizedPrompt scene (topicOf job) (styleOf (Job.packager job))).

(** The [try] block of [runGenerate]: what it returns, or the message it
    throws, and the world it leaves. *)
Definition generate (env : Env) (jobId : string) (sceneId : Z) (force : bool)
    (job : Job.row) (scene : Scene.row) (w : World)
    : result GenerateSceneImageResponse * World :=
  let prompt := promptOf job scene in
  if negb (truthy prompt) then (Throw "empty image prompt", w) else
  let w1 := add_image_request prompt w in
  match openaiImagePng env prompt with
  | Throw m => (Throw m, w1)
  | Ok png =>
      let path := scenePath env jobId sceneId (topicOf job) in
      match upload_error env path with
      | Some m => (Throw m, w1)
      | None =>
          let w2 := set_bucket (bucket w1 ++ [path]) w1 in
          let publicUrl := getPublicUrl env path in
          let w3 := write_succeeded jobId sceneId (randomUUID env) path publicUrl prompt w2 in
          let w4 := snd (Db.insert_asset jobId asset_image (Some path) (Some publicUrl)
                                         (Some sceneId) (Some (randomUUID env)) w3) in
          (Ok (mkResponse jobId sceneId true SUCCEEDED (Some publicUrl) "image generated"), w4)
      end
  end.

Definition runGenerate (env : Env) (jobId : string) (sceneId : Z) (force : bool)
    (w : World) : result GenerateSceneImageResponse * World :=
  match Db.select_job jobId w with
  | Throw m => (Throw m, w)
  | Ok job =>
  match Db.select_scene jobId sceneId w with
  | Throw m => (Throw m, w)
  | Ok scene =>
      let existingUrl := Scene.image_url scene in
      if negb force && truthy_opt existingUrl then
        (Ok (mkResponse jobId sceneId true ALREADY_EXISTS existingUrl "image already exists"), w)
      else
        match claimSceneImageGeneration jobId sceneId (randomUUID env) (staleBefore env)
                                        (nowIso env) w with
        | (Throw m, w1) => (Throw m, w1)
        | (Ok false, w1) =>
            (Ok (mkResponse jobId sceneId false IN_PROGRESS None "generation in progress"), w1)
        | (Ok true, w1) =>
            match generate env jobId sceneId force job scene w1 with
            | (Ok out, w2) => (Ok out, w2)
            | (Throw msg, w2) =>
                (Ok (mkResponse jobId sceneId true FAILED None msg),
                 write_failed jobId sceneId (randomUUID env) msg w2)
            end
        end
  end
  end.

(** The request handler ([Deno.serve]); [None] is a body that is not JSON. *)
Definition serve (env : Env) (payload : option GenerateSceneImageRequest) (w : World)
    : Response GenerateSceneImageResponse * World :=
  match payload with
  | None => (JsonError 400 "Invalid JSON body", w)
  | Some p =>
      let jobId := trim (str (req_job_id p)) in
      if negb (truthy jobId) then (JsonError 400 "job_id is required", w) else
      match req_scene_id p with
      | None => (JsonError 400 "scene_id is required", w)
      | Some sceneId =>
          if sceneId <=? 0 then (JsonError 400 "scene_id is required", w) else
          match runGenerate env jobId sceneId (req_force p) w with
          | (Ok out, w') =>
              match status out with
              | IN_PROGRESS => (Json 202 out, w')
              | _ => (Json 200 out, w')
              end
          | (Throw msg, w') => (JsonError 500 msg, w')
          end
      end
  end.

End GenerateSceneImage.

(** [pushRuntimeLog(packager, level, msg, data)]: appended to the runtime
    log when the job has a packager, and always written to the console. *)
Definition push_log (e : LogEntry) (p : Packager) : Packager :=
  mkPackager (pk_scenes p) (pk_style_guide p) (pk_image_render_requests p)
             (pk_autoconfig_status p) (pk_packager_status p) (pk_logs p ++ [e]).

Definition pushRuntimeLog (level : LogLevel) (msg : string) (data : LogData)
    (st : option Packager * World) : option Packager * World :=
  let e := mkLog level msg data in
  (push_log e <$> fst st, add_console e (snd st)).

(** ** trendstory-retry-images *)

Module RetryImages.

Record RetryImagesRequest : Type := mkRequest {
  job_id : option string;
  scene_ids : option (list (option Z));  (* None: not an array *)
  missing_only : option bool;
  depth : option Z                        (* set by the self-requeue only *)
}.

Record RetryImagesResponse : Type := mkResponse {
  res_job_id : string;
  attempted : nat;
  succeeded : nat;
  failed : nat;
  skipped : nat;
  accepted : bool
}.

Record Task : Type := mkTask { t_scene_id : Z; t_prompt : string }.

(** The outside world of a chain of invocations.  The secrets and the
    tunables are those of the deployment; the clock, the provider and the
    network are indexed by the invocation (0 for the client's request, 1
    for the first self-requeue, ..) and, within it, by the reading or the
    item. *)
Record Env : Type := mkEnv {
  RETRY_IMAGES_MAX_RUNTIME_MS : option Z;
  RETRY_IMAGES_MAX_DEPTH : option Z;
  SUPABASE_SERVICE_ROLE_KEY : string;
  SUPABASE_ANON_KEY : option string;
  dateNow : nat → nat → Z;                       (* k-th value of Date.now() *)
  openaiImagePng : nat → nat → string → result string;
  upload_error : nat → nat → string → option string;
  getPublicUrl : string → string;
  scenePath : string → Z → string → string;
  fetch_delivered : nat → bool                    (* the self-call reaches the function *)
}.

(** [t.split('.').length >= 3] *)
Fixpoint dots (s : string) : nat :=
  match s with
  | EmptyString => 0%nat
  | String a s' => ((if Ascii.eqb a "."%char then 1 else 0) + dots s')%nat
  end.

Definition jwtLike (t : string) : bool := Nat.leb 2 (dots t).

Definition pickJwtKey (keys : list (option string)) : string :=
  match List.filter (fun t => truthy t && jwtLike t) (List.map (fun k => trim (str k)) keys) with
  | t :: _ => t
  | [] =>
      match List.filter truthy (List.map (fun k => trim (str k)) keys) with
      | t :: _ => t
      | [] => ""
      end
  end.

(** The [ok] field of [buildEdgeFunctionAuthHeaders(key)]. *)
Definition auth_ok (key : string) : bool := truthy (trim key).

Definition maxRuntimeMs (env : Env) : Z :=
  clamp_env (RETRY_IMAGES_MAX_RUNTIME_MS env) 50000 5000 110000.

Definition maxDepth (env : Env) : Z :=
  clamp_env (RETRY_IMAGES_MAX_DEPTH env) 10 0 30.

(** [promptByScene]: the last non-empty prompt of each scene id in
    [packager.image_render_requests]. *)
Definition promptByScene (p : option Packager) : gmap Z string :=
  fold_left
    (fun (m : gmap Z string) (r : option Z * option string) =>
       match fst r with
       | Some sid =>
           let pr := trim (str (snd r)) in
           if truthy pr then <[sid := pr]> m else m
       | None => m
       end)
    (default [] (p ≫= pk_image_render_requests)) ∅.

(** [wantSet]: the finite numbers of [payload.scene_ids]. *)
Definition wantSet (ids : option (list (option Z))) : option (gset Z) :=
  (fun l => list_to_set (omap id l)) <$> ids.

Definition wanted (want : option (gset Z)) (sceneId : Z) : bool :=
  match want with
  | Some s => bool_decide (sceneId ∈ s)
  | None => true
  end.

Definition taskPrompt (job : Job.row) (s : Scene.row) : string :=
  or_else (trim (str (Scene.image_prompt s)))
    (or_else (trim (str (promptByScene (Job.packager job) !! Scene.scene_id s)))
             (synthesizedPrompt s (topicOf job) (styleOf (Job.packager job)))).

(** The selection loop of the handler, one scene per step. *)
Record Selection : Type := mkSelection {
  sel_tasks : list Task;
  sel_skipped : nat;
  sel_log : option Packager * World
}.

Definition select_step (job : Job.row) (want : option (gset Z)) (missingOnly : bool)
    (acc : Selection) (s : Scene.row) : Selection :=
  let sceneId := Scene.scene_id s in
  let hasImage := truthy_opt (Scene.image_url s) in
  if negb (wanted want sceneId) then
    mkSelection (sel_tasks acc) (S (sel_skipped acc)) (sel_log acc)
  else if missingOnly && hasImage then
    mkSelection (sel_tasks acc) (S (sel_skipped acc)) (sel_log acc)
  else
    let prompt := taskPrompt job s in
    if negb (truthy prompt) then
      mkSelection (sel_tasks acc) (S (sel_skipped acc))
        (pushRuntimeLog warn "empty image prompt, skipped" (SceneData sceneId) (sel_log acc))
    else
      mkSelection (sel_tasks acc ++ [mkTask sceneId prompt]) (sel_skipped acc) (sel_log acc).

Definition selectTasks (job : Job.row) (want : option (gset Z)) (missingOnly : bool)
    (rows : list Scene.row) (log : option Packager * World) : Selection :=
  fold_left (select_step job want missingOnly) rows (mkSelection [] 0 log).

(** [update({ image_path, image_url, image_prompt })] of the retry loop:
    the claim columns are not written. *)
Definition with_image (path url prompt : string) (r : Scene.row) : Scene.row :=
  Scene.mk (Scene.id r) (Scene.job_id r) (Scene.scene_id r) (Scene.narration r)
    (Scene.on_screen_text r) (Scene.visual_brief r) (Scene.mood r) (Scene.duration_sec r)
    (Some prompt) (Some path) (Some url)
    (Scene.image_gen_status r) (Scene.image_gen_request_id r)
    (Scene.image_gen_started_at r) (Scene.image_gen_error r).

(** The state of [runRetryInBackground] while it loops. *)
Record Run : Type := mkRun {
  run_log : option Packager * World;
  run_attempted : nat;
  run_succeeded : nat;
  run_failed : nat;
  run_skipped : nat;
  run_processed : list Task;      (* the items the loop body ran on, in order *)
  run_remaining : list Z          (* remainingSceneIds *)
}.

Section Background.
Variables (env : Env) (inv : nat) (jobId topic : string) (depth : Z).

(** The [try] block of one item: the provider, the upload, the update of
    the scene row, the asset row.  [None] when it threw. *)
Definition regenerate (idx : nat) (sceneId : Z) (prompt : string)
    (st : option Packager * World) : option string * (option Packager * World) :=
  let st1 := pushRuntimeLog info "image regeneration started" (SceneData sceneId) st in
  let st2 := (fst st1, add_image_request prompt (snd st1)) in
  match openaiImagePng env inv idx prompt with
  | Throw m => (Some m, st2)
  | Ok png =>
      let path := scenePath env jobId sceneId topic in
      match upload_error env inv idx path with
      | Some m => (Some m, st2)
      | None =>
          let publicUrl := getPublicUrl env path in
          let w3 := set_bucket (bucket (snd st2) ++ [path]) (snd st2) in
          let w4 := Db.update_scenes (Db.scene_is jobId sceneId)
                                     (with_image path publicUrl prompt) w3 in
          let '(insErr, w5) := Db.insert_asset jobId asset_image (Some path)
                                 (Some publicUrl) (Some sceneId) None w4 in
          let st5 := match insErr with
                     | Some m => pushRuntimeLog warn "asset row not recorded (ignored)"
                                                (SceneError sceneId m) (fst st2, w5)
                     | None => (fst st2, w5)
                     end in
          (None, pushRuntimeLog info "image regeneration done" (SceneData sceneId) st5)
      end
  end.

(** The body of the loop for the item at [idx]. *)
Definition process_item (idx : nat) (t : Task) (r : Run) : Run :=
  let sceneId := t_scene_id t in
  let prompt := trim (t_prompt t) in
  if negb (truthy prompt) then
    mkRun (run_log r) (run_attempted r) (run_succeeded r) (run_failed r)
          (S (run_skipped r)) (run_processed r ++ [t]) (run_remaining r)
  else
    let '(err, st) := regenerate idx sceneId prompt (run_log r) in
    let st' := match err with
               | Some m => pushRuntimeLog error "image regeneration failed"
                                          (SceneError sceneId m) st
               | None => st
               end in
    (* best-effort persist of the log *)
    let st'' := (fst st', Db.update_jobs jobId (set_packager (fst st')) (snd st')) in
    mkRun st'' (S (run_attempted r))
          (match err with Some _ => run_succeeded r | None => S (run_succeeded r) end)
          (match err with Some _ => S (run_failed r) | None => run_failed r end)
          (run_skipped r) (run_processed r ++ [t]) (run_remaining r).

(** [for (let idx = 0; idx < tasks.length; idx++)], entered at [idx] with
    [tasks.slice(idx)] still to do.  The budget is checked before every
    item against the [idx+1]-th value of the clock. *)
Fixpoint loop (startedAt : Z) (idx : nat) (todo : list Task) (r : Run) : Run :=
  match todo with
  | [] => r
  | t :: rest =>
      if dateNow env inv (S idx) - startedAt >? maxRuntimeMs env then
        let remaining := List.map t_scene_id todo in
        mkRun (pushRuntimeLog warn "time budget exceeded, handing over to the next batch"
                 (BudgetExceeded depth (maxRuntimeMs env) (length remaining))
                 (run_log r))
              (run_attempted r) (run_succeeded r) (run_failed r) (run_skipped r)
              (run_processed r) remaining
      else loop startedAt (S idx) rest (process_item idx t r)
  end.

(** [runRetryInBackground] up to the self-requeue. *)
Definition runRetryInBackground (packager : option Packager) (tasks : list Task)
    (w : World) : Run :=
  let st0 := pushRuntimeLog info "image retry background task started" NoData
                            (packager, w) in
  let r := loop (dateNow env inv 0) 0 tasks (mkRun st0 0 0 0 0 [] []) in
  let st1 := pushRuntimeLog info "image retry background task finished"
               (Counters (run_attempted r) (run_succeeded r) (run_failed r) (run_skipped r))
               (run_log r) in
  let st2 := (fst st1, Db.update_jobs jobId (set_packager (fst st1)) (snd st1)) in
  mkRun st2 (run_attempted r) (run_succeeded r) (run_failed r) (run_skipped r)
        (run_processed r) (run_remaining r).

(** The self-requeue: the body posted to the same function, when one is
    posted, and the log entries written on the way (they reach the
    console only: the packager is not persisted again). *)
Definition requeue (r : Run) : option RetryImagesRequest * (option Packager * World) :=
  if negb (Nat.eqb (length (run_remaining r)) 0) && (depth <? maxDepth env) then
    let authKey := pickJwtKey [Some (SUPABASE_SERVICE_ROLE_KEY env); SUPABASE_ANON_KEY env] in
    let st := pushRuntimeLog info "requesting the next batch" (Requeue depth (depth + 1))
                             (run_log r) in
    if negb (auth_ok authKey) then
      (None, pushRuntimeLog error "self-requeue: the auth key is empty" NoData st)
    else
      (Some (mkRequest (Some jobId) (Some (List.map Some (run_remaining r)))
                       (Some true) (Some (depth + 1))),
       if jwtLike (trim authKey) then st
       else pushRuntimeLog warn "self-requeue: the auth key is not a JWT" NoData st)
  else (None, run_log r).
End Background.

(** What the handler leaves to the background task. *)
Record Background : Type := mkBackground {
  bg_jobId : string;
  bg_topic : string;
  bg_packager : option Packager;
  bg_tasks : list Task;
  bg_depth : Z
}.

(** The request handler ([Deno.serve]) up to its response. *)
Definition serve (payload : option RetryImagesRequest) (w : World)
    : Response RetryImagesResponse * option Background * World :=
  match payload with
  | None => (JsonError 400 "Invalid JSON body", None, w)
  | Some p =>
      let jobId := trim (str (job_id p)) in
      if negb (truthy jobId) then (JsonError 400 "job_id is required", None, w) else
      let depth := num_or (depth p) 0 in
      match Db.select_job jobId w with
      | Throw m => (JsonError 500 m, None, w)
      | Ok job =>
          let rows := Db.scenes_of jobId w in
          let want := wantSet (scene_ids p) in
          let missingOnly := negb (bool_decide (missing_only p = Some false)) in
          let packager := Job.packager job in
          let st0 := pushRuntimeLog info "retry of missing images started" NoData
                                    (packager, w) in
          let sel := selectTasks job want missingOnly rows st0 in
          let '(pk, w1) := sel_log sel in
          let w2 := match pk with
                    | Some _ => Db.update_jobs jobId (set_packager pk) w1
                    | None => w1
                    end in
          (Json 202 (mkResponse jobId (length (sel_tasks sel)) 0 0 (sel_skipped sel) true),
           Some (mkBackground jobId (topicOf job) pk (sel_tasks sel) depth),
           w2)
      end
  end.



End RetryImages.

(** ** trendstory-start: the handler and the pipeline *)

Module Start.

Record TrendStoryStartResponse : Type := mkResponse {
  res_job_id : string;
  res_trace_id : string
}.

(** What the outside world decides during one start request. *)
Record Env : Type := mkEnv {
  new_job_id : string;                         (* gen_random_uuid() of the insert *)
  new_trace_id : string;
  autoconfig_answer : result AutoConfig;       (* stage 1 *)
  packager_answer : bool → result Packager;    (* stage 2, with and without web search *)
  repair_answer : result Packager;             (* the repair request *)
  openaiTtsMp3 : Z → string → result string;   (* speech of a scene *)
  upload_error : string → option string;
  getPublicUrl : string → string;
  audioPath : string → Z → string;             (* `jobs/${jobId}/tts/scene-..mp3` *)
  (* the image prompt list of step 3, which no property below reads *)
  normalizeImageRenderRequests :
    Packager → list Z → list (option Z * option string) * bool
}.

(** Code that reads and writes a state and may throw.  The state of the
    pipeline is its [packager] object, which it mutates in place, and the
    world. *)
Definition M (S A : Type) : Type := S → result A * S.

Definition ret {S A} (a : A) : M S A := fun s => (Ok a, s).

Definition bind {S A B} (m : M S A) (k : A → M S B) : M S B :=
  fun s => match m s with
           | (Ok a, s') => k a s'
           | (Throw e, s') => (Throw e, s')
           end.

Definition throw {S A} (msg : string) : M S A := fun s => (Throw msg, s).

(** [try { m } catch (e) { h(e.message) }] *)
Definition try_catch {S A} (m : M S A) (h : string → M S A) : M S A :=
  fun s => match m s with
           | (Ok a, s') => (Ok a, s')
           | (Throw e, s') => h e s'
           end.

(** The answer of the provider: a value, or a thrown error. *)
Definition answer {S A} (r : result A) : M S A := fun s => (r, s).

Definition Pipeline (A : Type) : Type := M (Packager * World) A.

(** One statement on the world that cannot fail. *)
Definition stmt (f : World → World) : Pipeline unit :=
  fun s => (Ok tt, (fst s, f (snd s))).

(** One statement whose [error] the code inspects: [if (x.error) throw]. *)
Definition checked (f : World → option string * World) : Pipeline unit :=
  fun s => let '(e, w') := f (snd s) in
           match e with
           | Some m => (Throw m, (fst s, w'))
           | None => (Ok tt, (fst s, w'))
           end.

Definition get_packager : Pipeline Packager := fun s => (Ok (fst s), s).

Definition modify_packager (f : Packager → Packager) : Pipeline unit :=
  fun s => (Ok tt, (f (fst s), snd s)).

Notation "x <- m ;; k" := (bind m (fun x => k))
  (at level 100, m at next level, right associativity).
Notation "m ;;; k" := (bind m (fun _ => k))
  (at level 100, right associativity).

(** The updates of [ytg_jobs] the pipeline makes. *)
Definition running (j : Job.row) : Job.row :=
  Job.mk (Job.id j) RUNNING (Job.input j) (Job.autoconfig j) (Job.packager j)
         (Job.final_package j) None (Job.trace_id j).

Definition with_autoconfig (a : AutoConfig) (p : Packager) (j : Job.row) : Job.row :=
  Job.mk (Job.id j) (Job.status j) (Job.input j) (Some a) (Some p)
         (Job.final_package j) (Job.error j) (Job.trace_id j).

Definition succeeded (fp : FinalPackage) (p : Packager) (j : Job.row) : Job.row :=
  Job.mk (Job.id j) SUCCEEDED (Job.input j) (Job.autoconfig j) (Some p)
         (Some fp) None (Job.trace_id j).

Definition failed (msg : string) (j : Job.row) : Job.row :=
  Job.mk (Job.id j) FAILED (Job.input j) (Job.autoconfig j) (Job.packager j)
         (Job.final_package j) (Some msg) (Job.trace_id j).

(** The reset of a restart. *)
Definition reset (payload : StartRequest) (j : Job.row) : Job.row :=
  Job.mk (Job.id j) QUEUED payload None None None None (Job.trace_id j).

Definition set_runtime (autoconfig_status packager_status : option string) (p : Packager)
    : Packager :=
  mkPackager (pk_scenes p) (pk_style_guide p) (pk_image_render_requests p)
             autoconfig_status packager_status (pk_logs p).

(** [Object.assign(packager, packagerResult)]: the keys of the model's
    answer over the runtime data the server keeps. *)
Definition assign (p answer : Packager) : Packager :=
  mkPackager (pk_scenes answer) (pk_style_guide answer) (pk_image_render_requests answer)
             (pk_autoconfig_status p) (pk_packager_status p) (pk_logs p).

Definition set_render_requests (rs : list (option Z * option string)) (p : Packager)
    : Packager :=
  mkPackager (pk_scenes p) (pk_style_guide p) (Some rs)
             (pk_autoconfig_status p) (pk_packager_status p) (pk_logs p).

(** [pushRuntimeLog] on the pipeline's packager: the entry is appended and
    written to the console. *)
Definition log (level : LogLevel) (msg : string) (data : LogData) : Pipeline unit :=
  fun s => (Ok tt, (push_log (mkLog level msg data) (fst s),
                    add_console (mkLog level msg data) (snd s))).

(** [targetCount]:
    [Math.max(1, Math.min(Number(autoconfig.scene_count ?? 6) || 6, 12))] *)
Definition targetCount (a : AutoConfig) : Z :=
  Z.max 1 (Z.min (num_or (ac_scene_count a) 6) 12).

(** [{ ...s, scene_id: Number.isFinite(s.scene_id) ? s.scene_id : i + 1 }] *)
Definition reindex (i : nat) (s : RawScene) : Z * RawScene :=
  (default (Z.of_nat i + 1) (raw_scene_id s), s).

(** [normalizeScenes]: [scenes.slice(0, targetCount).map(..).sort(..)];
    [Array.prototype.sort] is stable. *)
Definition normalizeScenes (target : Z) (p : Packager) : list (Z * RawScene) :=
  sort_by fst (imap reindex (take (Z.to_nat target) (default [] (pk_scenes p)))).

(** The row inserted for a scene. *)
Definition scene_row (jobId : string) (rowId : nat) (s : Z * RawScene) : Scene.row :=
  Scene.mk rowId jobId (fst s) (raw_narration (snd s)) (raw_on_screen_text (snd s))
           (raw_visual_brief (snd s)) (raw_mood (snd s)) (raw_duration_sec (snd s))
           None None None None None None None.

(** [from('ytg_scenes').insert(rows)]: one statement; refused as a whole
    by the foreign key when the job is gone and by the unique index on
    (job_id, scene_id). *)
Definition insert_scenes (jobId : string) (ss : list (Z * RawScene)) (w : World)
    : option string * World :=
  if negb (Db.job_exists jobId w) then
    (Some "insert or update on table ytg_scenes violates foreign key constraint", w)
  else
    let taken := List.map Scene.scene_id
                   (List.filter (fun r => bool_decide (Scene.job_id r = jobId)) (scenes w)) in
    if bool_decide (NoDup (taken ++ List.map fst ss)) then
      (None, set_scenes (scenes w ++ imap (fun i => scene_row jobId (next_id w + i)) ss)
                        (next_id w + length ss) w)
    else (Some "duplicate key value violates unique constraint ytg_scenes_job_scene_unique", w).

Section Pipeline.
(* [traceId] and [payload] only reach the prompts and the metadata of the
   package, which are not modelled. *)
Variables (env : Env) (jobId : string).

(** [await supabase.from('ytg_jobs').update({ packager }).eq('id', jobId)] *)
Definition persist : Pipeline unit :=
  fun s => (Ok tt, (fst s, Db.update_jobs jobId (set_packager (Some (fst s))) (snd s))).

(** Stage 2: the packager request with web search and, when it throws,
    the same request without. *)
Definition packagerRequest : Pipeline Packager :=
  try_catch
    (stmt (add_text_request (PackagerRequest true)) ;;;
     answer (packager_answer env true))
    (fun _ =>
       stmt (add_text_request (PackagerRequest false)) ;;;
       answer (packager_answer env false)).

(** The sanity check of the scenes and the repair.  [packager] is
    declared [const] at the top of [runPipeline], so the assignment
    [packager = await openaiResponsesJson(..)] of the repair throws a
    TypeError once the request has been answered; the second
    [normalizeScenes] and the 'scenes is empty (after repair attempt)'
    error behind it are never reached. *)
Definition sanityCheck (target : Z) (scenes : list (Z * RawScene))
    : Pipeline (list (Z * RawScene)) :=
  match scenes with
  | [] =>
      log warn "packager root keys" NoData ;;;
      log warn "packager.scenes is empty, retrying the packager once" NoData ;;;
      stmt (add_text_request (RepairRequest target)) ;;;
      repaired <- answer (repair_answer env) ;;
      throw "Assignment to constant variable."
  | _ => ret scenes
  end.

(** Step 2 of the pipeline, one scene: the speech, its upload, its asset
    row (best-effort), then the log is persisted. *)
Definition ttsScene (s : Z * string) (urls : list (Z * string))
    : Pipeline (list (Z * string)) :=
  urls' <- try_catch
    (log info "TTS (scene) started" (SceneData (fst s)) ;;;
     stmt (add_speech_request (snd s)) ;;;
     mp3 <- answer (openaiTtsMp3 env (fst s) (snd s)) ;;
     let path := audioPath env jobId (fst s) in
     checked (fun w => match upload_error env path with
                       | Some m => (Some m, w)
                       | None => (None, set_bucket (bucket w ++ [path]) w)
                       end) ;;;
     let url := getPublicUrl env path in
     try_catch
       (checked (Db.insert_asset jobId asset_audio (Some path) (Some url)
                                 (Some (fst s)) None))
       (fun m => log warn "asset row not recorded (ignored)" (Note m)) ;;;
     log info "TTS (scene) done" (SceneData (fst s)) ;;;
     ret (urls ++ [(fst s, url)])%list)
    (fun msg =>
       log error "TTS (scene) failed" (SceneError (fst s) msg) ;;;
       ret urls) ;;
  persist ;;;
  ret urls'.

Fixpoint ttsLoop (targets : list (Z * string)) (urls : list (Z * string))
    : Pipeline (list (Z * string)) :=
  match targets with
  | [] => ret urls
  | s :: rest => urls' <- ttsScene s urls ;; ttsLoop rest urls'
  end.

(** [ttsTargetScenes] *)
Definition ttsTargetScenes (scenes : list (Z * RawScene)) : list (Z * string) :=
  List.filter (fun s => truthy (snd s))
    (List.map (fun s => (fst s, trim (str (raw_narration (snd s))))) scenes).

(** The [try] block of [runPipeline], in the order of the source.
    First the job is marked running. *)
Definition markRunning : Pipeline unit :=
  stmt (Db.update_jobs jobId running).

(** 0) the packager object is created and stage 1 (AutoConfig) is
    requested and checkpointed. *)
Definition stage1 : Pipeline AutoConfig :=
  modify_packager (fun _ => mkPackager None None None (Some "running") (Some "waiting") []) ;;;
  persist ;;;
  stmt (add_text_request AutoconfigRequest) ;;;
  autoconfig <- answer (autoconfig_answer env) ;;
  modify_packager (set_runtime (Some "done") (Some "running")) ;;;
  p <- get_packager ;;
  stmt (Db.update_jobs jobId (with_autoconfig autoconfig p)) ;;;
  ret autoconfig.

(** Stage 2 (Packager): the request, the merge into the packager object,
    the sanity check with its repair, and the checkpoint. *)
Definition stage2 (autoconfig : AutoConfig) : Pipeline (list (Z * RawScene)) :=
  packagerResult <- packagerRequest ;;
  modify_packager (fun p => assign p packagerResult) ;;;
  p <- get_packager ;;
  scenes <- sanityCheck (targetCount autoconfig)
                        (normalizeScenes (targetCount autoconfig) p) ;;
  modify_packager (fun p => set_runtime (pk_autoconfig_status p) (Some "done") p) ;;;
  log info "packager done" NoData ;;;
  persist ;;;
  ret scenes.

(** 1) the bulk insert of the scene rows *)
Definition insertScenes (scenes : list (Z * RawScene)) : Pipeline unit :=
  checked (insert_scenes jobId scenes).

(** 2) the speech of every scene that has a narration *)
Definition stage3 (scenes : list (Z * RawScene)) : Pipeline (list (Z * string)) :=
  ttsLoop (ttsTargetScenes scenes) [].

(** 3) the image prompts; the images themselves are made on request *)
Definition imagePrompts (scenes : list (Z * RawScene)) : Pipeline unit :=
  p <- get_packager ;;
  let norm := normalizeImageRenderRequests env p (List.map fst scenes) in
  (if snd norm then
     modify_packager (set_render_requests (fst norm)) ;;;
     log warn "image_render_requests was empty, generated by the server" NoData ;;;
     persist
   else ret tt) ;;;
  log info "images are generated on request, scene by scene" NoData ;;;
  persist.

(** 4) the json marker asset *)
Definition jsonMarker : Pipeline unit :=
  checked (Db.insert_asset jobId asset_json None None None None).

(** 5) the final package, job succeeded *)
Definition markSucceeded (scenes : list (Z * RawScene))
    (sceneAudioUrls : list (Z * string)) : Pipeline unit :=
  p <- get_packager ;;
  stmt (Db.update_jobs jobId (succeeded (mkFinalPackage scenes sceneAudioUrls) p)).

Definition pipeline : Pipeline unit :=
  markRunning ;;;
  autoconfig <- stage1 ;;
  scenes <- stage2 autoconfig ;;
  insertScenes scenes ;;;
  sceneAudioUrls <- stage3 scenes ;;
  imagePrompts scenes ;;;
  jsonMarker ;;;
  markSucceeded scenes sceneAudioUrls.

(** [runPipeline]: the [try] block, and the [catch] that marks the job
    failed. *)
Definition runPipeline (w : World) : World :=
  match pipeline (mkPackager None None None None None [], w) with
  | (Ok _, (_, w')) => w'
  | (Throw msg, (_, w')) => Db.update_jobs jobId (failed msg) w'
  end.
End Pipeline.

(** What the handler hands to the background pipeline. *)
Record Launch : Type := mkLaunch {
  launch_jobId : string;
  launch_traceId : string;
  launch_payload : StartRequest
}.

(** The request handler ([Deno.serve]) up to its response; [None] is a
    body that is not JSON. *)
Definition serve (env : Env) (body : option StartRequest) (w : World)
    : Response TrendStoryStartResponse * option Launch * World :=
  match body with
  | None => (JsonError 400 "Invalid JSON body", None, w)
  | Some payload =>
      if negb (truthy (trim (topic_domain payload))) then
        (JsonError 400 "topic_domain is required", None, w)
      else if negb (truthy (trim (language payload))) then
        (JsonError 400 "language is required", None, w)
      else if negb (truthy (trim (audience payload))) then
        (JsonError 400 "audience is required", None, w)
      else if truthy (trim (str (reuse_job_id payload))) then
        (* restart of an existing job *)
        let existingJobId := trim (str (reuse_job_id payload)) in
        match Db.select_job existingJobId w with
        | Throw m => (JsonError 404 ("job not found: " +:+ m), None, w)
        | Ok _ =>
            let w1 := Db.update_jobs existingJobId (reset payload) w in
            match Db.select_job existingJobId w1 with
            | Throw m => (JsonError 500 m, None, w1)
            | Ok row =>
                let w2 := Db.delete_scenes_of existingJobId w1 in
                let w3 := Db.delete_assets_of existingJobId w2 in
                (Json 200 (mkResponse (Job.id row) (Job.trace_id row)),
                 Some (mkLaunch (Job.id row) (Job.trace_id row) payload), w3)
            end
        end
      else
        (* a new job *)
        match Db.insert_job (Job.mk (new_job_id env) QUEUED payload None None None None
                                    (new_trace_id env)) w with
        | (Some m, w1) => (JsonError 500 m, None, w1)
        | (None, w1) =>
            (Json 200 (mkResponse (new_job_id env) (new_trace_id env)),
             Some (mkLaunch (new_job_id env) (new_trace_id env) payload), w1)
        end
  end.

(** A start request and the pipeline it launches, run to its end. *)
Definition start (env : Env) (body : option StartRequest) (w : World)
    : Response TrendStoryStartResponse * World :=
  match serve env body w with
  | (res, Some l, w1) =>
      (res, runPipeline env (launch_jobId l) w1)
  | (res, None, w1) => (res, w1)
  end.

End Start.

(** ** trendstory-retry-audio (the per-scene variant) *)

Module RetryAudio.

Record RetryAudioRequest : Type := mkRequest { job_id : option string; force : bool }.

Record RetryAudioResponse : Type := mkResponse { res_job_id : string; accepted : bool }.

Record Env : Type := mkEnv {
  openaiTtsMp3 : Z → string → result string;
  upload_error : string → option string;
  getPublicUrl : string → string;
  audioPath : string → Z → string
}.

(** [sceneRows]: the scenes with a narration, by scene id. *)
Definition sceneRows (rows : list Scene.row) : list (Z * string) :=
  sort_by fst
    (List.filter (fun s => truthy (snd s))
       (List.map (fun s => (Scene.scene_id s, trim (str (Scene.narration s)))) rows)).

(** [final_package.audio.scene_audios = sceneAudioUrls] *)
Definition patched (fp : FinalPackage) (urls : list (Z * string)) (p : option Packager)
    (j : Job.row) : Job.row :=
  Job.mk (Job.id j) (Job.status j) (Job.input j) (Job.autoconfig j) p
         (Some (mkFinalPackage (fp_scenes fp) urls)) (Job.error j) (Job.trace_id j).

Section Background.
Variables (env : Env) (jobId : string).

(** The [try] block of one scene: [None] when it threw. *)
Definition speak (s : Z * string) (st : option Packager * World)
    : result string * (option Packager * World) :=
  let st1 := pushRuntimeLog info "audio (scene) regeneration started" (SceneData (fst s)) st in
  let st2 := (fst st1, add_speech_request (snd s) (snd st1)) in
  match openaiTtsMp3 env (fst s) (snd s) with
  | Throw m => (Throw m, st2)
  | Ok mp3 =>
      let path := audioPath env jobId (fst s) in
      match upload_error env path with
      | Some m => (Throw m, st2)
      | None =>
          let url := getPublicUrl env path in
          let w3 := set_bucket (bucket (snd st2) ++ [path]) (snd st2) in
          let st3 := pushRuntimeLog info "audio (scene) regeneration done"
                                    (SceneData (fst s)) (fst st2, w3) in
          let '(insErr, w4) := Db.insert_asset jobId asset_audio (Some path) (Some url)
                                 (Some (fst s)) None (snd st3) in
          (Ok url,
           match insErr with
           | Some m => pushRuntimeLog warn "asset row not recorded (ignored)"
                                      (SceneError (fst s) m) (fst st3, w4)
           | None => (fst st3, w4)
           end)
      end
  end.

Fixpoint speakAll (rows : list (Z * string)) (urls : list (Z * string))
    (st : option Packager * World) : list (Z * string) * (option Packager * World) :=
  match rows with
  | [] => (urls, st)
  | s :: rest =>
      let '(r, st1) := speak s st in
      let '(urls', st2) :=
        match r with
        | Ok url => ((urls ++ [(fst s, url)])%list, st1)
        | Throw m => (urls, pushRuntimeLog error "audio (scene) regeneration failed"
                                           (SceneError (fst s) m) st1)
        end in
      speakAll rest urls'
               (fst st2, Db.update_jobs jobId (set_packager (fst st2)) (snd st2))
  end.

(** [runRetryAudio]; when the job cannot be read it throws before any
    write. *)
Definition runRetryAudio (w : World) : World :=
  match Db.select_job jobId w with
  | Throw _ => w
  | Ok job =>
      let rows := sceneRows (Db.scenes_of jobId w) in
      let st0 := (Job.packager job, w) in
      let '(urls, st1) :=
        match rows with
        | [] => ([], pushRuntimeLog error "no scene has a narration" NoData st0)
        | _ => speakAll rows [] st0
        end in
      match Job.final_package job with
      | Some fp => Db.update_jobs jobId (patched fp urls (fst st1)) (snd st1)
      | None => Db.update_jobs jobId (set_packager (fst st1)) (snd st1)
      end
  end.
End Background.

(** The handler and the background task it starts. *)
Definition serve (env : Env) (payload : option RetryAudioRequest) (w : World)
    : Response RetryAudioResponse * World :=
  match payload with
  | None => (JsonError 400 "Invalid JSON body", w)
  | Some p =>
      let jobId := trim (str (job_id p)) in
      if negb (truthy jobId) then (JsonError 400 "job_id is required", w)
      else (Json 202 (mkResponse jobId true), runRetryAudio env jobId w)
  end.

End RetryAudio.

(** ** trendstory-delete-job *)

Module DeleteJob.

Record DeleteJobRequest : Type := mkRequest { job_id : option string }.

Record DeleteJobResponse : Type := mkResponse { res_job_id : string; accepted : bool }.

(** The storage service during the clean-up: the listing of the prefix
    ([Throw]: the call throws; [Ok None]: it answers with an error) and
    whether [remove] throws. *)
Record Env : Type := mkEnv {
  storage_list : string → result (option (list string));
  remove_throws : option string
}.

(** [.replace(/\/{2,}/g, '/')] *)
Fixpoint squeeze (s : string) : string :=
  match s with
  | EmptyString => EmptyString
  | String a s' =>
      match s' with
      | String b _ =>
          if Ascii.eqb a "/"%char && Ascii.eqb b "/"%char then squeeze s'
          else String a (squeeze s')
      | EmptyString => String a EmptyString
      end
  end.

(** [Array.from(new Set(xs))] *)
Fixpoint unique (xs : list string) (seen : list string) : list string :=
  match xs with
  | [] => []
  | x :: rest =>
      if bool_decide (x ∈ seen) then unique rest seen else x :: unique rest (x :: seen)
  end.

Definition deleteStoragePrefix (env : Env) (prefix : string) (w : World)
    : result unit * World :=
  match storage_list env prefix with
  | Throw m => (Throw m, w)
  | Ok listing =>
      let listed := List.map (fun name => squeeze (prefix +:+ "/" +:+ name))
                             (List.filter truthy (default [] listing)) in
      let toRemove := unique (listed ++ [prefix +:+ "/narration.mp3"])%list [] in
      match toRemove with
      | [] => (Ok tt, w)
      | _ =>
          match remove_throws env with
          | Some m => (Throw m, w)
          | None =>
              (Ok tt, set_bucket (List.filter (fun o => negb (bool_decide (o ∈ toRemove)))
                                              (bucket w)) w)
          end
      end
  end.

(** [runDeleteJob]: the storage clean-up in a [try] whose [catch] is
    empty, then the deletion of the row. *)
Definition runDeleteJob (env : Env) (jobId : string) (w : World) : World :=
  let w1 := snd (deleteStoragePrefix env ("jobs/" +:+ jobId) w) in
  Db.delete_job jobId w1.

(** The handler up to its response, and the job id left to the
    background task. *)
Definition serve (payload : option DeleteJobRequest) (w : World)
    : Response DeleteJobResponse * option string :=
  match payload with
  | None => (JsonError 400 "Invalid JSON body", None)
  | Some p =>
      let jobId := trim (str (job_id p)) in
      if negb (truthy jobId) then (JsonError 400 "job_id is required", None)
      else (Json 202 (mkResponse jobId true), Some jobId)
  end.

(** A delete request and its background task, run to its end. *)
Definition delete (env : Env) (payload : option DeleteJobRequest) (w : World)
    : Response DeleteJobResponse * World :=
  match serve payload w with
  | (res, Some jobId) => (res, runDeleteJob env jobId w)
  | (res, None) => (res, w)
  end.

End DeleteJob.

(** ** Paths of the stored objects *)

From Stdlib Require Import DecimalString DecimalZ.

Module Paths.

(** [String(n)] of an integer *)
Definition dec (n : Z) : string := NilZero.string_of_int (Z.to_int n).

(** [s.padStart(2, '0')] *)
Definition padStart2 (s : string) : string :=
  match s with
  | EmptyString => "00"
  | String a EmptyString => String "0"%char (String a EmptyString)
  | _ => s
  end.

(** The class [[a-zA-Z0-9._-]] *)
Definition safe_char (a : ascii) : bool :=
  let n := nat_of_ascii a in
  (Nat.leb 97 n && Nat.leb n 122) || (Nat.leb 65 n && Nat.leb n 90)
  || (Nat.leb 48 n && Nat.leb n 57)
  || Nat.eqb n 46 || Nat.eqb n 95 || Nat.eqb n 45.

(** [s.replace(/[^a-zA-Z0-9._-]+/g, '-')]: every maximal run of other
    characters becomes one dash.  [in_run] tells that the character
    before was replaced. *)
Fixpoint replace_runs (in_run : bool) (s : string) : string :=
  match s with
  | EmptyString => EmptyString
  | String a s' =>
      if safe_char a then String a (replace_runs false s')
      else if in_run then replace_runs true s'
      else String "-"%char (replace_runs true s')
  end.

Definition safeFilename (s : string) : string := replace_runs false s.

(** [s.slice(0, n)] *)
Definition slice0 (n : nat) (s : string) : string := String.substring 0 n s.

(** [`jobs/${jobId}/scene-${String(sceneId).padStart(2, '0')}-${safeFilename(topic).slice(0, 48)}.png`] *)
Definition scenePath (jobId : string) (sceneId : Z) (topic : string) : string :=
  "jobs/" +:+ jobId +:+ "/scene-" +:+ padStart2 (dec sceneId) +:+ "-"
  +:+ slice0 48 (safeFilename topic) +:+ ".png".

(** [`jobs/${jobId}/tts/scene-${String(s.scene_id).padStart(2, '0')}.mp3`] *)
Definition audioPath (jobId : string) (sceneId : Z) : string :=
  "jobs/" +:+ jobId +:+ "/tts/scene-" +:+ padStart2 (dec sceneId) +:+ ".mp3".

End Paths.

(** ** The calls to the provider *)

(** What [fetch] gives for one request: an HTTP answer with its status and
    body, or a rejection (time-out of [fetchWithTimeout], network error). *)
Inductive Fetched : Type :=
| Answer (http_status : Z) (body : string)
| Rejected (abort : bool) (message : string).

(** [res.ok] *)
Definition http_ok (status : Z) : bool := (200 <=? status) && (status <=? 299).

(** [e?.name === 'AbortError' ? `timeout after ${timeoutMs}ms` : e?.message] *)
Definition rejection (timeoutMs : Z) (abort : bool) (message : string) : string :=
  if abort then "timeout after " +:+ Paths.dec timeoutMs +:+ "ms" else message.

(** What a call does besides returning: its requests, by attempt, and its
    pauses ([sleepMs]). *)
Inductive Event : Type :=
| Requested (what : string) (attempt : nat)
| Slept (ms : Z)
| Downloaded (url : string).

(** *** [openaiTtsMp3] of trendstory-start *)

Module Speech.

Record Env : Type := mkEnv {
  OPENAI_TTS_TIMEOUT_MS : option Z;
  OPENAI_TTS_MAX_ATTEMPTS : option Z;
  fetch : nat → Fetched                   (* the answer to the n-th attempt *)
}.

Definition timeoutMs (env : Env) : Z :=
  clamp_env (OPENAI_TTS_TIMEOUT_MS env) 60000 10000 180000.

Definition maxAttempts (env : Env) : Z :=
  clamp_env (OPENAI_TTS_MAX_ATTEMPTS env) 2 1 5.

(** The loop [for (let attempt = 1; attempt <= maxAttempts; attempt++)],
    entered at [attempt] with [left] iterations to go.  The [throw]s of
    the [try] block are caught by its own [catch], which retries while
    attempts are left. *)
Fixpoint attempts (env : Env) (left attempt : nat) (lastErr : option string)
    : result string * list Event :=
  match left with
  | O => (Throw (default "OpenAI TTS error: max attempts exceeded" lastErr), [])
  | S left' =>
      let next (lastErr' : string) (ms : Z) :=
        let '(r, tr) := attempts env left' (S attempt) (Some lastErr') in
        (r, Requested "speech" attempt :: Slept ms :: tr) in
      (* the [catch] block *)
      let caught (msg : string) :=
        let lastErr' := "OpenAI TTS request failed (attempt " +:+ Paths.dec (Z.of_nat attempt)
                        +:+ "): " +:+ msg in
        if Z.of_nat attempt <? maxAttempts env then next lastErr' (600 * Z.of_nat attempt)
        else (Throw lastErr', [Requested "speech" attempt]) in
      match fetch env attempt with
      | Rejected abort message => caught (rejection (timeoutMs env) abort message)
      | Answer status body =>
          if http_ok status then (Ok body, [Requested "speech" attempt])
          else
            let lastErr' := "OpenAI TTS error (" +:+ Paths.dec status +:+ ", attempt "
                            +:+ Paths.dec (Z.of_nat attempt) +:+ "): " +:+ body in
            if status =? 400 then caught lastErr'
            else if (status =? 429) || (500 <=? status) then
              next lastErr' (800 * Z.of_nat attempt)
            else caught lastErr'
      end
  end.

Definition openaiTtsMp3 (env : Env) : result string * list Event :=
  attempts env (Z.to_nat (maxAttempts env)) 1 None.

End Speech.

(** *** [openaiImagePng] *)

Module ImageProvider.

(** [JSON.parse(text)?.data?.[0]] *)
Record First : Type := mkFirst {
  b64_json : option string;
  url : option string
}.

Record Env : Type := mkEnv {
  OPENAI_IMAGE_SIZE : option string;
  OPENAI_IMAGE_TIMEOUT_MS : option Z;
  OPENAI_IMAGE_MAX_ATTEMPTS : option Z;
  fetch : string → nat → Fetched;     (* by size and attempt *)
  parse : string → result First;      (* [JSON.parse], which may throw *)
  atob : string → result string;
  download : string → Fetched         (* the GET of [first.url] *)
}.

(** [Array.from(new Set([envSize, '1792x1024', '1024x1024'].filter(Boolean)))] *)
Definition sizes (env : Env) : list string :=
  DeleteJob.unique
    (List.filter truthy [trim (str (OPENAI_IMAGE_SIZE env)); "1792x1024"; "1024x1024"]) [].

Definition timeoutMs (env : Env) : Z := num_or (OPENAI_IMAGE_TIMEOUT_MS env) 120000.

Definition maxAttemptsPerSize (env : Env) : Z :=
  clamp_env (OPENAI_IMAGE_MAX_ATTEMPTS env) 2 1 5.

(** How the loop over the attempts of one size ends: the function returns
    or throws, or the next size is tried. *)
Inductive Control : Type :=
| Return (r : result string)
| NextSize (lastErr : option string).

(** The image behind [first.url]. *)
Definition fetched (env : Env) (url : string) : result string :=
  match download env url with
  | Rejected _ message => Throw message
  | Answer status bytes =>
      if http_ok status then Ok bytes
      else Throw ("Failed to fetch image URL (" +:+ Paths.dec status +:+ ")")
  end.

Fixpoint perSize (env : Env) (size : string) (left attempt : nat) (lastErr : option string)
    : Control * list Event :=
  match left with
  | O => (NextSize lastErr, [])
  | S left' =>
      let next (lastErr' : string) (ms : Z) :=
        let '(c, tr) := perSize env size left' (S attempt) (Some lastErr') in
        (c, Requested size attempt :: Slept ms :: tr) in
      match fetch env size attempt with
      | Rejected abort message =>
          next ("OpenAI image request failed (" +:+ size +:+ ", attempt "
                +:+ Paths.dec (Z.of_nat attempt) +:+ "): "
                +:+ rejection (timeoutMs env) abort message)
               (600 * Z.of_nat attempt)
      | Answer status text =>
          if negb (http_ok status) then
            let lastErr' := "OpenAI image error (" +:+ Paths.dec status +:+ ", size=" +:+ size
                            +:+ ", attempt=" +:+ Paths.dec (Z.of_nat attempt) +:+ "): "
                            +:+ text in
            if status =? 400 then (NextSize (Some lastErr'), [Requested size attempt])
            else if (status =? 429) || (500 <=? status) then
              next lastErr' (800 * Z.of_nat attempt)
            else (Return (Throw lastErr'), [Requested size attempt])
          else
            match parse env text with
            | Throw m => (Return (Throw m), [Requested size attempt])
            | Ok first =>
                if truthy_opt (b64_json first) then
                  (Return (atob env (str (b64_json first))), [Requested size attempt])
                else if truthy_opt (url first) then
                  (Return (fetched env (str (url first))),
                   [Requested size attempt; Downloaded (str (url first))])
                else
                  next "OpenAI image returned neither b64_json nor url"
                       (400 * Z.of_nat attempt)
            end
      end
  end.

Fixpoint bySize (env : Env) (todo : list string) (lastErr : option string)
    : result string * list Event :=
  match todo with
  | [] => (Throw (default "OpenAI image error: no valid size worked" lastErr), [])
  | size :: rest =>
      match perSize env size (Z.to_nat (maxAttemptsPerSize env)) 1 lastErr with
      | (Return r, tr) => (r, tr)
      | (NextSize lastErr', tr) =>
          let '(r, tr') := bySize env rest lastErr' in (r, (tr ++ tr')%list)
      end
  end.

Definition openaiImagePng (env : Env) : result string * list Event :=
  bySize env (sizes env) None.

End ImageProvider.

(** *** The text model: [getTextModelCandidates], [openaiResponsesText] *)

Module TextModels.

(** One element of [json.output]. *)
Inductive Item : Type :=
| Message (content : option (list (option string)))   (* [c?.text], when a string *)
| Other.

(** The parsed body of an answer of the Responses API. *)
Record Body : Type := mkBody {
  output_text : option string;
  output : option (list Item)
}.

(** An answer of the API: refused ([!res.ok]) with a status and a text, or
    [res.ok] with a body that [JSON.parse] reads or throws on; a [fetch]
    that rejects throws out of the function in the same way. *)
Inductive Reply : Type :=
| Refused (http_status : Z) (text : string)
| Answered (body : result Body).

Record Env : Type := mkEnv {
  OPENAI_TEXT_MODEL : option string;
  fetch : string → Reply;                   (* by model *)
  isModelAccessError : string → bool        (* on the text of a refusal *)
}.

(** [getTextModelCandidates(preferred)] *)
Definition getTextModelCandidates (env : Env) (preferred : option string) : list string :=
  DeleteJob.unique
    (List.filter truthy
       ["gpt-5.2"; trim (str preferred); trim (str (OPENAI_TEXT_MODEL env));
        "gpt-4o-mini"; "gpt-4o"]) [].

(** The text of a message item: its string parts joined, when not blank. *)
Definition messageText (i : Item) : option string :=
  match i with
  | Message (Some content) =>
      let joined := String.concat "" (omap id content) in
      if truthy (trim joined) then Some joined else None
  | _ => None
  end.

Fixpoint firstText (items : list Item) : option string :=
  match items with
  | [] => None
  | i :: rest =>
      match messageText i with
      | Some t => Some t
      | None => firstText rest
      end
  end.

(** What [openaiResponsesText] returns for an answer, if anything. *)
Definition textOf (b : Body) : option string :=
  if truthy (trim (str (output_text b))) then output_text b
  else firstText (default [] (output b)).

(** The loop over the candidate models. *)
Fixpoint tryModels (env : Env) (models : list string) (lastErr : option string)
    : result string * list string :=
  match models with
  | [] => (Throw (default "OpenAI responses returned empty output_text" lastErr), [])
  | model :: rest =>
      match fetch env model with
      | Refused status text =>
          let lastErr' := "OpenAI responses error (" +:+ Paths.dec status +:+ "): " +:+ text in
          if ((status =? 403) || (status =? 404)) && isModelAccessError env text then
            let '(r, asked) := tryModels env rest (Some lastErr') in (r, model :: asked)
          else (Throw lastErr', [model])
      | Answered (Throw m) => (Throw m, [model])
      | Answered (Ok b) =>
          match textOf b with
          | Some t => (Ok t, [model])
          | None => let '(r, asked) := tryModels env rest lastErr in (r, model :: asked)
          end
      end
  end.

(** [openaiResponsesText(body)]: the text, or the message thrown, and the
    models that were asked, in order. *)
Definition openaiResponsesText (env : Env) (preferred : option string)
    : result string * list string :=
  tryModels env (getTextModelCandidates env preferred) None.

End TextModels.

(** ** [normalizeImageRenderRequests] *)

Module RenderRequests.

(** An element of [packager.image_render_requests] as the model gave it;
    [None] is a missing key, and for [scene_id] a value that is not a
    finite number. *)
Record RawRequest : Type := mkRaw {
  rr_scene_id : option Z;
  rr_prompt : option string;
  rr_size : option string
}.

Record Request : Type := mkRequest {
  scene_id : Z;
  prompt : string;
  size : string;
  n : Z
}.

(** The keys of the packager output the function reads. *)
Record PackagerOutput : Type := mkPackagerOutput {
  po_image_render_requests : option (list RawRequest);
  po_image_prompts : option (list (option Z * option string));
  po_scenes : option (list RawScene);
  po_style_guide : option StyleGuide
}.

Definition platformTargetToRequestedSize (platformTarget : option string) : string :=
  match platformTarget with
  | Some "youtube_16_9" => "1920x1080"
  | Some "shorts_9_16" => "1080x1920"
  | _ => "1024x1024"
  end.

Definition has (validSet : gset Z) (sid : option Z) : bool :=
  match sid with
  | Some i => bool_decide (i ∈ validSet)
  | None => false
  end.

(** The requests of the model that are for a scene of the list and have a
    prompt, with their size defaulted. *)
Definition cleaned (p : PackagerOutput) (validSet : gset Z) (platformTarget : option string)
    : list Request :=
  omap (fun r =>
          match rr_scene_id r with
          | Some sid =>
              let pr := trim (str (rr_prompt r)) in
              if bool_decide (sid ∈ validSet) && truthy pr then
                Some (mkRequest sid pr
                        (or_else (trim (str (rr_size r)))
                                 (platformTargetToRequestedSize platformTarget)) 1)
              else None
          | None => None
          end)
       (default [] (po_image_render_requests p)).

(** [byId] after the loop over [packager.image_prompts]. *)
Definition fromPrompts (p : PackagerOutput) (validSet : gset Z) : gmap Z string :=
  fold_left
    (fun (m : gmap Z string) (r : option Z * option string) =>
       let pr := trim (str (snd r)) in
       match fst r with
       | Some sid => if bool_decide (sid ∈ validSet) && truthy pr then <[sid := pr]> m else m
       | None => m
       end)
    (default [] (po_image_prompts p)) ∅.

(** The prompt built from a scene and the style guide. *)
Definition scenePrompt (style : StyleGuide) (s : RawScene) : string :=
  join ", "
    (List.filter truthy
       [ or_else (trim (str (raw_visual_brief s)))
           (or_else (trim (str (raw_on_screen_text s))) "educational illustration");
         trim (str (raw_mood s));
         trim (str (visual_style style));
         trim (str (tone style));
         promptSuffix ]).

(** [byId] after the loop over [packager.scenes]. *)
Definition fromScenes (p : PackagerOutput) (validSet : gset Z) : gmap Z string :=
  let style := default (mkStyle None None None) (po_style_guide p) in
  fold_left
    (fun (m : gmap Z string) (s : RawScene) =>
       match raw_scene_id s with
       | Some sid =>
           if bool_decide (sid ∈ validSet) then
             let pr := scenePrompt style s in
             if truthy (trim pr) then <[sid := trim pr]> m else m
           else m
       | None => m
       end)
    (default [] (po_scenes p)) ∅.

Definition normalizeImageRenderRequests (p : PackagerOutput) (sceneIds : list Z)
    (platformTarget : option string) : list Request * bool :=
  let validSet : gset Z := list_to_set sceneIds in
  let reqs := cleaned p validSet platformTarget in
  match reqs with
  | [] =>
      (* fallback: from [image_prompts], else from the scenes *)
      let byId0 := fromPrompts p validSet in
      let byId := if bool_decide (byId0 = ∅) then fromScenes p validSet else byId0 in
      let size := platformTargetToRequestedSize platformTarget in
      (omap (fun sid => (fun pr => mkRequest sid pr size 1) <$> byId !! sid) sceneIds, true)
  | _ => (reqs, false)
  end.

End RenderRequests.

(** ** trendstory-status *)

Module Status.

Record TrendStoryStatusResponse : Type := mkResponse {
  res_trace_id : string;
  res_status : JobStatus;
  res_job : Job.row;
  res_scenes : list Scene.row;
  res_assets : list Asset.row
}.

(** The handler of a GET; [job_id] is the query parameter, [None] when it
    is absent.  The only error of [.single()] in this embedding is the
    one for no or several rows (PGRST116), answered 404.  [res_job] is
    the row that was read; the source copies its columns, [trace_id]
    apart, which the answer carries beside it. *)
Definition serve (job_id : option string) (w : World) : Response TrendStoryStatusResponse :=
  let jobId := str job_id in
  if negb (truthy jobId) then JsonError 400 "job_id is required" else
  match Db.select_job jobId w with
  | Throw m => JsonError 404 m
  | Ok j =>
      Json 200 (mkResponse (Job.trace_id j) (Job.status j) j (Db.scenes_of jobId w)
                  (List.filter (fun a => bool_decide (Asset.job_id a = jobId))
                               (assets w)))
  end.

End Status.
(** * Properties *)

(** ** Lists as tables *)

Section Tables.
Context {A : Type}.
Implicit Types (l : list A) (p sel : A → bool) (f : A → A).

Lemma single_inv (rows : list A) r : Db.single rows = Ok r → rows = [r].
Proof.
  destruct rows as [|x [|y rows]]; simpl; intros H; inversion H; reflexivity.
Qed.

Lemma filter_single_elem p l r x :
  List.filter p l = [r] → In x l → p x = true → x = r.
Proof.
  intros Hf Hin Hp.
  assert (Hx : In x (List.filter p l)) by (apply filter_In; auto).
  rewrite Hf in Hx. simpl in Hx. intuition congruence.
Qed.

Lemma update_where_ext sel sel' f l :
  (∀ x, In x l → sel x = sel' x) →
  Db.update_where sel f l = Db.update_where sel' f l.
Proof.
  intros H. unfold Db.update_where. apply map_ext_in.
  intros x Hx. rewrite (H x Hx). reflexivity.
Qed.

Lemma update_where_none sel f l :
  (∀ x, In x l → sel x = false) → Db.update_where sel f l = l.
Proof.
  intros H. unfold Db.update_where.
  rewrite <- (map_id l) at 2. apply map_ext_in.
  intros x Hx. rewrite (H x Hx). reflexivity.
Qed.

Lemma filter_update_where p sel f l :
  (∀ x, p (f x) = p x) →
  List.filter p (Db.update_where sel f l)
  = Db.update_where sel f (List.filter p l).
Proof.
  intros Hp. unfold Db.update_where.
  induction l as [|x l IH]; simpl; [reflexivity|].
  destruct (sel x) eqn:Hs.
  - rewrite Hp. destruct (p x); simpl; rewrite ?Hs, IH; reflexivity.
  - destruct (p x); simpl; rewrite ?Hs, IH; reflexivity.
Qed.

Lemma update_where_length sel f l :
  length (Db.update_where sel f l) = length l.
Proof. unfold Db.update_where. apply length_map. Qed.
End Tables.

(** The row of a job after an update that keeps identifiers. *)
Lemma select_job_update jobId f w job :
  (∀ j, Job.id (f j) = Job.id j) →
  Db.select_job jobId w = Ok job →
  Db.select_job jobId (Db.update_jobs jobId f w) = Ok (f job).
Proof.
  intros Hf Hsel. unfold Db.select_job in *. simpl.
  rewrite filter_update_where.
  - apply single_inv in Hsel. rewrite Hsel. simpl.
    assert (Hj : Db.job_is jobId job = true).
    { assert (Hin : In job (List.filter (Db.job_is jobId) (jobs w)))
        by (rewrite Hsel; left; reflexivity).
      apply filter_In in Hin. apply Hin. }
    rewrite Hj. reflexivity.
  - intros j. unfold Db.job_is. rewrite Hf. reflexivity.
Qed.

(** ** The claim of a scene (trendstory-generate-scene-image) *)

Module ClaimFacts.
Import GenerateSceneImage.

(** The three cases in which the source lets a claim through. *)
Definition claimable (r : Scene.row) (staleBefore : Z) : Prop :=
  Scene.image_gen_status r = None
  ∨ Scene.image_gen_status r ≠ Some "GENERATING"
  ∨ (Scene.image_gen_status r = Some "GENERATING"
     ∧ ∃ t, Scene.image_gen_started_at r = Some t ∧ t < staleBefore).

Lemma canClaim_spec r staleBefore :
  canClaim (Scene.image_gen_status r) (Scene.image_gen_started_at r) staleBefore = true
  ↔ claimable r staleBefore.
Proof.
  unfold canClaim, claimable.
  rewrite !orb_true_iff, negb_true_iff, bool_decide_eq_true, bool_decide_eq_false.
  split.
  - intros [[H|H]|H]; [left; exact H | right; left; exact H |].
    destruct (Scene.image_gen_started_at r) as [t|] eqn:Ht; [|discriminate].
    apply Z.ltb_lt in H.
    destruct (decide (Scene.image_gen_status r = Some "GENERATING")) as [Hg|Hg].
    + right; right. split; [exact Hg|]. exists t. split; [reflexivity | exact H].
    + right; left. exact Hg.
  - intros [H|[H|[_ (t & Ht & Hlt)]]]; [left; left; exact H | left; right; exact H |].
    right. rewrite Ht. apply Z.ltb_lt. exact Hlt.
Qed.

Lemma claimed_scene_is jobId sceneId requestId now x :
  Db.scene_is jobId sceneId (claimed requestId now x) = Db.scene_is jobId sceneId x.
Proof. reflexivity. Qed.

(** The update of the claim, keyed on the row identity read before,
    rewrites the rows of the scene when the check read their only row. *)
Lemma claim_filter_is_scene jobId sceneId w r x :
  Db.select_scene jobId sceneId w = Ok r →
  In x (scenes w) →
  claim_filter jobId sceneId (Scene.id r) x = Db.scene_is jobId sceneId x.
Proof.
  intros Hsel Hin. unfold claim_filter.
  destruct (Db.scene_is jobId sceneId x) eqn:Hx; [|reflexivity].
  apply single_inv in Hsel.
  rewrite (filter_single_elem _ _ _ _ Hsel Hin Hx).
  rewrite bool_decide_eq_true_2; reflexivity.
Qed.

Lemma select_scene_in jobId sceneId w r :
  Db.select_scene jobId sceneId w = Ok r →
  In r (scenes w) ∧ Db.scene_is jobId sceneId r = true.
Proof.
  intros Hsel. apply single_inv in Hsel.
  apply filter_In. rewrite Hsel. left. reflexivity.
Qed.

Lemma claim_writes jobId sceneId requestId now w r :
  Db.select_scene jobId sceneId w = Ok r →
  Db.update_scenes (claim_filter jobId sceneId (Scene.id r)) (claimed requestId now) w
  = Db.update_scenes (Db.scene_is jobId sceneId) (claimed requestId now) w.
Proof.
  intros Hsel. unfold Db.update_scenes. f_equal.
  apply update_where_ext. intros x Hx.
  eapply claim_filter_is_scene; eauto.
Qed.

Lemma claim_updates_a_row jobId sceneId w r :
  Db.select_scene jobId sceneId w = Ok r →
  negb (Nat.eqb (length (Db.updated_ids (claim_filter jobId sceneId (Scene.id r)) w)) 0)
  = true.
Proof.
  intros Hsel. destruct (select_scene_in _ _ _ _ Hsel) as [Hin Hr].
  unfold Db.updated_ids. rewrite length_map.
  assert (Hf : In r (List.filter (claim_filter jobId sceneId (Scene.id r)) (scenes w))).
  { apply filter_In. split; [exact Hin|].
    unfold claim_filter. rewrite Hr, bool_decide_eq_true_2; reflexivity. }
  destruct (List.filter _ _); [destruct Hf | reflexivity].
Qed.

(** What an uninterrupted call computes. *)
Lemma claim_sequential jobId sceneId requestId staleBefore now w r :
  Db.select_scene jobId sceneId w = Ok r →
  claimSceneImageGeneration jobId sceneId requestId staleBefore now w
  = if canClaim (Scene.image_gen_status r) (Scene.image_gen_started_at r) staleBefore
    then (Ok true, Db.update_scenes (Db.scene_is jobId sceneId) (claimed requestId now) w)
    else (Ok false, w).
Proof.
  intros Hsel. unfold claimSceneImageGeneration. simpl. rewrite Hsel.
  destruct (canClaim _ _ _); simpl; [|reflexivity].
  rewrite (claim_updates_a_row _ _ _ _ Hsel), (claim_writes _ _ _ _ _ _ Hsel).
  reflexivity.
Qed.

Lemma select_after_update jobId sceneId f w r :
  (∀ x, Db.scene_is jobId sceneId (f x) = Db.scene_is jobId sceneId x) →
  Db.select_scene jobId sceneId w = Ok r →
  Db.select_scene jobId sceneId (Db.update_scenes (Db.scene_is jobId sceneId) f w)
  = Ok (f r).
Proof.
  intros Hf Hsel. destruct (select_scene_in _ _ _ _ Hsel) as [_ Hr].
  apply single_inv in Hsel.
  unfold Db.select_scene, Db.update_scenes. simpl.
  rewrite filter_update_where by exact Hf.
  rewrite Hsel. simpl. rewrite Hr. reflexivity.
Qed.
End ClaimFacts.

(** A store used by the examples: one finished job with two scenes, the
    second of which has an image. *)
Module Sample.
Definition scene (rowId : nat) (sceneId : Z) (url status requestId : option string)
    (startedAt : option Z) : Scene.row :=
  Scene.mk rowId "job-1" sceneId (Some "narration") None (Some "a rocket") None None
           None None url status requestId startedAt None.

Definition job (st : JobStatus) : Job.row :=
  Job.mk "job-1" st (mkStartRequest "space travel" "en" "teens" None None)
         None None None None "trace-1".

Definition finished : Job.row := job SUCCEEDED.

Definition world : World :=
  mkWorld [finished]
          [scene 0 1 None None None None; scene 1 2 (Some "https://cdn/2.png") None None None]
          [] 2 [] [] [] [] [] [].
End Sample.

Module ClaimTheorems.
Import GenerateSceneImage ClaimFacts.

(** C2.  A single, uninterrupted call of [claimSceneImageGeneration] on an
    existing scene row returns true exactly when the prior claim status is
    null, or is not "GENERATING", or is "GENERATING" with a time stamp
    older than [staleBefore].  When it returns true it has written status
    "GENERATING", the request id and the current time stamp to the rows of
    that scene and nothing else; otherwise it returns false and leaves the
    world as it was. *)
Theorem claim_iff_unclaimed_or_stale jobId sceneId requestId staleBefore now w r :
  Db.select_scene jobId sceneId w = Ok r →
  let out := claimSceneImageGeneration jobId sceneId requestId staleBefore now w in
  (fst out = Ok true ↔ claimable r staleBefore)
  ∧ (claimable r staleBefore →
       snd out = Db.update_scenes (Db.scene_is jobId sceneId) (claimed requestId now) w
       ∧ ∃ r', Db.select_scene jobId sceneId (snd out) = Ok r'
               ∧ Scene.image_gen_status r' = Some "GENERATING"
               ∧ Scene.image_gen_request_id r' = Some requestId
               ∧ Scene.image_gen_started_at r' = Some now
               ∧ Scene.image_url r' = Scene.image_url r)
  ∧ (¬ claimable r staleBefore → fst out = Ok false ∧ snd out = w).
Proof.
  intros Hsel out. subst out.
  rewrite (claim_sequential _ _ _ _ _ _ _ Hsel).
  pose proof (canClaim_spec r staleBefore) as Hspec.
  destruct (canClaim _ _ _) eqn:Hc; simpl.
  - assert (Hcl : claimable r staleBefore) by (apply Hspec; reflexivity).
    split; [split; auto|]. split.
    + intros _. split; [reflexivity|].
      exists (claimed requestId now r).
      split; [apply select_after_update; [reflexivity | exact Hsel]|].
      repeat split; reflexivity.
    + intros Hn. contradiction.
  - assert (Hcl : ¬ claimable r staleBefore).
    { intros H. apply Hspec in H. discriminate. }
    split; [split; [discriminate | intros H; contradiction]|].
    split; [intros H; contradiction | intros _; split; reflexivity].
Qed.

Lemma claim_iff_unclaimed_or_stale_witness :
  Db.select_scene "job-1" 1 Sample.world = Ok (Sample.scene 0 1 None None None None)
  ∧ fst (claimSceneImageGeneration "job-1" 1 "req-A" 1000 301000 Sample.world) = Ok true.
Proof.
  split; [reflexivity|].
  apply (claim_iff_unclaimed_or_stale "job-1" 1 "req-A" 1000 301000 Sample.world
           (Sample.scene 0 1 None None None None)); [reflexivity|].
  left. reflexivity.
Defined.

(** Two callers that both read the row before either writes both win:
    the update is keyed on the row identity, which a claim does not
    change. *)
Lemma interleaved_claims_both_win jobId sceneId a b w r :
  Db.select_scene jobId sceneId w = Ok r →
  canClaim (Scene.image_gen_status r) (Scene.image_gen_started_at r) (arg_staleBefore a) = true →
  canClaim (Scene.image_gen_status r) (Scene.image_gen_started_at r) (arg_staleBefore b) = true →
  ∃ w', interleave jobId sceneId a b [A; B; A; B] AtCheck AtCheck w
        = (Returned (Ok true), Returned (Ok true), w')
        ∧ Db.select_scene jobId sceneId w'
          = Ok (claimed (arg_requestId b) (arg_now b) (claimed (arg_requestId a) (arg_now a) r)).
Proof.
  intros Hsel Ha Hb.
  assert (Hsel1 : Db.select_scene jobId sceneId
                    (Db.update_scenes (Db.scene_is jobId sceneId)
                       (claimed (arg_requestId a) (arg_now a)) w)
                  = Ok (claimed (arg_requestId a) (arg_now a) r))
    by (apply select_after_update; [reflexivity | exact Hsel]).
  eexists. simpl. unfold step_of. simpl. rewrite Hsel, Ha. simpl. rewrite Hsel, Hb. simpl.
  rewrite (claim_updates_a_row _ _ _ _ Hsel), (claim_writes _ _ _ _ _ _ Hsel).
  change (Scene.id r) with (Scene.id (claimed (arg_requestId a) (arg_now a) r)).
  rewrite (claim_updates_a_row _ _ _ _ Hsel1), (claim_writes _ _ _ _ _ _ Hsel1).
  split; [reflexivity|].
  apply select_after_update; [reflexivity | exact Hsel1].
Qed.

(** C1 (the code at the failing schedule).  Two invocations claim the
    unclaimed scene 1 of job-1 with the same staleness window; the first
    reads, the second reads, the first writes, the second writes.  Both
    calls of [claimSceneImageGeneration] return true, and the row ends up
    holding the request id of the second. *)
Theorem concurrent_claims_both_return_true :
  let a := mkArgs "req-A" 1000 301000 in
  let b := mkArgs "req-B" 1000 301000 in
  let '(pcA, pcB, w') :=
    interleave "job-1" 1 a b [A; B; A; B] AtCheck AtCheck Sample.world in
  pcA = Returned (Ok true) ∧ pcB = Returned (Ok true)
  ∧ ∃ r', Db.select_scene "job-1" 1 w' = Ok r'
          ∧ Scene.image_gen_request_id r' = Some "req-B".
Proof. vm_compute. repeat split. eexists. split; reflexivity. Qed.

(** Run one after the other, the second caller finds the claim of the
    first and gives up, as long as that claim is inside its window. *)
Lemma sequential_claims_one_wins jobId sceneId a b w r :
  Db.select_scene jobId sceneId w = Ok r →
  canClaim (Scene.image_gen_status r) (Scene.image_gen_started_at r) (arg_staleBefore a) = true →
  arg_staleBefore b <= arg_now a →
  ∃ w', interleave jobId sceneId a b [A; A; B; B] AtCheck AtCheck w
        = (Returned (Ok true), Returned (Ok false), w').
Proof.
  intros Hsel Ha Hwin.
  assert (Hsel1 : Db.select_scene jobId sceneId
                    (Db.update_scenes (Db.scene_is jobId sceneId)
                       (claimed (arg_requestId a) (arg_now a)) w)
                  = Ok (claimed (arg_requestId a) (arg_now a) r))
    by (apply select_after_update; [reflexivity | exact Hsel]).
  eexists. simpl. unfold step_of. simpl. rewrite Hsel, Ha. simpl.
  rewrite (claim_updates_a_row _ _ _ _ Hsel), (claim_writes _ _ _ _ _ _ Hsel).
  rewrite Hsel1. simpl.
  assert (Hc : canClaim (Some "GENERATING") (Some (arg_now a)) (arg_staleBefore b) = false).
  { unfold canClaim. simpl. apply Z.ltb_ge. exact Hwin. }
  rewrite Hc. reflexivity.
Qed.

(** C3.  A completion write ([SUCCEEDED] after the generation, [FAILED]
    after an error) leaves every scene row whose stored
    [image_gen_request_id] is not the id of the completing request exactly
    as it was: claim status, image columns and error included. *)
Theorem stale_completion_is_noop jobId sceneId requestId path url prompt msg
    (w : World) (i : nat) (r : Scene.row) :
  scenes w !! i = Some r →
  Scene.image_gen_request_id r ≠ Some requestId →
  scenes (write_succeeded jobId sceneId requestId path url prompt w) !! i = Some r
  ∧ scenes (write_failed jobId sceneId requestId msg w) !! i = Some r.
Proof.
  intros Hi Hne.
  assert (Hsel : completion_filter jobId sceneId requestId r = false).
  { unfold completion_filter. rewrite (bool_decide_eq_false_2 _ Hne).
    apply andb_false_r. }
  unfold write_succeeded, write_failed, Db.update_scenes, Db.update_where. simpl.
  rewrite !list_lookup_fmap, Hi. simpl. rewrite Hsel. split; reflexivity.
Qed.

Lemma stale_completion_is_noop_witness :
  let w := snd (claimSceneImageGeneration "job-1" 1 "req-B" 1000 301000 Sample.world) in
  scenes (write_succeeded "job-1" 1 "req-A" "p" "u" "q" w) !! 0%nat = scenes w !! 0%nat
  ∧ scenes (write_failed "job-1" 1 "req-A" "late" w) !! 0%nat = scenes w !! 0%nat.
Proof.
  intros w.
  apply (stale_completion_is_noop "job-1" 1 "req-A" "p" "u" "q" "late" w 0
           (claimed "req-B" 301000 (Sample.scene 0 1 None None None None))).
  - reflexivity.
  - discriminate.
Defined.

(** When no row of the scene carries the request id, the whole world is
    untouched by either completion write. *)
Lemma stale_completion_world jobId sceneId requestId (w : World) :
  (∀ r, In r (scenes w) → Db.scene_is jobId sceneId r = true →
        Scene.image_gen_request_id r ≠ Some requestId) →
  (∀ path url prompt, write_succeeded jobId sceneId requestId path url prompt w = w)
  ∧ (∀ msg, write_failed jobId sceneId requestId msg w = w).
Proof.
  intros H.
  assert (Hnone : ∀ x, In x (scenes w) → completion_filter jobId sceneId requestId x = false).
  { intros x Hx. unfold completion_filter.
    destruct (Db.scene_is jobId sceneId x) eqn:Hs; [|reflexivity].
    rewrite (bool_decide_eq_false_2 _ (H x Hx Hs)). reflexivity. }
  split; intros; unfold write_succeeded, write_failed, Db.update_scenes;
    rewrite (update_where_none _ _ _ Hnone); destruct w; reflexivity.
Qed.

(** C8.  [GenerateSceneImage] with [force = false] on a scene that has a
    stored image URL answers [ALREADY_EXISTS] with that URL and leaves the
    world as it was: no claim is taken, no request reaches the image
    provider, no row changes; so does the handler, with status 200. *)
Theorem already_exists_without_generation env jobId sceneId w job scene :
  Db.select_job jobId w = Ok job →
  Db.select_scene jobId sceneId w = Ok scene →
  truthy_opt (Scene.image_url scene) = true →
  runGenerate env jobId sceneId false w
  = (Ok (mkResponse jobId sceneId true ALREADY_EXISTS (Scene.image_url scene)
                    "image already exists"), w)
  ∧ (truthy jobId = true → trim jobId = jobId → 0 < sceneId →
     serve env (Some (mkRequest (Some jobId) (Some sceneId) false)) w
     = (Json 200 (mkResponse jobId sceneId true ALREADY_EXISTS (Scene.image_url scene)
                             "image already exists"), w)).
Proof.
  intros Hjob Hscene Hurl.
  assert (Hrun : runGenerate env jobId sceneId false w
                 = (Ok (mkResponse jobId sceneId true ALREADY_EXISTS (Scene.image_url scene)
                                   "image already exists"), w)).
  { unfold runGenerate. rewrite Hjob, Hscene. simpl. rewrite Hurl. reflexivity. }
  split; [exact Hrun|].
  intros Hid Htrim Hpos. unfold serve. simpl. rewrite Htrim, Hid. simpl.
  replace (sceneId <=? 0) with false by (symmetry; apply Z.leb_gt; exact Hpos).
  rewrite Hrun. reflexivity.
Qed.

Definition sample_env : Env :=
  mkEnv "req-A" 600000 600000 None (fun _ => Ok "png") (fun _ => None)
        (fun p => "https://cdn/" +:+ p) (fun j s t => "jobs/" +:+ j +:+ "/scene.png").

Lemma already_exists_without_generation_witness :
  runGenerate sample_env "job-1" 2 false Sample.world
  = (Ok (mkResponse "job-1" 2 true ALREADY_EXISTS (Some "https://cdn/2.png")
                    "image already exists"), Sample.world).
Proof.
  apply (already_exists_without_generation sample_env "job-1" 2 Sample.world
           Sample.finished (Sample.scene 1 2 (Some "https://cdn/2.png") None None None));
    reflexivity.
Defined.

(** The same request on the scene without an image does generate. *)
Example generation_when_missing :
  let '(res, w') := runGenerate sample_env "job-1" 1 false Sample.world in
  (status <$> (match res with Ok o => Some o | Throw _ => None end)) = Some SUCCEEDED
  ∧ length (image_requests w') = 1%nat.
Proof. vm_compute. split; reflexivity. Qed.

End ClaimTheorems.

(** ** Strings: [trim] and the prompt of a scene *)

Section Strings.

Definition nows_head (l : list ascii) : Prop :=
  match l with
  | [] => True
  | a :: _ => is_ws a = false
  end.

Lemma drop_ws_head l : nows_head (drop_ws l).
Proof.
  induction l as [|a l IH]; simpl; [exact I|].
  destruct (is_ws a) eqn:Ha; [exact IH | simpl; exact Ha].
Qed.

Lemma drop_ws_fix l : nows_head l → drop_ws l = l.
Proof. destruct l as [|a l]; simpl; [reflexivity|]. intros ->. reflexivity. Qed.

Lemma drop_ws_suffix l : ∃ pre, l = (pre ++ drop_ws l)%list.
Proof.
  induction l as [|a l [pre IH]]; simpl; [exists []; reflexivity|].
  destruct (is_ws a).
  - exists (a :: pre). simpl. f_equal. exact IH.
  - exists []. reflexivity.
Qed.

Lemma drop_ws_keeps c l : In c l → is_ws c = false → In c (drop_ws l).
Proof.
  induction l as [|a l IH]; simpl; [tauto|].
  intros [->|Hin] Hc.
  - rewrite Hc. left. reflexivity.
  - destruct (is_ws a); [apply IH; assumption | right; exact Hin].
Qed.

Definition trimL (l : list ascii) : list ascii :=
  rev (drop_ws (rev (drop_ws l))).

Lemma trimL_idem l : trimL (trimL l) = trimL l.
Proof.
  unfold trimL.
  set (m := drop_ws l). set (n := drop_ws (rev m)).
  assert (Hm : nows_head m) by apply drop_ws_head.
  assert (Hn : nows_head n) by apply drop_ws_head.
  assert (Hrn : nows_head (rev n)).
  { destruct (drop_ws_suffix (rev m)) as [pre Hpre]. fold n in Hpre.
    apply (f_equal (@rev ascii)) in Hpre.
    rewrite rev_involutive, rev_app_distr in Hpre.
    destruct (rev n) as [|a t]; [exact I|].
    rewrite Hpre in Hm. simpl in Hm. exact Hm. }
  rewrite (drop_ws_fix _ Hrn), rev_involutive, (drop_ws_fix _ Hn). reflexivity.
Qed.

Lemma trim_idem s : trim (trim s) = trim s.
Proof.
  unfold trim. rewrite list_ascii_of_string_of_list_ascii.
  fold (trimL (list_ascii_of_string s)).
  fold (trimL (trimL (list_ascii_of_string s))).
  rewrite trimL_idem. reflexivity.
Qed.

Lemma truthy_of_list l : l ≠ [] → truthy (string_of_list_ascii l) = true.
Proof. destruct l; [congruence | reflexivity]. Qed.

(** A string with a character that is not white space is not trimmed to
    nothing. *)
Lemma trim_truthy c s :
  In c (list_ascii_of_string s) → is_ws c = false → truthy (trim s) = true.
Proof.
  intros Hin Hc. unfold trim. apply truthy_of_list.
  assert (H : In c (rev (drop_ws (rev (drop_ws (list_ascii_of_string s)))))).
  { apply in_rev. rewrite rev_involutive.
    apply drop_ws_keeps; [|exact Hc].
    apply -> in_rev. apply drop_ws_keeps; assumption. }
  intros E. rewrite E in H. exact H.
Qed.

Lemma chars_append a b :
  list_ascii_of_string (a +:+ b)
  = (list_ascii_of_string a ++ list_ascii_of_string b)%list.
Proof. induction a as [|c a IH]; simpl; [reflexivity | rewrite IH; reflexivity]. Qed.

Lemma join_has_char c sep x l :
  In x l → In c (list_ascii_of_string x) → In c (list_ascii_of_string (join sep l)).
Proof.
  induction l as [|y l IH]; simpl; [tauto|].
  intros Hx Hc. destruct l as [|z l].
  - destruct Hx as [->|[]]. exact Hc.
  - rewrite !chars_append. destruct Hx as [->|Hx].
    + apply in_or_app. left. exact Hc.
    + apply in_or_app. right. apply in_or_app. right. apply IH; assumption.
Qed.

Lemma or_else_truthy_r a b : truthy b = true → truthy (or_else a b) = true.
Proof. unfold or_else. destruct (truthy a) eqn:Ha; auto. Qed.

(** The synthesized prompt always ends with the fixed suffix, so it is
    never empty. *)
Lemma synthesizedPrompt_truthy s topic style :
  truthy (synthesizedPrompt s topic style) = true.
Proof.
  unfold synthesizedPrompt.
  apply (trim_truthy "n"%char); [|reflexivity].
  apply (join_has_char _ _ promptSuffix).
  - apply filter_In. split; [|reflexivity].
    right; right; right; right; left. reflexivity.
  - simpl. left. reflexivity.
Qed.


End Strings.

(** ** The selection of the work list (trendstory-retry-images) *)

Module RetryFacts.
Import RetryImages.







(** The handler changes neither a scene row nor what was asked of the
    provider. *)
Lemma pushRuntimeLog_world level msg data st :
  scenes (snd (pushRuntimeLog level msg data st)) = scenes (snd st)
  ∧ image_requests (snd (pushRuntimeLog level msg data st)) = image_requests (snd st)
  ∧ jobs (snd (pushRuntimeLog level msg data st)) = jobs (snd st).
Proof. destruct st as [p w]. repeat split; reflexivity. Qed.






End RetryFacts.

(** ** Lists: subsequences, sorting by a key, rows that evolve *)

Section ListFacts.
Context {A : Type}.

Lemma filter_sublist (p : A → bool) (l : list A) : List.filter p l `sublist_of` l.
Proof.
  induction l as [|x l IH]; simpl; [constructor|].
  destruct (p x); [apply sublist_skip | apply sublist_cons]; exact IH.
Qed.





(** Two lists related element by element stay related when sorted by a
    key the relation preserves, or filtered by a test it preserves. *)
Section Related.
Variables (R : A → A → Prop) (key : A → Z).
Hypothesis R_key : ∀ x y, R x y → key x = key y.





End Related.


End ListFacts.

(** A scene table evolves under a batch for [jobId] on the scene ids [S]:
    a row is as it was, or it is a row of one of these scenes and has kept
    its job and its scene id. *)
Definition touched (jobId : string) (S : list Z) (r r' : Scene.row) : Prop :=
  r' = r
  ∨ (Scene.job_id r = jobId ∧ Scene.scene_id r ∈ S
     ∧ Scene.job_id r' = Scene.job_id r ∧ Scene.scene_id r' = Scene.scene_id r).

Definition evolves (jobId : string) (S : list Z) (l l' : list Scene.row) : Prop :=
  Forall2 (touched jobId S) l l'.



Lemma evolves_refl jobId S l : evolves jobId S l l.
Proof. induction l; constructor; [left; reflexivity | assumption]. Qed.

Lemma evolves_mono jobId S S' l l' :
  (∀ x, x ∈ S → x ∈ S') → evolves jobId S l l' → evolves jobId S' l l'.
Proof.
  intros Hincl H. induction H as [|r r' l l' Hr H IH]; constructor; [|exact IH].
  destruct Hr as [->|(Hj & Hs & Hj' & Hs')]; [left; reflexivity|].
  right. auto.
Qed.

Lemma evolves_trans jobId S1 S2 l1 l2 l3 :
  evolves jobId S1 l1 l2 → evolves jobId S2 l2 l3 → evolves jobId (S1 ++ S2) l1 l3.
Proof.
  intros H12. revert l3. induction H12 as [|a b l1 l2 Hab H12 IH]; intros l3 H23.
  - inversion H23. constructor.
  - inversion H23 as [|b' c l2' l3' Hbc H23']; subst. constructor; [|apply IH; exact H23'].
    destruct Hab as [->|(Hj & Hs & Hj' & Hs')].
    + destruct Hbc as [->|(Hj & Hs & Hj' & Hs')]; [left; reflexivity|].
      right. repeat split; auto. apply elem_of_app. right. exact Hs.
    + right. destruct Hbc as [->|(Hj2 & Hs2 & Hj2' & Hs2')].
      * repeat split; auto. apply elem_of_app. left. exact Hs.
      * repeat split; try congruence. apply elem_of_app. left. exact Hs.
Qed.

Lemma evolves_update jobId sceneId f l :
  (∀ r, Scene.job_id (f r) = Scene.job_id r ∧ Scene.scene_id (f r) = Scene.scene_id r) →
  evolves jobId [sceneId] l (Db.update_where (Db.scene_is jobId sceneId) f l).
Proof.
  intros Hf. induction l as [|r l IH]; simpl; constructor; [|exact IH].
  unfold Db.scene_is.
  destruct (bool_decide (Scene.job_id r = jobId)) eqn:Hj; simpl; [|left; reflexivity].
  destruct (bool_decide (Scene.scene_id r = sceneId)) eqn:Hs; simpl; [|left; reflexivity].
  apply bool_decide_eq_true in Hj, Hs. right.
  destruct (Hf r) as [H1 H2]. repeat split; auto.
  rewrite Hs. left.
Qed.


(** ** The background task and the chain of invocations *)

Module ChainFacts.
Import RetryImages RetryFacts.

Definition ids (ts : list Task) : list Z := List.map t_scene_id ts.

Lemma scenes_pushRuntimeLog level msg data st :
  scenes (snd (pushRuntimeLog level msg data st)) = scenes (snd st).
Proof. reflexivity. Qed.

Lemma scenes_insert_asset jobId t path url sid rid w :
  scenes (snd (Db.insert_asset jobId t path url sid rid w)) = scenes w.
Proof. unfold Db.insert_asset. destruct (Db.job_exists jobId w); reflexivity. Qed.

Lemma scenes_update_jobs jobId f w : scenes (Db.update_jobs jobId f w) = scenes w.
Proof. reflexivity. Qed.

Section Run.
Variables (env : Env) (inv : nat) (jobId topic : string) (depth : Z).

Lemma regenerate_scenes idx sceneId prompt st :
  evolves jobId [sceneId] (scenes (snd st))
          (scenes (snd (snd (regenerate env inv jobId topic idx sceneId prompt st)))).
Proof.
  unfold regenerate.
  destruct (openaiImagePng env inv idx prompt) as [png|m]; [|apply evolves_refl].
  destruct (upload_error env inv idx _) as [m|]; [apply evolves_refl|].
  match goal with |- context [Db.insert_asset ?j ?t ?p ?u ?s ?q ?w] =>
    pose proof (scenes_insert_asset j t p u s q w) as Hins;
    destruct (Db.insert_asset j t p u s q w) as [insErr w5]
  end.
  simpl in Hins. destruct insErr; simpl; rewrite Hins; simpl;
    apply evolves_update; intros r; split; reflexivity.
Qed.

Lemma process_item_spec idx t r :
  let r' := process_item env inv jobId topic idx t r in
  run_processed r' = (run_processed r ++ [t])%list
  ∧ run_remaining r' = run_remaining r
  ∧ evolves jobId [t_scene_id t] (scenes (snd (run_log r))) (scenes (snd (run_log r'))).
Proof.
  unfold process_item.
  destruct (truthy (trim (t_prompt t))); simpl.
  - pose proof (regenerate_scenes idx (t_scene_id t) (trim (t_prompt t)) (run_log r)) as H.
    destruct (regenerate env inv jobId topic idx (t_scene_id t) (trim (t_prompt t))
                         (run_log r)) as [err st].
    simpl in *. repeat split; try reflexivity.
    destruct err; simpl; exact H.
  - repeat split; try reflexivity. apply evolves_refl.
Qed.

(** The loop processes a prefix of what it was given and hands over the
    scene ids of the rest. *)
Lemma loop_spec startedAt todo : ∀ idx r,
  run_remaining r = [] →
  let r' := loop env inv jobId topic depth startedAt idx todo r in
  ∃ k, run_processed r' = (run_processed r ++ take k todo)%list
       ∧ run_remaining r' = ids (drop k todo)
       ∧ evolves jobId (ids (take k todo))
                 (scenes (snd (run_log r))) (scenes (snd (run_log r'))).
Proof.
  induction todo as [|t rest IH]; intros idx r Hrem; simpl.
  - exists 0%nat. simpl. rewrite app_nil_r. repeat split; auto. apply evolves_refl.
  - destruct (dateNow env inv (S idx) - startedAt >? maxRuntimeMs env).
    + exists 0%nat. simpl. rewrite app_nil_r. repeat split; auto. apply evolves_refl.
    + destruct (process_item_spec idx t r) as (Hp & Hr & He).
      destruct (IH (S idx) (process_item env inv jobId topic idx t r)) as (k & Hp' & Hr' & He').
      { rewrite Hr. exact Hrem. }
      exists (S k). simpl. rewrite Hp', Hp, <- app_assoc. simpl.
      repeat split; auto.
      apply (evolves_trans jobId [t_scene_id t] (ids (take k rest)) _ _ _ He He').
Qed.

Lemma runRetryInBackground_spec pk tasks w :
  let r := runRetryInBackground env inv jobId topic depth pk tasks w in
  ∃ k, run_processed r = take k tasks
       ∧ run_remaining r = ids (drop k tasks)
       ∧ evolves jobId (ids (take k tasks)) (scenes w) (scenes (snd (run_log r))).
Proof.
  unfold runRetryInBackground. simpl.
  match goal with |- context [loop _ _ _ _ _ ?s ?i tasks ?r0] =>
    destruct (loop_spec s tasks i r0 eq_refl) as (k & Hp & Hr & He)
  end.
  exists k. simpl in *. repeat split; assumption.
Qed.

End Run.

















(** *** The remaining count is logged *)







End ChainFacts.

Module RetryTheorems.
Import RetryImages RetryFacts ChainFacts.






End RetryTheorems.

(** ** trendstory-delete-job *)

Module DeleteTheorems.
Import DeleteJob.

Lemma filter_none {A} (p : A → bool) (l : list A) :
  existsb p l = false → List.filter (fun x => negb (p x)) l = l.
Proof.
  induction l as [|x l IH]; simpl; [reflexivity|].
  intros H. apply orb_false_iff in H as [Hx Hl].
  rewrite Hx. simpl. f_equal. exact (IH Hl).
Qed.

Lemma filter_not_exists {A} (p : A → bool) (l : list A) :
  existsb p (List.filter (fun x => negb (p x)) l) = false.
Proof.
  induction l as [|x l IH]; simpl; [reflexivity|].
  destruct (p x) eqn:Hx; simpl; [exact IH | rewrite Hx, IH; reflexivity].
Qed.

(** The storage clean-up touches the bucket only, whatever the storage
    service does. *)
Lemma deleteStoragePrefix_rows env prefix w :
  let w' := snd (deleteStoragePrefix env prefix w) in
  jobs w' = jobs w ∧ scenes w' = scenes w ∧ assets w' = assets w.
Proof.
  unfold deleteStoragePrefix.
  destruct (storage_list env prefix) as [listing|m]; simpl; [|auto].
  destruct (unique _ _); simpl; [auto|].
  destruct (remove_throws env); simpl; auto.
Qed.

(** C10.  A delete request whose job id is not empty is answered 202 with
    [accepted = true] without the store being read, so also when no such
    job exists.  The background task then removes the job row and, with
    it, the scene and asset rows of the job, whether the storage clean-up
    succeeded, answered with an error or threw. *)
Theorem delete_accepted_then_rows_removed env p w :
  truthy (trim (str (job_id p))) = true →
  let jobId := trim (str (job_id p)) in
  fst (delete env (Some p) w) = Json 202 (mkResponse jobId true)
  ∧ Db.job_exists jobId (snd (delete env (Some p) w)) = false
  ∧ jobs (snd (delete env (Some p) w))
    = List.filter (fun j => negb (Db.job_is jobId j)) (jobs w)
  ∧ (Db.job_exists jobId w = true →
     scenes (snd (delete env (Some p) w))
     = List.filter (fun s => negb (bool_decide (Scene.job_id s = jobId))) (scenes w)
     ∧ assets (snd (delete env (Some p) w))
       = List.filter (fun a => negb (bool_decide (Asset.job_id a = jobId))) (assets w))
  ∧ (Db.job_exists jobId w = false →
     scenes (snd (delete env (Some p) w)) = scenes w
     ∧ assets (snd (delete env (Some p) w)) = assets w).
Proof.
  intros Hid jobId. subst jobId. set (jobId := trim (str (job_id p))) in *.
  unfold delete, serve. fold jobId. rewrite Hid. simpl.
  unfold runDeleteJob.
  destruct (deleteStoragePrefix_rows env ("jobs/" +:+ jobId) w) as (Hj & Hs & Ha).
  set (w1 := snd (deleteStoragePrefix env ("jobs/" +:+ jobId) w)) in *.
  assert (He : Db.job_exists jobId w1 = Db.job_exists jobId w)
    by (unfold Db.job_exists; rewrite Hj; reflexivity).
  unfold Db.delete_job. rewrite He.
  destruct (Db.job_exists jobId w) eqn:Hex; simpl.
  - split; [reflexivity|]. split; [|split; [|split]].
    + unfold Db.job_exists. simpl. apply filter_not_exists.
    + rewrite Hj. reflexivity.
    + intros _. rewrite Hs, Ha. split; reflexivity.
    + discriminate.
  - split; [reflexivity|]. split; [|split; [|split]].
    + rewrite He. reflexivity.
    + rewrite Hj. symmetry. apply filter_none. exact Hex.
    + discriminate.
    + intros _. split; assumption.
Qed.

(** The storage service throws; the job and its scenes are removed all
    the same. *)
Definition broken_storage : Env := mkEnv (fun _ => Throw "network error") None.

Lemma delete_accepted_then_rows_removed_witness :
  fst (delete broken_storage (Some (mkRequest (Some " job-1 "))) Sample.world)
  = Json 202 (mkResponse "job-1" true)
  ∧ jobs (snd (delete broken_storage (Some (mkRequest (Some " job-1 "))) Sample.world)) = []
  ∧ scenes (snd (delete broken_storage (Some (mkRequest (Some " job-1 "))) Sample.world)) = [].
Proof.
  destruct (delete_accepted_then_rows_removed broken_storage (mkRequest (Some " job-1 "))
              Sample.world eq_refl) as (Hres & _ & Hjobs & Hrows & _).
  destruct (Hrows eq_refl) as [Hs _].
  split; [exact Hres|]. split; [rewrite Hjobs | rewrite Hs]; reflexivity.
Defined.

(** An unknown job id is accepted as well, and nothing is removed. *)
Example delete_unknown_job :
  delete broken_storage (Some (mkRequest (Some "no-such-job"))) Sample.world
  = (Json 202 (mkResponse "no-such-job" true), Sample.world).
Proof. reflexivity. Qed.

End DeleteTheorems.

(** ** The pipeline (trendstory-start) *)

Module PipelineFacts.
Import Start.

(** *** Invariants of the world along a computation *)

(** [winv I m]: whatever [m] does, returning or throwing, it takes a world
    in [I] to a world in [I]. *)
Definition winv {A} (I : World → Prop) (m : Pipeline A) : Prop :=
  ∀ s, I (snd s) → I (snd (snd (m s))).

(** [post I m Q]: from a world in [I], [m] ends in a world and with an
    outcome related by [Q]. *)
Definition post {A} (I : World → Prop) (m : Pipeline A) (Q : result A → World → Prop)
    : Prop :=
  ∀ s, I (snd s) → Q (fst (m s)) (snd (snd (m s))).

Section Rules.
Context {A B : Type} (I : World → Prop).

Lemma winv_ret (a : A) : winv I (ret a).
Proof. intros s H. exact H. Qed.

Lemma winv_throw msg : winv I (@throw _ A msg).
Proof. intros s H. exact H. Qed.

Lemma winv_answer (r : result A) : winv I (answer r).
Proof. intros s H. exact H. Qed.

Lemma winv_bind (m : Pipeline A) (k : A → Pipeline B) :
  winv I m → (∀ a, winv I (k a)) → winv I (bind m k).
Proof.
  intros Hm Hk s H. unfold bind. specialize (Hm s H).
  destruct (m s) as [[a|e] s']; simpl in *; [apply Hk; exact Hm | exact Hm].
Qed.

Lemma winv_try_catch (m : Pipeline A) (h : string → Pipeline A) :
  winv I m → (∀ e, winv I (h e)) → winv I (try_catch m h).
Proof.
  intros Hm Hh s H. unfold try_catch. specialize (Hm s H).
  destruct (m s) as [[a|e] s']; simpl in *; [exact Hm | apply Hh; exact Hm].
Qed.

Lemma winv_stmt f : (∀ w, I w → I (f w)) → winv I (stmt f).
Proof. intros Hf s H. apply Hf, H. Qed.

Lemma winv_checked f : (∀ w, I w → I (snd (f w))) → winv I (checked f).
Proof.
  intros Hf s H. unfold checked. specialize (Hf _ H).
  destruct (f (snd s)) as [[m|] w']; exact Hf.
Qed.

Lemma winv_get_packager : winv I get_packager.
Proof. intros s H. exact H. Qed.

Lemma winv_modify_packager f : winv I (modify_packager f).
Proof. intros s H. exact H. Qed.

(** A computation that keeps [I], followed by one that ends in [Q] from
    [I], ends in [Q], provided [Q] holds of a throw in [I]. *)
Lemma post_bind (m : Pipeline A) (k : A → Pipeline B) Q :
  winv I m → (∀ e w, I w → Q (Throw e) w) → (∀ a, post I (k a) Q) →
  post I (bind m k) Q.
Proof.
  intros Hm Ht Hk s H. unfold bind. specialize (Hm s H).
  destruct (m s) as [[a|e] s']; simpl in *; [apply Hk; exact Hm | apply Ht; exact Hm].
Qed.
End Rules.

(** The statements of the pipeline that write neither a status nor a
    scene keep [I] when [I] is closed under them. *)
Record Closed (jobId : string) (I : World → Prop) : Prop := mkClosed {
  closed_console : ∀ e w, I w → I (add_console e w);
  closed_speech : ∀ x w, I w → I (add_speech_request x w);
  closed_bucket : ∀ b w, I w → I (set_bucket b w);
  closed_update : ∀ f w,
    (∀ j, Job.id (f j) = Job.id j ∧ Job.status (f j) = Job.status j) →
    I w → I (Db.update_jobs jobId f w)
}.

Definition ClosedText (I : World → Prop) : Prop :=
  ∀ r w, I w → I (add_text_request r w).

Definition ClosedAsset (jobId : string) (I : World → Prop) : Prop :=
  ∀ t p u s r w, I w → I (snd (Db.insert_asset jobId t p u s r w)).

Section Stages.
Variables (env : Env) (jobId : string) (I : World → Prop).
Hypothesis HI : Closed jobId I.

Lemma winv_log level msg data : winv I (log level msg data).
Proof. intros s H. apply (closed_console _ _ HI), H. Qed.

Lemma winv_persist : winv I (persist jobId).
Proof.
  intros s H. apply (closed_update _ _ HI); [|exact H].
  intros j. split; reflexivity.
Qed.

Ltac step :=
  first [ apply winv_bind; [|intros ?]
        | apply winv_try_catch; [|intros ?]
        | apply winv_ret | apply winv_throw | apply winv_answer
        | apply winv_get_packager | apply winv_modify_packager
        | apply winv_log | apply winv_persist ].

Section TextRequests.
Hypothesis HT : ClosedText I.

Lemma winv_text r : winv I (stmt (add_text_request r)).
Proof. apply winv_stmt. apply HT. Qed.

Lemma stage1_inv : winv I (stage1 env jobId).
Proof.
  unfold stage1. repeat (first [step | apply winv_text]).
  apply winv_stmt. intros w. apply (closed_update _ _ HI).
  intros j. split; reflexivity.
Qed.

Lemma packagerRequest_inv : winv I (packagerRequest env).
Proof. unfold packagerRequest. repeat (first [step | apply winv_text]). Qed.

Lemma sanityCheck_inv target scenes : winv I (sanityCheck env target scenes).
Proof.
  unfold sanityCheck. destruct scenes; repeat (first [step | apply winv_text]).
Qed.

Lemma stage2_inv a : winv I (stage2 env jobId a).
Proof.
  unfold stage2. apply winv_bind; [apply packagerRequest_inv | intros ?].
  repeat step. apply sanityCheck_inv.
Qed.
End TextRequests.

Lemma imagePrompts_inv scenes : winv I (imagePrompts env jobId scenes).
Proof.
  unfold imagePrompts. apply winv_bind; [step | intros p].
  destruct (snd (normalizeImageRenderRequests env p (List.map fst scenes))); repeat step.
Qed.

Hypothesis HA : ClosedAsset jobId I.

Lemma ttsScene_inv s urls : winv I (ttsScene env jobId s urls).
Proof.
  unfold ttsScene. repeat step.
  - apply winv_stmt. apply (closed_speech _ _ HI).
  - apply winv_checked. intros w H.
    destruct (upload_error env _); simpl; [exact H | apply (closed_bucket _ _ HI), H].
  - apply winv_checked. intros w. apply HA.
Qed.

Lemma ttsLoop_inv targets : ∀ urls, winv I (ttsLoop env jobId targets urls).
Proof.
  induction targets as [|s rest IH]; intros urls; simpl; [apply winv_ret|].
  apply winv_bind; [apply ttsScene_inv | intros urls'; apply IH].
Qed.

Lemma stage3_inv scenes : winv I (stage3 env jobId scenes).
Proof. apply ttsLoop_inv. Qed.

Lemma jsonMarker_inv : winv I (jsonMarker jobId).
Proof. apply winv_checked. intros w. apply HA. Qed.
End Stages.

(** *** The status writes of the pipeline *)

(** A write that leaves the status as it is. *)
Definition unchanged (t : Transition) : Prop := tr_from t = Some (tr_to t).

















End PipelineFacts.

(** ** The status of a job under every operation *)

Module StatusFacts.
Import PipelineFacts.







(** *** trendstory-generate-scene-image writes no job row *)





(** *** trendstory-delete-job writes no status *)


(** *** trendstory-retry-audio persists the log and patches the package *)




(** *** trendstory-retry-images persists the log only *)








(** *** trendstory-start: the handler *)


Definition restarts (body : option StartRequest) : bool :=
  match body with
  | Some payload => truthy (trim (str (reuse_job_id payload)))
  | None => false
  end.


End StatusFacts.

Module StatusTheorems.
Import PipelineFacts StatusFacts.

(** The operations of the control surface, each with what the outside
    world decides while it runs. *)
Inductive Operation : Type :=
| StartJob (env : Start.Env) (body : option StartRequest)
| GenerateSceneImage (env : GenerateSceneImage.Env)
    (payload : option GenerateSceneImage.GenerateSceneImageRequest)
| RetryImages (env : RetryImages.Env) (fuel : nat)
    (payload : option RetryImages.RetryImagesRequest)
| RetryAudio (env : RetryAudio.Env) (payload : option RetryAudio.RetryAudioRequest)
| DeleteJob (env : DeleteJob.Env) (payload : option DeleteJob.DeleteJobRequest).


Definition is_start (op : Operation) : Prop :=
  match op with StartJob _ _ => True | _ => False end.

Definition is_restart (op : Operation) : Prop :=
  match op with StartJob _ body => restarts body = true | _ => False end.


(** The status writes C4 allows: as above, but a restart only from a
    terminal status. *)
Definition claimed (op : Operation) (t : Transition) : Prop :=
  unchanged t
  ∨ (is_start op ∧ tr_from t = None ∧ tr_to t = QUEUED)
  ∨ (is_restart op ∧ (tr_from t = Some SUCCEEDED ∨ tr_from t = Some FAILED)
     ∧ tr_to t = QUEUED)
  ∨ (is_start op ∧ tr_from t = Some QUEUED ∧ tr_to t = RUNNING)
  ∨ (is_start op ∧ tr_from t = Some RUNNING ∧ (tr_to t = SUCCEEDED ∨ tr_to t = FAILED)).











End StatusTheorems.

(** ** Stage 2: the sanity check, the repair and the scene rows *)

Module PipelineRuns.
Import Start PipelineFacts.

(** The answer stage 2 works with: that of the request with web search
    or, when it threw, that of the request without. *)
Definition packager_output (env : Env) : result Packager :=
  match packager_answer env true with
  | Ok p => Ok p
  | Throw _ => packager_answer env false
  end.

Definition packager_requests (env : Env) : list TextRequest :=
  match packager_answer env true with
  | Ok _ => [PackagerRequest true]
  | Throw _ => [PackagerRequest true; PackagerRequest false]
  end.

Lemma stage1_run env jobId s :
  fst (stage1 env jobId s) = autoconfig_answer env
  ∧ text_requests (snd (snd (stage1 env jobId s)))
    = (text_requests (snd s) ++ [AutoconfigRequest])%list.
Proof.
  unfold stage1, bind, stmt, modify_packager, persist, answer, get_packager, ret. simpl.
  destruct (autoconfig_answer env); simpl; split; reflexivity.
Qed.

Lemma packagerRequest_run env s :
  fst (packagerRequest env s) = packager_output env
  ∧ text_requests (snd (snd (packagerRequest env s)))
    = (text_requests (snd s) ++ packager_requests env)%list
  ∧ fst (snd (packagerRequest env s)) = fst s.
Proof.
  unfold packagerRequest, packager_output, packager_requests, try_catch, bind, stmt, answer.
  simpl. destruct (packager_answer env true); simpl.
  - repeat split; reflexivity.
  - rewrite <- app_assoc. destruct (packager_answer env false); repeat split; reflexivity.
Qed.

Lemma normalizeScenes_assign target p answer :
  normalizeScenes target (assign p answer) = normalizeScenes target answer.
Proof. reflexivity. Qed.

(** What stage 2 returns and asks of the text model. *)
Lemma stage2_run env jobId a s :
  match packager_output env with
  | Throw e =>
      fst (stage2 env jobId a s) = Throw e
      ∧ text_requests (snd (snd (stage2 env jobId a s)))
        = (text_requests (snd s) ++ packager_requests env)%list
  | Ok p =>
      match normalizeScenes (targetCount a) p with
      | [] =>
          (∃ e, fst (stage2 env jobId a s) = Throw e)
          ∧ text_requests (snd (snd (stage2 env jobId a s)))
            = (text_requests (snd s) ++ packager_requests env
               ++ [RepairRequest (targetCount a)])%list
      | ss =>
          fst (stage2 env jobId a s) = Ok ss
          ∧ text_requests (snd (snd (stage2 env jobId a s)))
            = (text_requests (snd s) ++ packager_requests env)%list
      end
  end.
Proof.
  destruct (packagerRequest_run env s) as (Hr & Ht & Hp).
  unfold stage2, bind.
  destruct (packagerRequest env s) as [[p|e] [p1 w1]]; simpl in *; rewrite <- Hr.
  - unfold modify_packager, get_packager. simpl.
    rewrite normalizeScenes_assign.
    destruct (normalizeScenes (targetCount a) p) as [|x ss] eqn:Hn.
    + unfold sanityCheck, bind, log, stmt, answer, throw. simpl.
      destruct (repair_answer env); simpl;
        (split; [eexists; reflexivity | rewrite Ht, <- app_assoc; reflexivity]).
    + unfold sanityCheck, ret, log, persist. simpl.
      split; [reflexivity | exact Ht].
  - split; [reflexivity | exact Ht].
Qed.

(** Invariants that no write on a job row disturbs. *)
Definition ClosedJobs (jobId : string) (I : World → Prop) : Prop :=
  ∀ f w, I w → I (Db.update_jobs jobId f w).

Definition ClosedScenes (jobId : string) (I : World → Prop) : Prop :=
  ∀ ss w, I w → I (snd (insert_scenes jobId ss w)).

Lemma closed_of_jobs jobId (I : World → Prop) :
  (∀ e w, I w → I (add_console e w)) →
  (∀ x w, I w → I (add_speech_request x w)) →
  (∀ b w, I w → I (set_bucket b w)) →
  ClosedJobs jobId I → Closed jobId I.
Proof. intros H1 H2 H3 H4. split; auto. Qed.

(** The pipeline after stage 2, for the validated scenes [ss]. *)
Definition afterStage2 (env : Env) (jobId : string) (ss : list (Z * RawScene))
    : Pipeline unit :=
  bind (stage3 env jobId ss) (fun sceneAudioUrls =>
  bind (imagePrompts env jobId ss) (fun _ =>
  bind (jsonMarker jobId) (fun _ =>
  markSucceeded jobId ss sceneAudioUrls))).

Lemma afterStage2_inv env jobId ss I :
  Closed jobId I → ClosedAsset jobId I → ClosedJobs jobId I →
  winv I (afterStage2 env jobId ss).
Proof.
  intros HC HA HJ. unfold afterStage2.
  apply winv_bind; [apply stage3_inv; assumption | intros urls].
  apply winv_bind; [apply imagePrompts_inv; assumption | intros _].
  apply winv_bind; [apply jsonMarker_inv; assumption | intros _].
  unfold markSucceeded. apply winv_bind; [apply winv_get_packager | intros p].
  apply winv_stmt. intros w. apply HJ.
Qed.

Lemma pipeline_unfold env jobId s :
  pipeline env jobId s
  = bind (markRunning jobId) (fun _ =>
    bind (stage1 env jobId) (fun autoconfig =>
    bind (stage2 env jobId autoconfig) (fun scenes =>
    bind (insertScenes jobId scenes) (fun _ => afterStage2 env jobId scenes)))) s.
Proof. reflexivity. Qed.

(** The world at the start of stage 2 and what stage 1 returned. *)
Definition beforeStage2 (env : Env) (jobId : string) (w : World)
    : result AutoConfig * (Packager * World) :=
  stage1 env jobId (mkPackager None None None None None [], Db.update_jobs jobId running w).

Lemma runPipeline_stages env jobId w :
  runPipeline env jobId w
  = match beforeStage2 env jobId w with
    | (Throw msg, (_, w1)) => Db.update_jobs jobId (failed msg) w1
    | (Ok a, s1) =>
        match stage2 env jobId a s1 with
        | (Throw msg, (_, w2)) => Db.update_jobs jobId (failed msg) w2
        | (Ok ss, s2) =>
            match insertScenes jobId ss s2 with
            | (Throw msg, (_, w3)) => Db.update_jobs jobId (failed msg) w3
            | (Ok _, s3) =>
                match afterStage2 env jobId ss s3 with
                | (Throw msg, (_, w4)) => Db.update_jobs jobId (failed msg) w4
                | (Ok _, (_, w4)) => w4
                end
            end
        end
    end.
Proof.
  unfold runPipeline. rewrite pipeline_unfold. unfold beforeStage2.
  unfold bind at 1. unfold markRunning, stmt at 1. simpl.
  unfold bind at 1.
  destruct (stage1 env jobId _) as [[a|e] [p1 w1]]; [|reflexivity].
  unfold bind at 1.
  destruct (stage2 env jobId a (p1, w1)) as [[ss|e] [p2 w2]]; [|reflexivity].
  unfold bind at 1.
  destruct (insertScenes jobId ss (p2, w2)) as [[[]|e] [p3 w3]]; [|reflexivity].
  destruct (afterStage2 env jobId ss (p3, w3)) as [[[]|e] [p4 w4]]; reflexivity.
Qed.

(** Stages 1 and 2 leave the scene and asset rows alone, take no fresh
    identifier and keep the row of the job. *)
Definition I_rows (jobId : string) (S : list Scene.row) (A : list Asset.row) (n : nat)
    (w : World) : Prop :=
  scenes w = S ∧ assets w = A ∧ next_id w = n ∧ ∃ j, Db.select_job jobId w = Ok j.

Lemma I_rows_closed jobId S A n : Closed jobId (I_rows jobId S A n).
Proof.
  split; try (intros ? w H; exact H).
  intros f w Hf (Hs & Ha & Hn & j & Hj). repeat split; [exact Hs | exact Ha | exact Hn |].
  exists (f j). apply select_job_update; [intros j0; apply Hf | exact Hj].
Qed.

Lemma I_rows_text jobId S A n : ClosedText (I_rows jobId S A n).
Proof. intros r w H. exact H. Qed.

Lemma failed_row jobId msg w j :
  Db.select_job jobId w = Ok j →
  ∃ j', Db.select_job jobId (Db.update_jobs jobId (failed msg) w) = Ok j'
        ∧ Job.status j' = FAILED.
Proof.
  intros Hj. exists (failed msg j). split; [|reflexivity].
  apply select_job_update; [intros j0; reflexivity | exact Hj].
Qed.

(** A configured count of six; the provider of speech is down, which the
    pipeline tolerates. *)
Definition provider (first repaired : result Packager) : Env :=
  mkEnv "job-2" "trace-2" (Ok (mkAutoConfig (Some 6) None)) (fun _ => first) repaired
        (fun _ _ => Throw "provider down") (fun _ => None)
        (fun p => p) (fun j _ => j) (fun _ _ => ([], false)).

Definition output (ss : list RawScene) : Packager :=
  mkPackager (Some ss) None None None None [].

Definition raw (id : option Z) (narration : string) : RawScene :=
  mkRawScene id (Some narration) None (Some "a harbour at dawn") None (Some 5).

Definition queued_world : World :=
  mkWorld [Sample.job QUEUED] [] [] 1 [] [] [] [] [] [].

End PipelineRuns.

(** ** The repair of an empty scene list *)

Module RepairTheorems.
Import Start PipelineFacts PipelineRuns.

(** The repaired output is invalid too: the request threw, or its scene
    list is empty again. *)
Definition still_invalid (env : Env) (target : Z) : Prop :=
  match repair_answer env with
  | Ok p => normalizeScenes target p = []
  | Throw _ => True
  end.

(** After stage 2 the text model is not asked again. *)
Definition I_text (T : list TextRequest) (w : World) : Prop := text_requests w = T.

Lemma I_text_closed jobId T : Closed jobId (I_text T).
Proof. split; intros ? w; intros; assumption. Qed.

Lemma I_text_asset jobId T : ClosedAsset jobId (I_text T).
Proof.
  intros t p u s r w H. unfold Db.insert_asset.
  destruct (Db.job_exists jobId w); exact H.
Qed.

Lemma I_text_jobs jobId T : ClosedJobs jobId (I_text T).
Proof. intros f w H. exact H. Qed.

Lemma I_text_scenes jobId T : ClosedScenes jobId (I_text T).
Proof.
  intros ss w H. unfold insert_scenes.
  destruct (negb (Db.job_exists jobId w)); [exact H|].
  destruct (bool_decide _); exact H.
Qed.

(** C5 (amended).  Stage 2 checks its scene list for emptiness only, after
    the cut to the configured count.  When the list is empty, exactly one
    repair request is issued, after the packager requests and as the last
    request of the run; no scene or asset row is inserted; and when the
    repaired output is invalid too, the job ends Failed.  When the list
    is not empty, however short, no repair request is issued. *)
Theorem empty_scene_list_is_repaired_once env jobId a p job w :
  autoconfig_answer env = Ok a →
  packager_output env = Ok p →
  Db.select_job jobId w = Ok job →
  let w' := runPipeline env jobId w in
  match normalizeScenes (targetCount a) p with
  | [] =>
      text_requests w'
      = (text_requests w ++ [AutoconfigRequest] ++ packager_requests env
         ++ [RepairRequest (targetCount a)])%list
      ∧ scenes w' = scenes w
      ∧ assets w' = assets w
      ∧ (still_invalid env (targetCount a) →
         ∃ job', Db.select_job jobId w' = Ok job' ∧ Job.status job' = FAILED)
  | _ :: _ =>
      text_requests w'
      = (text_requests w ++ [AutoconfigRequest] ++ packager_requests env)%list
  end.
Proof.
  intros Ha Hp Hjob w'. subst w'. rewrite runPipeline_stages. unfold beforeStage2.
  set (s0 := (mkPackager None None None None None [], Db.update_jobs jobId running w)).
  assert (H0 : I_rows jobId (scenes w) (assets w) (next_id w) (snd s0)).
  { repeat split. exists (running job).
    apply select_job_update; [intros j0; reflexivity | exact Hjob]. }
  pose proof (stage1_inv env jobId _ (I_rows_closed jobId _ _ _) (I_rows_text jobId _ _ _) s0 H0)
    as H1.
  destruct (stage1_run env jobId s0) as [Hr1 Ht1]. rewrite Ha in Hr1.
  destruct (stage1 env jobId s0) as [r1 [p1 w1]]. simpl in Hr1, Ht1, H1. subst r1.
  pose proof (stage2_inv env jobId _ (I_rows_closed jobId _ _ _) (I_rows_text jobId _ _ _) a
                         (p1, w1) H1) as H2.
  pose proof (stage2_run env jobId a (p1, w1)) as Hrun. rewrite Hp in Hrun.
  destruct (normalizeScenes (targetCount a) p) as [|x ss].
  - destruct Hrun as [[e He] Ht2].
    destruct (stage2 env jobId a (p1, w1)) as [r2 [p2 w2]]. simpl in He, Ht2, H2. subst r2.
    destruct H2 as (Hs & Has & _ & j2 & Hj2).
    split; [|split; [exact Hs | split; [exact Has|]]].
    + simpl. rewrite Ht2, Ht1, <- app_assoc. reflexivity.
    + intros _. apply (failed_row _ _ _ _ Hj2).
  - destruct Hrun as [He Ht2].
    destruct (stage2 env jobId a (p1, w1)) as [r2 [p2 w2]]. simpl in He, Ht2. subst r2.
    set (T := (text_requests w ++ [AutoconfigRequest] ++ packager_requests env)%list).
    assert (HT : I_text T w2).
    { unfold I_text, T. rewrite Ht2, Ht1, <- app_assoc. reflexivity. }
    pose proof (winv_checked (I_text T) _ (I_text_scenes jobId T (x :: ss)) (p2, w2) HT)
      as H3.
    fold (insertScenes jobId (x :: ss)) in H3.
    destruct (insertScenes jobId (x :: ss) (p2, w2)) as [[[]|e] [p3 w3]]; simpl in H3;
      [|exact H3].
    pose proof (afterStage2_inv env jobId (x :: ss) _ (I_text_closed jobId T)
                  (I_text_asset jobId T) (I_text_jobs jobId T) (p3, w3) H3) as H4.
    destruct (afterStage2 env jobId (x :: ss) (p3, w3)) as [[[]|e] [p4 w4]]; exact H4.
Qed.

Lemma empty_scene_list_is_repaired_once_witness :
  let w' := runPipeline (provider (Ok (output [])) (Ok (output []))) "job-1" queued_world in
  text_requests w' = [AutoconfigRequest; PackagerRequest true; RepairRequest 6]
  ∧ scenes w' = []
  ∧ assets w' = []
  ∧ ∃ job', Db.select_job "job-1" w' = Ok job' ∧ Job.status job' = FAILED.
Proof.
  pose proof (empty_scene_list_is_repaired_once
                (provider (Ok (output [])) (Ok (output []))) "job-1"
                (mkAutoConfig (Some 6) None) (output []) (Sample.job QUEUED) queued_world
                eq_refl eq_refl eq_refl) as (Ht & Hs & Ha & Hf).
  split; [exact Ht | split; [exact Hs | split; [exact Ha | apply Hf; reflexivity]]].
Defined.

(** C5 as stated fails: with a configured count of six the packager
    returns a single scene; no repair request is issued and the job ends
    Succeeded with one scene row. *)
Lemma short_scene_list_is_accepted :
  let env := provider (Ok (output [raw (Some 1) "one"])) (Throw "unused") in
  let w' := runPipeline env "job-1" queued_world in
  targetCount (mkAutoConfig (Some 6) None) = 6
  ∧ text_requests w' = [AutoconfigRequest; PackagerRequest true]
  ∧ List.map Job.status (jobs w') = [SUCCEEDED]
  ∧ length (scenes w') = 1%nat.
Proof. vm_compute. repeat split. Qed.

(** The repair itself cannot succeed: the repaired output is assigned to
    [packager], which is declared [const], so that the assignment throws
    after the request was answered.  A valid repaired output still ends in
    Failed, and the recorded error is that of the assignment, not the
    message about empty scenes. *)
Example repair_never_recovers :
  let env := provider (Ok (output [])) (Ok (output [raw (Some 1) "one"])) in
  let w' := runPipeline env "job-1" queued_world in
  text_requests w' = [AutoconfigRequest; PackagerRequest true; RepairRequest 6]
  ∧ List.map (fun j => (Job.status j, Job.error j)) (jobs w')
    = [(FAILED, Some "Assignment to constant variable.")]
  ∧ scenes w' = [].
Proof. vm_compute. repeat split. Qed.

End RepairTheorems.

(** ** The scene rows of a run *)

Section Sorting.
Context {A : Type} (key : A → Z).

Definition by_key (x y : A) : Prop := key x <= key y.

Lemma insert_by_perm x l : Permutation (insert_by key x l) (x :: l).
Proof.
  induction l as [|y l IH]; simpl; [reflexivity|].
  destruct (key x <=? key y); [reflexivity|].
  rewrite IH. apply perm_swap.
Qed.

Lemma sort_by_perm l : Permutation (sort_by key l) l.
Proof.
  induction l as [|x l IH]; simpl; [reflexivity|].
  rewrite insert_by_perm. apply perm_skip, IH.
Qed.

Lemma insert_by_hd x y l :
  by_key y x → HdRel by_key y l → HdRel by_key y (insert_by key x l).
Proof.
  intros Hyx Hl. destruct l as [|z l]; simpl; [constructor; exact Hyx|].
  destruct (key x <=? key z); constructor; [exact Hyx|].
  inversion Hl; assumption.
Qed.

Lemma insert_by_sorted x l : Sorted by_key l → Sorted by_key (insert_by key x l).
Proof.
  induction 1 as [|y l Hs IH Hhd]; simpl; [repeat constructor|].
  destruct (key x <=? key y) eqn:Hxy.
  - constructor; [constructor; assumption|].
    constructor. unfold by_key. lia.
  - constructor; [exact IH|].
    apply insert_by_hd; [unfold by_key; lia | exact Hhd].
Qed.

Lemma sort_by_sorted l : Sorted by_key (sort_by key l).
Proof.
  induction l as [|x l IH]; simpl; [constructor|].
  apply insert_by_sorted, IH.
Qed.
End Sorting.

Module SceneTheorems.
Import Start PipelineFacts PipelineRuns.

(** The scene list before the sort: the cut to the target count, every
    scene with its own index, or with its position when it has none. *)
Definition indexed (target : Z) (p : Packager) : list (Z * RawScene) :=
  imap reindex (take (Z.to_nat target) (default [] (pk_scenes p))).

(** The scene ids the job has rows for. *)
Definition taken (jobId : string) (w : World) : list Z :=
  List.map Scene.scene_id
           (List.filter (fun r => bool_decide (Scene.job_id r = jobId)) (scenes w)).

(** The rows of a scene list, numbered from [n]. *)
Definition rows (jobId : string) (n : nat) (ss : list (Z * RawScene)) : list Scene.row :=
  imap (fun i => scene_row jobId (n + i)) ss.

Lemma rows_length jobId n ss : length (rows jobId n ss) = length ss.
Proof. apply length_imap. Qed.

Lemma rows_lookup jobId n ss i s :
  ss !! i = Some s → rows jobId n ss !! i = Some (scene_row jobId (n + i) s).
Proof. intros H. unfold rows. rewrite list_lookup_imap, H. reflexivity. Qed.

Lemma rows_scene_ids jobId n ss : List.map Scene.scene_id (rows jobId n ss) = List.map fst ss.
Proof.
  unfold rows. revert n. induction ss as [|s ss IH]; intros n; [reflexivity|].
  simpl. f_equal. rewrite <- (IH (S n)). f_equal.
  apply imap_ext. intros i x _. simpl. f_equal. lia.
Qed.

Lemma indexed_lookup target p i s :
  indexed target p !! i = Some s →
  ∃ r, default [] (pk_scenes p) !! i = Some r
       ∧ (i < Z.to_nat target)%nat
       ∧ s = (default (Z.of_nat i + 1) (raw_scene_id r), r).
Proof.
  unfold indexed. rewrite list_lookup_imap. intros H.
  destruct (take _ _ !! i) as [r|] eqn:Hr; [|discriminate].
  injection H as <-. apply lookup_take_Some in Hr as [Hr Hi].
  exists r. repeat split; assumption.
Qed.

Lemma job_exists_selected jobId w j : Db.select_job jobId w = Ok j → Db.job_exists jobId w = true.
Proof.
  unfold Db.select_job, Db.job_exists. intros H. apply single_inv in H.
  apply existsb_exists. exists j.
  assert (Hin : In j (List.filter (Db.job_is jobId) (jobs w))) by (rewrite H; left; reflexivity).
  apply filter_In in Hin. exact Hin.
Qed.

(** After the insert the scene rows are left alone. *)
Definition I_scenes (S : list Scene.row) (w : World) : Prop := scenes w = S.

Lemma I_scenes_closed jobId S : Closed jobId (I_scenes S).
Proof. split; intros ? w; intros; assumption. Qed.

Lemma I_scenes_asset jobId S : ClosedAsset jobId (I_scenes S).
Proof.
  intros t p u s r w H. unfold Db.insert_asset.
  destruct (Db.job_exists jobId w); exact H.
Qed.

Lemma I_scenes_jobs jobId S : ClosedJobs jobId (I_scenes S).
Proof. intros f w H. exact H. Qed.

(** The scene rows a run leaves, for a scene list that is not empty. *)
Lemma runPipeline_scenes env jobId a p job w :
  autoconfig_answer env = Ok a →
  packager_output env = Ok p →
  Db.select_job jobId w = Ok job →
  normalizeScenes (targetCount a) p ≠ [] →
  let ss := normalizeScenes (targetCount a) p in
  let w' := runPipeline env jobId w in
  if bool_decide (NoDup (taken jobId w ++ List.map fst ss)) then
    scenes w' = (scenes w ++ rows jobId (next_id w) ss)%list
  else
    scenes w' = scenes w
    ∧ ∃ job', Db.select_job jobId w' = Ok job' ∧ Job.status job' = FAILED.
Proof.
  intros Ha Hp Hjob Hne ss w'. subst w' ss. rewrite runPipeline_stages. unfold beforeStage2.
  set (s0 := (mkPackager None None None None None [], Db.update_jobs jobId running w)).
  assert (H0 : I_rows jobId (scenes w) (assets w) (next_id w) (snd s0)).
  { repeat split. exists (running job).
    apply select_job_update; [intros j0; reflexivity | exact Hjob]. }
  pose proof (stage1_inv env jobId _ (I_rows_closed jobId _ _ _) (I_rows_text jobId _ _ _)
                         s0 H0) as H1.
  destruct (stage1_run env jobId s0) as [Hr1 _]. rewrite Ha in Hr1.
  destruct (stage1 env jobId s0) as [r1 [p1 w1]]. simpl in Hr1, H1. subst r1.
  pose proof (stage2_inv env jobId _ (I_rows_closed jobId _ _ _) (I_rows_text jobId _ _ _) a
                         (p1, w1) H1) as H2.
  pose proof (stage2_run env jobId a (p1, w1)) as Hrun. rewrite Hp in Hrun.
  destruct (normalizeScenes (targetCount a) p) as [|x ss]; [contradiction|].
  destruct Hrun as [He _].
  destruct (stage2 env jobId a (p1, w1)) as [r2 [p2 w2]]. simpl in He, H2. subst r2.
  destruct H2 as (Hs & _ & Hn & j2 & Hj2).
  unfold insertScenes, checked, insert_scenes. simpl.
  rewrite (job_exists_selected _ _ _ Hj2). simpl.
  rewrite Hs, Hn. fold (taken jobId w).
  destruct (bool_decide (NoDup (taken jobId w ++ fst x :: List.map fst ss))).
  - set (w3 := set_scenes _ _ w2).
    assert (H3 : I_scenes (scenes w ++ rows jobId (next_id w) (x :: ss))%list w3) by reflexivity.
    pose proof (afterStage2_inv env jobId (x :: ss) _ (I_scenes_closed jobId _)
                  (I_scenes_asset jobId _) (I_scenes_jobs jobId _) (p2, w3) H3) as H4.
    destruct (afterStage2 env jobId (x :: ss) (p2, w3)) as [[[]|e] [p4 w4]]; exact H4.
  - split; [exact Hs|]. apply (failed_row _ _ _ _ Hj2).
Qed.

(** C6 (amended).  The validated scene list is the cut to the target
    count, each scene with its own index, or with its position (from 1)
    when it has none, in a stable sort by index: indices are not renumbered
    1..N and duplicates are kept.  When no index is taken twice for the
    job, the run inserts one row per scene of the list, in its order, with
    the index and the fields of that scene; otherwise the insert is
    refused as a whole, no scene row is inserted and the job ends Failed. *)
Theorem scene_rows_are_the_validated_list env jobId a p job w :
  autoconfig_answer env = Ok a →
  packager_output env = Ok p →
  Db.select_job jobId w = Ok job →
  normalizeScenes (targetCount a) p ≠ [] →
  let ss := normalizeScenes (targetCount a) p in
  let w' := runPipeline env jobId w in
  Sorted (by_key fst) ss
  ∧ Permutation ss (indexed (targetCount a) p)
  ∧ (∀ i s, indexed (targetCount a) p !! i = Some s →
            ∃ r, default [] (pk_scenes p) !! i = Some r
                 ∧ (i < Z.to_nat (targetCount a))%nat
                 ∧ s = (default (Z.of_nat i + 1) (raw_scene_id r), r))
  ∧ (NoDup (taken jobId w ++ List.map fst ss) →
     scenes w' = (scenes w ++ rows jobId (next_id w) ss)%list
     ∧ length (rows jobId (next_id w) ss) = length ss
     ∧ List.map Scene.scene_id (rows jobId (next_id w) ss) = List.map fst ss
     ∧ ∀ i s, ss !! i = Some s →
              rows jobId (next_id w) ss !! i = Some (scene_row jobId (next_id w + i) s))
  ∧ (¬ NoDup (taken jobId w ++ List.map fst ss) →
     scenes w' = scenes w
     ∧ ∃ job', Db.select_job jobId w' = Ok job' ∧ Job.status job' = FAILED).
Proof.
  intros Ha Hp Hjob Hne ss w'.
  pose proof (runPipeline_scenes env jobId a p job w Ha Hp Hjob Hne) as Hrun.
  cbv zeta in Hrun. fold ss w' in Hrun.
  split; [apply sort_by_sorted|].
  split; [apply sort_by_perm|].
  split; [apply indexed_lookup|].
  split.
  - intros Hnd. rewrite bool_decide_eq_true_2 in Hrun by exact Hnd.
    split; [exact Hrun|]. split; [apply rows_length|].
    split; [apply rows_scene_ids | apply rows_lookup].
  - intros Hnd. rewrite bool_decide_eq_false_2 in Hrun by exact Hnd. exact Hrun.
Qed.

Lemma scene_rows_are_the_validated_list_witness :
  let env := provider (Ok (output [raw (Some 5) "five"; raw None "second"])) (Throw "unused") in
  let w' := runPipeline env "job-1" queued_world in
  scenes w'
  = [scene_row "job-1" 1 (2, raw None "second"); scene_row "job-1" 2 (5, raw (Some 5) "five")].
Proof.
  assert (Hnd : NoDup (taken "job-1" queued_world ++ [2; 5])%list)
    by (apply (bool_decide_unpack _); vm_compute; exact I).
  assert (Hne : normalizeScenes 6 (output [raw (Some 5) "five"; raw None "second"]) ≠ [])
    by (vm_compute; discriminate).
  exact (proj1 (proj1 (proj2 (proj2 (proj2
           (scene_rows_are_the_validated_list
              (provider (Ok (output [raw (Some 5) "five"; raw None "second"]))
                        (Throw "unused"))
              "job-1" (mkAutoConfig (Some 6) None)
              (output [raw (Some 5) "five"; raw None "second"])
              (Sample.job QUEUED) queued_world eq_refl eq_refl eq_refl Hne)))) Hnd)).
Defined.

(** C6 as stated fails.  A scene without an index next to a scene with
    index 5 gives the rows 2 and 5, not 1 and 2; and two scenes with the
    same index are not renumbered: the insert is refused, the job ends
    Failed and has no scene row. *)
Lemma scene_indices_are_not_renumbered :
  let gap := provider (Ok (output [raw (Some 5) "five"; raw None "second"])) (Throw "unused") in
  let twice := provider (Ok (output [raw (Some 1) "one"; raw (Some 1) "again"]))
                        (Throw "unused") in
  List.map Scene.scene_id (scenes (runPipeline gap "job-1" queued_world)) = [2; 5]
  ∧ scenes (runPipeline twice "job-1" queued_world) = []
  ∧ List.map Job.status (jobs (runPipeline twice "job-1" queued_world)) = [FAILED].
Proof. vm_compute. repeat split. Qed.

End SceneTheorems.

(** ** One call of trendstory-generate-scene-image *)

Module GenerateFacts.
Import GenerateSceneImage ClaimFacts.

Lemma promptOf_truthy job scene : truthy (promptOf job scene) = true.
Proof. unfold promptOf. apply or_else_truthy_r, synthesizedPrompt_truthy. Qed.

(** The world once the claim is written. *)
Definition claimedWorld (env : Env) (jobId : string) (sceneId : Z) (w : World) : World :=
  Db.update_scenes (Db.scene_is jobId sceneId) (claimed (randomUUID env) (nowIso env)) w.

(** A call that passes the early return and takes the claim. *)
Lemma runGenerate_claimed env jobId sceneId force w job r :
  Db.select_job jobId w = Ok job →
  Db.select_scene jobId sceneId w = Ok r →
  negb force && truthy_opt (Scene.image_url r) = false →
  claimable r (staleBefore env) →
  runGenerate env jobId sceneId force w
  = match generate env jobId sceneId force job r (claimedWorld env jobId sceneId w) with
    | (Ok out, w2) => (Ok out, w2)
    | (Throw msg, w2) =>
        (Ok (mkResponse jobId sceneId true FAILED None msg),
         write_failed jobId sceneId (randomUUID env) msg w2)
    end.
Proof.
  intros Hjob Hscene Hearly Hclaim. unfold runGenerate.
  rewrite Hjob, Hscene, Hearly, (claim_sequential _ _ _ _ _ _ _ Hscene).
  apply canClaim_spec in Hclaim. rewrite Hclaim. reflexivity.
Qed.

(** Once the claim is written, the completion filter selects the rows of
    the scene. *)
Lemma completion_filter_claimed env jobId sceneId w x :
  In x (scenes (claimedWorld env jobId sceneId w)) →
  completion_filter jobId sceneId (randomUUID env) x = Db.scene_is jobId sceneId x.
Proof.
  unfold claimedWorld, Db.update_scenes, Db.update_where. simpl.
  intros Hin. apply in_map_iff in Hin as (y & <- & _).
  unfold completion_filter.
  destruct (Db.scene_is jobId sceneId y) eqn:Hy.
  - rewrite claimed_scene_is, Hy. simpl. apply bool_decide_eq_true_2. reflexivity.
  - rewrite Hy. reflexivity.
Qed.

Lemma completion_write env jobId sceneId f w w1 :
  scenes w1 = scenes (claimedWorld env jobId sceneId w) →
  Db.update_scenes (completion_filter jobId sceneId (randomUUID env)) f w1
  = Db.update_scenes (Db.scene_is jobId sceneId) f w1.
Proof.
  intros Hs. unfold Db.update_scenes. f_equal.
  apply update_where_ext. intros x Hx. rewrite Hs in Hx.
  eapply completion_filter_claimed, Hx.
Qed.

Lemma select_scene_ext jobId sceneId w w' :
  scenes w' = scenes w → Db.select_scene jobId sceneId w' = Db.select_scene jobId sceneId w.
Proof. unfold Db.select_scene. intros ->. reflexivity. Qed.

Lemma select_claimed env jobId sceneId w r :
  Db.select_scene jobId sceneId w = Ok r →
  Db.select_scene jobId sceneId (claimedWorld env jobId sceneId w)
  = Ok (claimed (randomUUID env) (nowIso env) r).
Proof. intros H. apply select_after_update; [intros x; reflexivity | exact H]. Qed.

(** The row of the scene after a completion write on a world whose scene
    table is that of the claim. *)
Lemma select_completed env jobId sceneId f w w1 r :
  (∀ x, Db.scene_is jobId sceneId (f x) = Db.scene_is jobId sceneId x) →
  Db.select_scene jobId sceneId w = Ok r →
  scenes w1 = scenes (claimedWorld env jobId sceneId w) →
  Db.select_scene jobId sceneId
    (Db.update_scenes (completion_filter jobId sceneId (randomUUID env)) f w1)
  = Ok (f (claimed (randomUUID env) (nowIso env) r)).
Proof.
  intros Hf Hsel Hs. rewrite (completion_write _ _ _ _ w _ Hs).
  apply select_after_update; [exact Hf|].
  rewrite (select_scene_ext _ _ _ _ Hs). apply select_claimed, Hsel.
Qed.

(** The outcome of the [try] block. *)
Inductive Outcome : Type :=
| Generated (path url : string)
| Failure (msg : string).

Definition outcome (env : Env) (jobId : string) (sceneId : Z) (job : Job.row)
    (scene : Scene.row) : Outcome :=
  match openaiImagePng env (promptOf job scene) with
  | Throw m => Failure m
  | Ok _ =>
      let path := scenePath env jobId sceneId (topicOf job) in
      match upload_error env path with
      | Some m => Failure m
      | None => Generated path (getPublicUrl env path)
      end
  end.

Lemma selected_job_exists jobId w j : Db.select_job jobId w = Ok j → Db.job_exists jobId w = true.
Proof.
  unfold Db.select_job, Db.job_exists. intros H. apply single_inv in H.
  apply existsb_exists. exists j. apply filter_In. rewrite H. left. reflexivity.
Qed.

(** An update of the rows a filter selects among those of one scene. *)
Lemma evolves_update_within jobId sceneId sel f l :
  (∀ r, sel r = true → Db.scene_is jobId sceneId r = true) →
  (∀ r, Scene.job_id (f r) = Scene.job_id r ∧ Scene.scene_id (f r) = Scene.scene_id r) →
  evolves jobId [sceneId] l (Db.update_where sel f l).
Proof.
  intros Hsel Hf. induction l as [|r l IH]; simpl; constructor; [|exact IH].
  destruct (sel r) eqn:Hr; [|left; reflexivity].
  apply Hsel in Hr. unfold Db.scene_is in Hr.
  apply andb_true_iff in Hr as [Hj Hs]. apply bool_decide_eq_true in Hj, Hs.
  right. destruct (Hf r) as [H1 H2]. repeat split; auto. rewrite Hs. left.
Qed.

Lemma evolves_twice jobId sceneId l1 l2 l3 :
  evolves jobId [sceneId] l1 l2 → evolves jobId [sceneId] l2 l3 →
  evolves jobId [sceneId] l1 l3.
Proof.
  intros H12 H23. eapply evolves_mono; [|eapply evolves_trans; eassumption].
  intros x Hx. apply elem_of_app in Hx as [Hx|Hx]; exact Hx.
Qed.

(** What a call may change in the tables: rows of the scene it is for,
    which keep their job and scene id. *)
Definition within (jobId : string) (sceneId : Z) (w w' : World) : Prop :=
  jobs w' = jobs w
  ∧ evolves jobId [sceneId] (scenes w) (scenes w')
  ∧ text_requests w' = text_requests w
  ∧ speech_requests w' = speech_requests w.

Lemma within_refl jobId sceneId w : within jobId sceneId w w.
Proof. repeat split. apply evolves_refl. Qed.

Lemma within_ext jobId sceneId w w1 w2 :
  jobs w2 = jobs w1 → scenes w2 = scenes w1 →
  text_requests w2 = text_requests w1 → speech_requests w2 = speech_requests w1 →
  within jobId sceneId w w1 → within jobId sceneId w w2.
Proof.
  unfold within. intros H1 H2 H3 H4 (Hj & He & Ht & Hs).
  rewrite H1, H2, H3, H4. auto.
Qed.

Lemma within_completion jobId sceneId requestId f w w' :
  (∀ r, Scene.job_id (f r) = Scene.job_id r ∧ Scene.scene_id (f r) = Scene.scene_id r) →
  within jobId sceneId w w' →
  within jobId sceneId w (Db.update_scenes (completion_filter jobId sceneId requestId) f w').
Proof.
  intros Hf (Hj & He & Ht & Hs). repeat split; try assumption.
  eapply evolves_twice; [exact He|]. simpl.
  apply evolves_update_within; [|exact Hf].
  intros r Hr. unfold completion_filter in Hr. apply andb_true_iff in Hr. apply Hr.
Qed.

Lemma claimSceneImageGeneration_within jobId sceneId requestId staleBefore now w :
  let w1 := snd (claimSceneImageGeneration jobId sceneId requestId staleBefore now w) in
  within jobId sceneId w w1 ∧ image_requests w1 = image_requests w.
Proof.
  unfold claimSceneImageGeneration. simpl.
  destruct (Db.select_scene jobId sceneId w) as [row|m]; simpl;
    [|split; [apply within_refl | reflexivity]].
  destruct (canClaim _ _ _); simpl; [|split; [apply within_refl | reflexivity]].
  split; [|reflexivity]. repeat split. simpl.
  apply evolves_update_within; [|intros r; split; reflexivity].
  intros r Hr. unfold claim_filter in Hr. apply andb_true_iff in Hr. apply Hr.
Qed.

Lemma insert_asset_tables jobId t p u s r w :
  let w' := snd (Db.insert_asset jobId t p u s r w) in
  jobs w' = jobs w ∧ scenes w' = scenes w ∧ text_requests w' = text_requests w
  ∧ speech_requests w' = speech_requests w ∧ image_requests w' = image_requests w.
Proof. unfold Db.insert_asset. destruct (Db.job_exists jobId w); repeat split. Qed.

Lemma generate_within env jobId sceneId force job scene w0 w :
  within jobId sceneId w0 w →
  let w' := snd (generate env jobId sceneId force job scene w) in
  within jobId sceneId w0 w'
  ∧ (image_requests w' = image_requests w
     ∨ image_requests w' = (image_requests w ++ [promptOf job scene])%list).
Proof.
  intros H. unfold generate.
  destruct (negb (truthy (promptOf job scene))); simpl; [split; [exact H | left; reflexivity]|].
  destruct (openaiImagePng env (promptOf job scene)) as [png|m]; simpl;
    [|split; [exact H | right; reflexivity]].
  destruct (upload_error env _) as [m|]; simpl; [split; [exact H | right; reflexivity]|].
  match goal with |- context [Db.insert_asset ?j ?t ?p ?u ?s ?r ?w3] =>
    destruct (insert_asset_tables j t p u s r w3) as (Hj & Hs & Ht & Hsp & Hi)
  end.
  split.
  - eapply within_ext; [exact Hj | exact Hs | exact Ht | exact Hsp |].
    unfold write_succeeded. apply within_completion; [intros r; split; reflexivity|].
    exact H.
  - right. rewrite Hi. reflexivity.
Qed.

End GenerateFacts.

Module GenerateTheorems.
Import GenerateSceneImage ClaimFacts GenerateFacts.

(** X1.  A generation that fails after the claim was taken (the provider or
    the upload threw) is answered with status FAILED and the message of
    the error; the row of the scene is marked FAILED with that message
    and keeps the image it had (path, URL and prompt), and neither an
    object nor an asset row is added. *)
Theorem failed_generation_keeps_the_image env jobId sceneId force w job r msg :
  Db.select_job jobId w = Ok job →
  Db.select_scene jobId sceneId w = Ok r →
  negb force && truthy_opt (Scene.image_url r) = false →
  claimable r (staleBefore env) →
  outcome env jobId sceneId job r = Failure msg →
  let out := runGenerate env jobId sceneId force w in
  fst out = Ok (mkResponse jobId sceneId true FAILED None msg)
  ∧ (∃ r', Db.select_scene jobId sceneId (snd out) = Ok r'
           ∧ Scene.image_gen_status r' = Some "FAILED"
           ∧ Scene.image_gen_error r' = Some msg
           ∧ Scene.image_url r' = Scene.image_url r
           ∧ Scene.image_path r' = Scene.image_path r
           ∧ Scene.image_prompt r' = Scene.image_prompt r)
  ∧ bucket (snd out) = bucket w
  ∧ assets (snd out) = assets w
  ∧ image_requests (snd out) = (image_requests w ++ [promptOf job r])%list.
Proof.
  intros Hjob Hscene Hearly Hclaim Hout out. subst out.
  rewrite (runGenerate_claimed _ _ _ _ _ _ _ Hjob Hscene Hearly Hclaim).
  unfold generate. rewrite promptOf_truthy. simpl.
  unfold outcome in Hout.
  assert (Hrow : ∀ w1, scenes w1 = scenes (claimedWorld env jobId sceneId w) →
            ∃ r', Db.select_scene jobId sceneId
                    (write_failed jobId sceneId (randomUUID env) msg w1) = Ok r'
                  ∧ Scene.image_gen_status r' = Some "FAILED"
                  ∧ Scene.image_gen_error r' = Some msg
                  ∧ Scene.image_url r' = Scene.image_url r
                  ∧ Scene.image_path r' = Scene.image_path r
                  ∧ Scene.image_prompt r' = Scene.image_prompt r).
  { intros w1 Hs. eexists. split.
    - unfold write_failed. apply (select_completed env jobId sceneId _ w w1 r);
        [intros x; reflexivity | exact Hscene | exact Hs].
    - repeat split; reflexivity. }
  destruct (openaiImagePng env (promptOf job r)) as [png|m].
  - destruct (upload_error env (scenePath env jobId sceneId (topicOf job))) as [m|];
      [|discriminate].
    injection Hout as ->. simpl.
    split; [reflexivity|]. split; [apply Hrow; reflexivity|]. repeat split; reflexivity.
  - injection Hout as ->. simpl.
    split; [reflexivity|]. split; [apply Hrow; reflexivity|]. repeat split; reflexivity.
Qed.

(** X2.  Whatever the request, the store and the provider: a call changes no
    job row and no row of another scene, the rows of its scene keep their
    job and scene id, at most one prompt is sent to the image provider,
    and nothing is asked of the text or speech models. *)
Theorem generation_touches_one_scene env jobId sceneId force w :
  let w' := snd (runGenerate env jobId sceneId force w) in
  jobs w' = jobs w
  ∧ evolves jobId [sceneId] (scenes w) (scenes w')
  ∧ (image_requests w' = image_requests w
     ∨ ∃ prompt, image_requests w' = (image_requests w ++ [prompt])%list)
  ∧ text_requests w' = text_requests w
  ∧ speech_requests w' = speech_requests w.
Proof.
  assert (Hpack : ∀ w', within jobId sceneId w w' →
            (image_requests w' = image_requests w
             ∨ ∃ prompt, image_requests w' = (image_requests w ++ [prompt])%list) →
            jobs w' = jobs w
            ∧ evolves jobId [sceneId] (scenes w) (scenes w')
            ∧ (image_requests w' = image_requests w
               ∨ ∃ prompt, image_requests w' = (image_requests w ++ [prompt])%list)
            ∧ text_requests w' = text_requests w
            ∧ speech_requests w' = speech_requests w).
  { intros w' (Hj & He & Ht & Hs) Hi. auto. }
  simpl. unfold runGenerate.
  destruct (Db.select_job jobId w) as [job|m]; simpl;
    [|apply Hpack; [apply within_refl | left; reflexivity]].
  destruct (Db.select_scene jobId sceneId w) as [scene|m]; simpl;
    [|apply Hpack; [apply within_refl | left; reflexivity]].
  destruct (negb force && truthy_opt (Scene.image_url scene)); simpl;
    [apply Hpack; [apply within_refl | left; reflexivity]|].
  destruct (claimSceneImageGeneration_within jobId sceneId (randomUUID env)
              (staleBefore env) (nowIso env) w) as [Hc Hci].
  destruct (claimSceneImageGeneration _ _ _ _ _ w) as [[[|]|m] w1]; simpl in Hc, Hci;
    [|apply Hpack; [exact Hc | left; exact Hci]..].
  destruct (generate_within env jobId sceneId force job scene w w1 Hc) as [Hg Hgi].
  assert (Hi : image_requests (snd (generate env jobId sceneId force job scene w1))
               = image_requests w
               ∨ ∃ prompt, image_requests (snd (generate env jobId sceneId force job scene w1))
                           = (image_requests w ++ [prompt])%list).
  { destruct Hgi as [->| ->]; [left; exact Hci | right; eexists; rewrite Hci; reflexivity]. }
  destruct (generate env jobId sceneId force job scene w1) as [[out|msg] w2]; simpl in *.
  - apply Hpack; assumption.
  - apply (Hpack (write_failed jobId sceneId (randomUUID env) msg w2)); [|exact Hi].
    unfold write_failed. apply within_completion; [intros r; split; reflexivity | exact Hg].
Qed.

(** X3.  A generation that goes through is answered SUCCEEDED with the public
    URL of the uploaded object; the row of the scene then holds that URL,
    the path and the prompt that was sent, the object was stored under
    that path, one asset row was added and one prompt was sent to the provider.  Asked again
    without [force], the function answers ALREADY_EXISTS with the same URL
    and changes nothing, whatever the provider would do. *)
Theorem generated_image_is_served_again env jobId sceneId force w job r path url :
  Db.select_job jobId w = Ok job →
  Db.select_scene jobId sceneId w = Ok r →
  negb force && truthy_opt (Scene.image_url r) = false →
  claimable r (staleBefore env) →
  outcome env jobId sceneId job r = Generated path url →
  let out := runGenerate env jobId sceneId force w in
  fst out = Ok (mkResponse jobId sceneId true SUCCEEDED (Some url) "image generated")
  ∧ (∃ r', Db.select_scene jobId sceneId (snd out) = Ok r'
           ∧ Scene.image_url r' = Some url
           ∧ Scene.image_path r' = Some path
           ∧ Scene.image_prompt r' = Some (promptOf job r)
           ∧ Scene.image_gen_status r' = Some "SUCCEEDED"
           ∧ Scene.image_gen_error r' = None)
  ∧ image_requests (snd out) = (image_requests w ++ [promptOf job r])%list
  ∧ (∀ o, o ∈ bucket (snd out) ↔ o ∈ bucket w ∨ o = path)
  ∧ assets (snd out)
    = (assets w ++ [Asset.mk (next_id w) jobId asset_image (Some path) (Some url)
                             (Some sceneId) (Some (randomUUID env))])%list
  ∧ (truthy url = true →
     ∀ env', runGenerate env' jobId sceneId false (snd out)
             = (Ok (mkResponse jobId sceneId true ALREADY_EXISTS (Some url)
                               "image already exists"), snd out)).
Proof.
  intros Hjob Hscene Hearly Hclaim Hout out. subst out.
  rewrite (runGenerate_claimed _ _ _ _ _ _ _ Hjob Hscene Hearly Hclaim).
  unfold generate. rewrite promptOf_truthy. simpl.
  unfold outcome in Hout.
  destruct (openaiImagePng env (promptOf job r)) as [png|m]; [|discriminate].
  destruct (upload_error env (scenePath env jobId sceneId (topicOf job))) as [m|];
    [discriminate|].
  injection Hout as <- <-.
  set (path := scenePath env jobId sceneId (topicOf job)).
  set (w2 := set_bucket _ _).
  set (w3 := write_succeeded jobId sceneId (randomUUID env) path (getPublicUrl env path)
                             (promptOf job r) w2).
  assert (Hex : Db.job_exists jobId w3 = true) by exact (selected_job_exists _ _ _ Hjob).
  assert (Hrow : Db.select_scene jobId sceneId w3
                 = Ok (succeeded path (getPublicUrl env path) (promptOf job r)
                                 (claimed (randomUUID env) (nowIso env) r))).
  { apply (select_completed env jobId sceneId _ w w2 r);
      [intros x; reflexivity | exact Hscene | reflexivity]. }
  unfold Db.insert_asset. rewrite Hex. simpl.
  split; [reflexivity|].
  split; [eexists; split; [exact Hrow | repeat split; reflexivity]|].
  split; [reflexivity|].
  split; [intros o; change (o ∈ (bucket w ++ [path])%list ↔ o ∈ bucket w ∨ o = path);
          rewrite elem_of_app, list_elem_of_singleton; reflexivity|].
  split; [reflexivity|].
  intros Hurl env'. unfold runGenerate.
  match goal with |- context [Db.select_job jobId ?w4] =>
    change (Db.select_job jobId w4) with (Db.select_job jobId w);
    change (Db.select_scene jobId sceneId w4) with (Db.select_scene jobId sceneId w3)
  end.
  rewrite Hjob, Hrow. simpl. unfold truthy_opt. simpl. rewrite Hurl. reflexivity.
Qed.

Definition working_env : Env :=
  mkEnv "req-A" 600000 600000 None (fun _ => Ok "png") (fun _ => None)
        (fun p => "https://cdn/" +:+ p) (fun j s t => "jobs/" +:+ j +:+ "/scene.png").

Definition failing_env : Env :=
  mkEnv "req-A" 600000 600000 None (fun _ => Throw "rate limited") (fun _ => None)
        (fun p => "https://cdn/" +:+ p) (fun j s t => "jobs/" +:+ j +:+ "/scene.png").

Lemma failed_generation_keeps_the_image_witness :
  fst (runGenerate failing_env "job-1" 2 true Sample.world)
  = Ok (mkResponse "job-1" 2 true FAILED None "rate limited")
  ∧ ∃ r', Db.select_scene "job-1" 2 (snd (runGenerate failing_env "job-1" 2 true Sample.world))
          = Ok r'
          ∧ Scene.image_url r' = Some "https://cdn/2.png".
Proof.
  destruct (failed_generation_keeps_the_image failing_env "job-1" 2 true Sample.world
              Sample.finished (Sample.scene 1 2 (Some "https://cdn/2.png") None None None)
              "rate limited" eq_refl eq_refl eq_refl (or_introl eq_refl) eq_refl)
    as (Hres & (r' & Hsel & _ & _ & Hurl & _) & _).
  split; [exact Hres|]. exists r'. split; [exact Hsel | exact Hurl].
Defined.

Lemma generated_image_is_served_again_witness :
  let w' := snd (runGenerate working_env "job-1" 1 false Sample.world) in
  runGenerate failing_env "job-1" 1 false w'
  = (Ok (mkResponse "job-1" 1 true ALREADY_EXISTS (Some "https://cdn/jobs/job-1/scene.png")
                    "image already exists"), w').
Proof.
  destruct (generated_image_is_served_again working_env "job-1" 1 false
              Sample.world Sample.finished (Sample.scene 0 1 None None None None)
              "jobs/job-1/scene.png" "https://cdn/jobs/job-1/scene.png"
              eq_refl eq_refl eq_refl (or_introl eq_refl) eq_refl)
    as (_ & _ & _ & _ & _ & H).
  apply H. reflexivity.
Defined.



End GenerateTheorems.

(** ** The start handler and the run of the pipeline *)

Module StartFacts.
Import Start PipelineFacts PipelineRuns.

Lemma select_job_ext jobId w w' :
  jobs w' = jobs w → Db.select_job jobId w' = Db.select_job jobId w.
Proof. unfold Db.select_job. intros ->. reflexivity. Qed.

Lemma selected_id jobId w j : Db.select_job jobId w = Ok j → Job.id j = jobId.
Proof.
  unfold Db.select_job. intros H. apply single_inv in H.
  assert (Hin : In j (List.filter (Db.job_is jobId) (jobs w))) by (rewrite H; left; reflexivity).
  apply filter_In in Hin as [_ Hj]. apply bool_decide_eq_true in Hj. exact Hj.
Qed.

Lemma filter_none_of {A} (p : A → bool) (l : list A) :
  existsb p l = false → List.filter p l = [].
Proof.
  induction l as [|x l IH]; simpl; [reflexivity|].
  destruct (p x); simpl; [discriminate | exact IH].
Qed.

Lemma select_inserted j w w1 :
  Db.insert_job j w = (None, w1) → Db.select_job (Job.id j) w1 = Ok j.
Proof.
  unfold Db.insert_job, Db.select_job.
  destruct (existsb (Db.job_is (Job.id j)) (jobs w)) eqn:Hex; [discriminate|].
  intros H. injection H as <-. simpl.
  rewrite List.filter_app, (filter_none_of _ _ Hex). simpl.
  unfold Db.job_is. rewrite bool_decide_eq_true_2 by reflexivity. reflexivity.
Qed.

Lemma insert_refused j w m w1 : Db.insert_job j w = (Some m, w1) → w1 = w.
Proof.
  unfold Db.insert_job. destruct (existsb _ _); intros H; [|discriminate].
  injection H as _ <-. reflexivity.
Qed.

(** The job keeps a row of its own. *)
Definition I_job (jobId : string) (w : World) : Prop := ∃ j, Db.select_job jobId w = Ok j.

Lemma I_job_closed jobId : Closed jobId (I_job jobId).
Proof.
  split; try (intros ? w H; exact H).
  intros f w Hf [j Hj]. exists (f j).
  apply select_job_update; [intros j0; apply Hf | exact Hj].
Qed.

Lemma I_job_text jobId : ClosedText (I_job jobId).
Proof. intros r w H. exact H. Qed.

Lemma I_job_asset jobId : ClosedAsset jobId (I_job jobId).
Proof.
  intros t p u s r w H. unfold Db.insert_asset.
  destruct (Db.job_exists jobId w); exact H.
Qed.

Lemma I_job_scenes jobId : ClosedScenes jobId (I_job jobId).
Proof.
  intros ss w H. unfold insert_scenes.
  destruct (negb (Db.job_exists jobId w)); [exact H|].
  destruct (bool_decide _); exact H.
Qed.

(** Stages 1 and 2 ask nothing of the speech model. *)
Lemma stage1_speech env jobId s :
  speech_requests (snd (snd (stage1 env jobId s))) = speech_requests (snd s).
Proof.
  unfold stage1, bind, stmt, modify_packager, persist, answer, get_packager, ret. simpl.
  destruct (autoconfig_answer env); reflexivity.
Qed.

Lemma stage2_speech env jobId a s :
  speech_requests (snd (snd (stage2 env jobId a s))) = speech_requests (snd s).
Proof.
  unfold stage2, bind, packagerRequest, try_catch, bind, stmt, answer, modify_packager,
    get_packager. simpl.
  destruct (packager_answer env true) as [p|e]; simpl.
  - rewrite normalizeScenes_assign.
    destruct (normalizeScenes (targetCount a) p); simpl.
    + destruct (repair_answer env); reflexivity.
    + reflexivity.
  - destruct (packager_answer env false) as [p|e']; simpl; [|reflexivity].
    rewrite normalizeScenes_assign.
    destruct (normalizeScenes (targetCount a) p); simpl.
    + destruct (repair_answer env); reflexivity.
    + reflexivity.
Qed.

(** One scene of the speech loop: it returns, whatever the provider and
    the storage do, after exactly one request to the speech model. *)
Lemma ttsScene_run env jobId s urls st :
  ∃ urls' st',
    ttsScene env jobId s urls st = (Ok urls', st')
    ∧ speech_requests (snd st') = (speech_requests (snd st) ++ [snd s])%list
    ∧ scenes (snd st') = scenes (snd st)
    ∧ (urls' = urls ∨ ∃ url, urls' = (urls ++ [(fst s, url)])%list).
Proof.
  unfold ttsScene, bind, try_catch, bind, log, stmt, answer, checked, persist, ret. simpl.
  destruct (openaiTtsMp3 env (fst s) (snd s)) as [mp3|e]; simpl.
  - destruct (upload_error env (audioPath env jobId (fst s))) as [e|]; simpl.
    + eexists _, _. split; [reflexivity|]. split; [reflexivity|]. split; [reflexivity|].
      left. reflexivity.
    + unfold Db.insert_asset.
      match goal with |- context [Db.job_exists jobId ?w0] =>
        destruct (Db.job_exists jobId w0) end; simpl;
        eexists _, _; (split; [reflexivity|]); (split; [reflexivity|]);
        (split; [reflexivity|]); right; eexists; reflexivity.
  - eexists _, _. split; [reflexivity|]. split; [reflexivity|]. split; [reflexivity|].
    left. reflexivity.
Qed.

Lemma ttsLoop_run env jobId targets : ∀ urls st,
  ∃ extra st',
    ttsLoop env jobId targets urls st = (Ok (urls ++ extra)%list, st')
    ∧ speech_requests (snd st')
      = (speech_requests (snd st) ++ List.map snd targets)%list
    ∧ scenes (snd st') = scenes (snd st)
    ∧ sublist (List.map fst extra) (List.map fst targets).
Proof.
  induction targets as [|s rest IH]; intros urls st; simpl.
  - exists [], st. rewrite !app_nil_r. repeat split. constructor.
  - destruct (ttsScene_run env jobId s urls st) as (urls1 & st1 & Hrun & Hsp & Hsc & Hu).
    unfold bind at 1. rewrite Hrun.
    destruct (IH urls1 st1) as (extra & st2 & Hloop & Hsp2 & Hsc2 & Hsub).
    rewrite Hloop. destruct Hu as [->|[url ->]].
    + exists extra, st2. split; [reflexivity|].
      split; [rewrite Hsp2, Hsp, <- app_assoc; reflexivity|].
      split; [congruence|]. apply sublist_cons, Hsub.
    + exists ((fst s, url) :: extra), st2. split; [rewrite <- app_assoc; reflexivity|].
      split; [rewrite Hsp2, Hsp, <- app_assoc; reflexivity|].
      split; [congruence|]. simpl. apply sublist_skip, Hsub.
Qed.

(** The image prompts are prepared without any request and cannot fail. *)
Lemma imagePrompts_run env jobId ss st :
  ∃ st', imagePrompts env jobId ss st = (Ok tt, st')
         ∧ speech_requests (snd st') = speech_requests (snd st)
         ∧ scenes (snd st') = scenes (snd st).
Proof.
  unfold imagePrompts, bind, get_packager. simpl.
  destruct (snd (normalizeImageRenderRequests env (fst st) (List.map fst ss)));
    unfold bind, modify_packager, log, persist, ret; simpl;
    eexists; repeat split.
Qed.

(** The answer of the start handler and what it leaves. *)
Lemma serve_all_or_nothing env body w :
  match serve env body w with
  | (Json s res, Some l, w1) =>
      s = 200
      ∧ launch_jobId l = res_job_id res
      ∧ launch_traceId l = res_trace_id res
      ∧ body = Some (launch_payload l)
      ∧ Db.select_job (res_job_id res) w1
        = Ok (Job.mk (res_job_id res) QUEUED (launch_payload l) None None None None
                     (res_trace_id res))
  | (JsonError s _, None, w1) => (s = 400 ∨ s = 404 ∨ s = 500) ∧ w1 = w
  | _ => False
  end.
Proof.
  unfold serve. destruct body as [payload|]; [|auto].
  destruct (negb (truthy (trim (topic_domain payload)))); [auto|].
  destruct (negb (truthy (trim (language payload)))); [auto|].
  destruct (negb (truthy (trim (audience payload)))); [auto|].
  destruct (truthy (trim (str (reuse_job_id payload)))).
  - set (jobId := trim (str (reuse_job_id payload))).
    destruct (Db.select_job jobId w) as [job|m] eqn:Hjob; [|auto].
    assert (Hreset : Db.select_job jobId (Db.update_jobs jobId (reset payload) w)
                     = Ok (reset payload job))
      by (apply select_job_update; [intros j; reflexivity | exact Hjob]).
    rewrite Hreset. cbn [reset Job.id Job.trace_id].
    repeat split.
    rewrite (selected_id _ _ _ Hjob).
    transitivity (Db.select_job jobId (Db.update_jobs jobId (reset payload) w));
      [apply select_job_ext; reflexivity|].
    rewrite Hreset. unfold reset. rewrite (selected_id _ _ _ Hjob). reflexivity.
  - destruct (Db.insert_job _ w) as [[m|] w1] eqn:Hins.
    + split; [auto|]. eapply insert_refused, Hins.
    + repeat split. apply (select_inserted _ _ _ Hins).
Qed.

(** The status a run ends with. *)
Lemma runPipeline_terminal env jobId w job :
  Db.select_job jobId w = Ok job →
  ∃ job', Db.select_job jobId (runPipeline env jobId w) = Ok job'
          ∧ ((Job.status job' = SUCCEEDED ∧ Job.error job' = None
              ∧ ∃ fp, Job.final_package job' = Some fp)
             ∨ (Job.status job' = FAILED ∧ ∃ msg, Job.error job' = Some msg)).
Proof.
  intros Hjob. unfold runPipeline.
  set (s0 := (mkPackager None None None None None [], w)).
  set (Q := fun (r : result unit) (w' : World) =>
              I_job jobId w'
              ∧ (r = Ok tt →
                 ∃ j, Db.select_job jobId w' = Ok j ∧ Job.status j = SUCCEEDED
                      ∧ Job.error j = None ∧ ∃ fp, Job.final_package j = Some fp)).
  assert (HQ : Q (fst (pipeline env jobId s0)) (snd (snd (pipeline env jobId s0)))).
  { assert (Hthrow : ∀ e w', I_job jobId w' → Q (Throw e) w')
      by (intros e w' H; split; [exact H | discriminate]).
    pose proof (I_job_closed jobId) as HC.
    pose proof (I_job_asset jobId) as HA.
    pose proof (I_job_text jobId) as HT.
    cut (post (I_job jobId) (pipeline env jobId) Q);
      [intros Hp; apply (Hp s0); exists job; exact Hjob|].
    unfold pipeline.
    apply post_bind; [|exact Hthrow | intros _].
    { apply winv_stmt. intros w' [j Hj]. exists (running j).
      apply select_job_update; [intros j0; reflexivity | exact Hj]. }
    apply post_bind; [apply stage1_inv; assumption | exact Hthrow | intros a].
    apply post_bind; [apply stage2_inv; assumption | exact Hthrow | intros scenes].
    apply post_bind; [|exact Hthrow | intros _].
    { apply winv_checked. intros w'. apply I_job_scenes. }
    apply post_bind; [apply stage3_inv; assumption | exact Hthrow | intros urls].
    apply post_bind; [apply imagePrompts_inv, HC | exact Hthrow | intros _].
    apply post_bind; [apply jsonMarker_inv, HA | exact Hthrow | intros _].
    intros s [j Hj]. unfold markSucceeded, bind, get_packager, stmt. simpl.
    assert (Hsel : Db.select_job jobId
                     (Db.update_jobs jobId
                        (succeeded (mkFinalPackage scenes urls) (fst s)) (snd s))
                   = Ok (succeeded (mkFinalPackage scenes urls) (fst s) j))
      by (apply select_job_update; [intros j0; reflexivity | exact Hj]).
    split; [eexists; exact Hsel|]. intros _.
    eexists. split; [exact Hsel|]. simpl. repeat split. eexists. reflexivity. }
  destruct (pipeline env jobId s0) as [[[]|msg] [p w']]; simpl in HQ.
  - destruct HQ as [_ HQ]. destruct (HQ eq_refl) as (j & Hj & Hst & Herr & Hfp).
    exists j. split; [exact Hj|]. left. auto.
  - destruct HQ as [[j Hj] _]. exists (failed msg j). split.
    + apply select_job_update; [intros j0; reflexivity | exact Hj].
    + right. split; [reflexivity|]. exists msg. reflexivity.
Qed.

End StartFacts.

Module StartTheorems.
Import Start PipelineFacts PipelineRuns StartFacts.


(** X6.  Speech failures do not fail the job.  When the two text stages answer,
    the scene list is not empty and no scene index is taken twice for the
    job, the run ends Succeeded whatever the speech provider and the
    storage do: every scene with a narration is sent to the speech model
    once, in the order of the list, the final package holds the validated
    scenes, and its scene audios belong to scenes with a narration, in
    that order. *)
Theorem speech_failures_do_not_fail_the_job env jobId a p job w :
  autoconfig_answer env = Ok a →
  packager_output env = Ok p →
  Db.select_job jobId w = Ok job →
  normalizeScenes (targetCount a) p ≠ [] →
  NoDup (List.map Scene.scene_id
           (List.filter (fun r => bool_decide (Scene.job_id r = jobId)) (scenes w))
         ++ List.map fst (normalizeScenes (targetCount a) p)) →
  let ss := normalizeScenes (targetCount a) p in
  let w' := runPipeline env jobId w in
  ∃ job' urls,
    Db.select_job jobId w' = Ok job'
    ∧ Job.status job' = SUCCEEDED
    ∧ Job.error job' = None
    ∧ Job.final_package job' = Some (mkFinalPackage ss urls)
    ∧ sublist (List.map fst urls) (List.map fst (ttsTargetScenes ss))
    ∧ speech_requests w' = (speech_requests w ++ List.map snd (ttsTargetScenes ss))%list.
Proof.
  intros Ha Hp Hjob Hne Hnd ss w'. subst ss.
  assert (HW : w' = runPipeline env jobId w) by reflexivity. clearbody w'.
  rewrite runPipeline_stages in HW. unfold beforeStage2 in HW.
  set (s0 := (mkPackager None None None None None [], Db.update_jobs jobId running w)) in HW.
  assert (H0 : I_rows jobId (scenes w) (assets w) (next_id w) (snd s0)).
  { repeat split. exists (running job).
    apply select_job_update; [intros j0; reflexivity | exact Hjob]. }
  pose proof (stage1_inv env jobId _ (I_rows_closed jobId _ _ _) (I_rows_text jobId _ _ _)
                         s0 H0) as H1.
  pose proof (stage1_speech env jobId s0) as Hsp1.
  destruct (stage1_run env jobId s0) as [Hr1 _]. rewrite Ha in Hr1.
  destruct (stage1 env jobId s0) as [r1 [p1 w1]]. simpl in Hr1, H1, Hsp1. subst r1.
  pose proof (stage2_inv env jobId _ (I_rows_closed jobId _ _ _) (I_rows_text jobId _ _ _) a
                         (p1, w1) H1) as H2.
  pose proof (stage2_speech env jobId a (p1, w1)) as Hsp2.
  pose proof (stage2_run env jobId a (p1, w1)) as Hrun. rewrite Hp in Hrun.
  destruct (normalizeScenes (targetCount a) p) as [|x ss]; [contradiction|].
  destruct Hrun as [He _].
  destruct (stage2 env jobId a (p1, w1)) as [r2 [p2 w2]]. simpl in He, H2, Hsp2. subst r2.
  destruct H2 as (Hs & _ & Hn & j2 & Hj2).
  unfold insertScenes, checked, insert_scenes in HW. simpl in HW.
  assert (Hex : Db.job_exists jobId w2 = true).
  { unfold Db.job_exists. unfold Db.select_job in Hj2. apply single_inv in Hj2.
    apply existsb_exists. exists j2. apply filter_In. rewrite Hj2. left. reflexivity. }
  rewrite Hex, Hs, Hn in HW. simpl in HW. rewrite bool_decide_eq_true_2 in HW by exact Hnd.
  set (w3 := set_scenes _ _ w2) in HW.
  assert (I3 : I_job jobId w3) by (exists j2; exact Hj2).
  unfold afterStage2, stage3 in HW. unfold bind at 1 in HW.
  destruct (ttsLoop_run env jobId (ttsTargetScenes (x :: ss)) [] (p2, w3))
    as (urls & st3 & Hloop & Hsp3 & _ & Hsub).
  pose proof (ttsLoop_inv env jobId _ (I_job_closed jobId) (I_job_asset jobId)
                          (ttsTargetScenes (x :: ss)) [] (p2, w3) I3) as I4.
  rewrite Hloop in I4, HW. simpl in I4.
  unfold bind at 1 in HW.
  destruct (imagePrompts_run env jobId (x :: ss) st3) as (st4 & Hip & Hsp4 & _).
  pose proof (imagePrompts_inv env jobId _ (I_job_closed jobId) (x :: ss) st3 I4) as I5.
  rewrite Hip in I5, HW. simpl in I5. destruct I5 as [j5 Hj5].
  assert (Hex5 : Db.job_exists jobId (snd st4) = true).
  { unfold Db.job_exists. unfold Db.select_job in Hj5. apply single_inv in Hj5.
    apply existsb_exists. exists j5. apply filter_In. rewrite Hj5. left. reflexivity. }
  unfold bind at 1 in HW. unfold jsonMarker, checked, Db.insert_asset in HW.
  rewrite Hex5 in HW. simpl in HW.
  unfold markSucceeded, bind, get_packager, stmt in HW. simpl in HW.
  subst w'. eexists. exists urls. split.
  - apply select_job_update; [intros j0; reflexivity|].
    transitivity (Db.select_job jobId (snd st4)); [apply select_job_ext; reflexivity|].
    exact Hj5.
  - simpl. repeat split; [exact Hsub|].
    rewrite Hsp4, Hsp3. simpl. rewrite Hsp2, Hsp1. reflexivity.
Qed.

(** X7.  A run never leaves its job Queued or Running.  For a job that has a
    row, the run ends with the job Succeeded, holding a final package and
    no error, or Failed, holding the message of the error. *)
Theorem pipeline_ends_in_a_terminal_status env jobId w job :
  Db.select_job jobId w = Ok job →
  ∃ job', Db.select_job jobId (runPipeline env jobId w) = Ok job'
          ∧ ((Job.status job' = SUCCEEDED ∧ Job.error job' = None
              ∧ ∃ fp, Job.final_package job' = Some fp)
             ∨ (Job.status job' = FAILED ∧ ∃ msg, Job.error job' = Some msg)).
Proof. apply runPipeline_terminal. Qed.

(** X8.  A failure of the text model fails the job before any row is inserted.
    When stage 1 throws, or when stage 2 throws with and without web
    search, the job ends Failed with the message of the last error; only
    the requests up to that point were sent to the text model, nothing
    was asked of the speech model, and the scene and asset rows are as
    they were. *)
Theorem text_model_failure_fails_the_job env jobId job w msg :
  Db.select_job jobId w = Ok job →
  (autoconfig_answer env = Throw msg
   ∨ ∃ a, autoconfig_answer env = Ok a ∧ packager_output env = Throw msg) →
  let w' := runPipeline env jobId w in
  (∃ job', Db.select_job jobId w' = Ok job'
           ∧ Job.status job' = FAILED ∧ Job.error job' = Some msg)
  ∧ text_requests w'
    = (text_requests w
       ++ AutoconfigRequest
          :: match autoconfig_answer env with
             | Ok _ => [PackagerRequest true; PackagerRequest false]
             | Throw _ => []
             end)%list
  ∧ speech_requests w' = speech_requests w
  ∧ scenes w' = scenes w
  ∧ assets w' = assets w.
Proof.
  intros Hjob Hfail w'.
  assert (HW : w' = runPipeline env jobId w) by reflexivity. clearbody w'.
  rewrite runPipeline_stages in HW. unfold beforeStage2 in HW.
  set (s0 := (mkPackager None None None None None [], Db.update_jobs jobId running w)) in HW.
  assert (H0 : I_rows jobId (scenes w) (assets w) (next_id w) (snd s0)).
  { repeat split. exists (running job).
    apply select_job_update; [intros j0; reflexivity | exact Hjob]. }
  pose proof (stage1_inv env jobId _ (I_rows_closed jobId _ _ _) (I_rows_text jobId _ _ _)
                         s0 H0) as H1.
  pose proof (stage1_speech env jobId s0) as Hsp1.
  destruct (stage1_run env jobId s0) as [Hr1 Ht1].
  destruct (stage1 env jobId s0) as [r1 [p1 w1]]. simpl in Hr1, Ht1, H1, Hsp1. subst r1.
  destruct Hfail as [Ha|(a & Ha & Hp)]; rewrite Ha in HW |- *.
  - destruct H1 as (Hs & Has & _ & j1 & Hj1). subst w'.
    split; [|simpl; rewrite Ht1; auto].
    exists (failed msg j1). split; [|split; reflexivity].
    apply select_job_update; [intros j0; reflexivity | exact Hj1].
  - pose proof (stage2_inv env jobId _ (I_rows_closed jobId _ _ _) (I_rows_text jobId _ _ _) a
                           (p1, w1) H1) as H2.
    pose proof (stage2_speech env jobId a (p1, w1)) as Hsp2.
    pose proof (stage2_run env jobId a (p1, w1)) as Hrun. rewrite Hp in Hrun.
    destruct Hrun as [He Ht2].
    assert (Hreq : packager_requests env = [PackagerRequest true; PackagerRequest false]).
    { unfold packager_requests. unfold packager_output in Hp.
      destruct (packager_answer env true); [discriminate | reflexivity]. }
    destruct (stage2 env jobId a (p1, w1)) as [r2 [p2 w2]]. simpl in He, Ht2, H2, Hsp2.
    subst r2. destruct H2 as (Hs & Has & _ & j2 & Hj2). subst w'.
    split.
    + exists (failed msg j2). split; [|split; reflexivity].
      apply select_job_update; [intros j0; reflexivity | exact Hj2].
    + simpl. rewrite Ht2, Ht1, Hreq, <- app_assoc. simpl.
      repeat split; [congruence | exact Hs | exact Has].
Qed.

(** X9.  The validated scene list is never longer than the target count, and
    the target count is between 1 and 12 whatever stage 1 answered (6
    when it gave no count, or 0): the list the scene rows are inserted
    from has the length of the model's list cut at the target count, at
    most twelve. *)
Theorem scene_count_is_bounded a p :
  1 <= targetCount a <= 12
  ∧ (ac_scene_count a = None ∨ ac_scene_count a = Some 0 → targetCount a = 6)
  ∧ length (normalizeScenes (targetCount a) p)
    = Nat.min (Z.to_nat (targetCount a)) (length (default [] (pk_scenes p)))
  ∧ (length (normalizeScenes (targetCount a) p) <= 12)%nat.
Proof.
  assert (Hb : 1 <= targetCount a <= 12) by (unfold targetCount; lia).
  assert (Hl : length (normalizeScenes (targetCount a) p)
               = Nat.min (Z.to_nat (targetCount a)) (length (default [] (pk_scenes p)))).
  { unfold normalizeScenes.
    rewrite (Permutation_length (sort_by_perm fst _)), length_imap, length_take. reflexivity. }
  split; [exact Hb|]. split; [|split; [exact Hl|rewrite Hl; lia]].
  intros [H|H]; unfold targetCount, num_or; rewrite H; reflexivity.
Qed.

Lemma scene_count_is_bounded_witness :
  targetCount (mkAutoConfig (Some 0) None) = 6.
Proof.
  destruct (scene_count_is_bounded (mkAutoConfig (Some 0) None) (output []))
    as (_ & H & _).
  apply H. right. reflexivity.
Defined.


Lemma speech_failures_do_not_fail_the_job_witness :
  let env := provider (Ok (output [raw (Some 1) "one"])) (Throw "unused") in
  ∃ job' urls,
    Db.select_job "job-1" (runPipeline env "job-1" queued_world) = Ok job'
    ∧ Job.status job' = SUCCEEDED
    ∧ Job.final_package job' = Some (mkFinalPackage [(1, raw (Some 1) "one")] urls)
    ∧ speech_requests (runPipeline env "job-1" queued_world) = ["one"].
Proof.
  assert (Hnd : NoDup (List.map Scene.scene_id
                         (List.filter (fun r => bool_decide (Scene.job_id r = "job-1"))
                                      (scenes queued_world))
                       ++ List.map fst (normalizeScenes 6 (output [raw (Some 1) "one"]))))
    by (apply (bool_decide_unpack _); vm_compute; exact I).
  assert (Hne : normalizeScenes 6 (output [raw (Some 1) "one"]) ≠ [])
    by (vm_compute; discriminate).
  destruct (speech_failures_do_not_fail_the_job
              (provider (Ok (output [raw (Some 1) "one"])) (Throw "unused")) "job-1"
              (mkAutoConfig (Some 6) None) (output [raw (Some 1) "one"])
              (Sample.job QUEUED) queued_world eq_refl eq_refl eq_refl Hne Hnd)
    as (job' & urls & Hsel & Hst & _ & Hfp & _ & Hsp).
  exists job', urls. split; [exact Hsel|]. split; [exact Hst|].
  split; [exact Hfp | exact Hsp].
Defined.

Lemma pipeline_ends_in_a_terminal_status_witness :
  ∃ job', Db.select_job "job-1"
            (runPipeline (provider (Throw "no answer") (Throw "unused")) "job-1" queued_world)
          = Ok job'
          ∧ ((Job.status job' = SUCCEEDED ∧ Job.error job' = None
              ∧ ∃ fp, Job.final_package job' = Some fp)
             ∨ (Job.status job' = FAILED ∧ ∃ msg, Job.error job' = Some msg)).
Proof.
  apply (pipeline_ends_in_a_terminal_status (provider (Throw "no answer") (Throw "unused"))
           "job-1" queued_world (Sample.job QUEUED)).
  reflexivity.
Defined.

Lemma text_model_failure_fails_the_job_witness :
  let w' := runPipeline (provider (Throw "no answer") (Throw "unused")) "job-1"
                        queued_world in
  (∃ job', Db.select_job "job-1" w' = Ok job'
           ∧ Job.status job' = FAILED ∧ Job.error job' = Some "no answer")
  ∧ text_requests w' = [AutoconfigRequest; PackagerRequest true; PackagerRequest false].
Proof.
  destruct (text_model_failure_fails_the_job
              (provider (Throw "no answer") (Throw "unused")) "job-1" (Sample.job QUEUED)
              queued_world "no answer" eq_refl
              (or_intror (ex_intro _ (mkAutoConfig (Some 6) None) (conj eq_refl eq_refl))))
    as (Hjob & Ht & _).
  split; [exact Hjob | exact Ht].
Defined.

End StartTheorems.

(** ** The text model *)

Section Unique.
Import DeleteJob.

Lemma unique_elem xs : ∀ seen x, x ∈ unique xs seen ↔ x ∈ xs ∧ x ∉ seen.
Proof.
  induction xs as [|y xs IH]; intros seen x; simpl.
  - split; [intros H; inversion H | intros [H _]; inversion H].
  - destruct (bool_decide (y ∈ seen)) eqn:Hy.
    + apply bool_decide_eq_true in Hy. rewrite IH, elem_of_cons.
      split; [intros [H1 H2]; auto | intros [[->|H1] H2]; [contradiction | auto]].
    + apply bool_decide_eq_false in Hy. rewrite !elem_of_cons, IH, elem_of_cons.
      split.
      * intros [->|[H1 H2]]; [auto | split; [auto | intros H; apply H2; auto]].
      * intros [[->|H1] H2]; [auto|].
        destruct (decide (x = y)) as [->|Hne]; [auto | right].
        split; [exact H1 | intros [H|H]; [contradiction | contradiction]].
Qed.

Lemma unique_NoDup xs : ∀ seen, NoDup (unique xs seen).
Proof.
  induction xs as [|y xs IH]; intros seen; simpl; [constructor|].
  destruct (bool_decide (y ∈ seen)); [apply IH|].
  constructor; [|apply IH].
  rewrite unique_elem. intros [_ H]. apply H. left.
Qed.

Lemma unique_sublist xs : ∀ seen, sublist (unique xs seen) xs.
Proof.
  induction xs as [|y xs IH]; intros seen; simpl; [constructor|].
  destruct (bool_decide (y ∈ seen)); [apply sublist_cons, IH | apply sublist_skip, IH].
Qed.

Lemma unique_head y xs : unique (y :: xs) [] = y :: unique xs [y].
Proof.
  cbn [unique]. rewrite bool_decide_eq_false_2 by apply not_elem_of_nil. reflexivity.
Qed.
End Unique.

Module TextModelFacts.
Import TextModels.

(** The candidates before the duplicates are removed. *)
Definition named (env : Env) (preferred : option string) : list string :=
  List.filter truthy
    ["gpt-5.2"; trim (str preferred); trim (str (OPENAI_TEXT_MODEL env));
     "gpt-4o-mini"; "gpt-4o"].

Lemma named_elem env preferred m :
  m ∈ named env preferred
  ↔ truthy m = true
    ∧ (m = "gpt-5.2" ∨ m = trim (str preferred) ∨ m = trim (str (OPENAI_TEXT_MODEL env))
       ∨ m = "gpt-4o-mini" ∨ m = "gpt-4o").
Proof.
  unfold named. rewrite list_elem_of_In, filter_In. simpl.
  split.
  - intros [H1 H2]. split; [exact H2|]. intuition congruence.
  - intros [H1 H2]. split; [|exact H1]. intuition congruence.
Qed.

(** A model the loop leaves for the next one: its refusal is an access
    error, or its answer holds no text. *)
Definition skipped (env : Env) (model : string) : bool :=
  match fetch env model with
  | Refused status text =>
      ((status =? 403) || (status =? 404)) && isModelAccessError env text
  | Answered (Ok b) => negb (bool_decide (is_Some (textOf b)))
  | Answered (Throw _) => false
  end.

(** What the function returns when it stops at a model. *)
Definition settled (env : Env) (model : string) : result string :=
  match fetch env model with
  | Refused status text =>
      Throw ("OpenAI responses error (" +:+ Paths.dec status +:+ "): " +:+ text)
  | Answered (Throw m) => Throw m
  | Answered (Ok b) =>
      match textOf b with
      | Some t => Ok t
      | None => Throw "OpenAI responses returned empty output_text"
      end
  end.

Lemma tryModels_stop env model rest lastErr :
  skipped env model = false →
  tryModels env (model :: rest) lastErr = (settled env model, [model]).
Proof.
  unfold skipped, settled. simpl.
  destruct (fetch env model) as [status text|[b|e]].
  - intros ->. reflexivity.
  - destruct (textOf b); [reflexivity|].
    rewrite bool_decide_eq_false_2; [discriminate | intros [t Ht]; discriminate].
  - reflexivity.
Qed.

Lemma tryModels_skip env model rest lastErr :
  skipped env model = true →
  ∃ lastErr',
    tryModels env (model :: rest) lastErr
    = (fst (tryModels env rest lastErr'), model :: snd (tryModels env rest lastErr')).
Proof.
  unfold skipped. simpl.
  destruct (fetch env model) as [status text|[b|e]].
  - intros ->.
    exists (Some ("OpenAI responses error (" +:+ Paths.dec status +:+ "): " +:+ text)).
    destruct (tryModels env rest _); reflexivity.
  - destruct (textOf b) as [t|].
    + rewrite bool_decide_eq_true_2; [discriminate | eexists; reflexivity].
    + intros _. exists lastErr. destruct (tryModels env rest _); reflexivity.
  - discriminate.
Qed.

Lemma tryModels_spec env models : ∀ lastErr,
  ∃ pre,
    Forall (fun m => skipped env m = true) pre
    ∧ ((models = pre ∧ snd (tryModels env models lastErr) = pre
        ∧ ∃ e, fst (tryModels env models lastErr) = Throw e)
       ∨ ∃ m rest,
           models = (pre ++ m :: rest)%list
           ∧ snd (tryModels env models lastErr) = (pre ++ [m])%list
           ∧ skipped env m = false
           ∧ fst (tryModels env models lastErr) = settled env m).
Proof.
  induction models as [|model rest IH]; intros lastErr.
  - exists []. split; [constructor|]. left. repeat split. eexists. reflexivity.
  - destruct (skipped env model) eqn:Hs.
    + destruct (tryModels_skip env model rest lastErr Hs) as [lastErr' Heq].
      destruct (IH lastErr') as (pre & Hpre & Hcase).
      exists (model :: pre). split; [constructor; assumption|]. rewrite Heq. simpl.
      destruct Hcase as [(-> & Hsnd & e & Hfst)|(m & rest0 & -> & Hsnd & Hm & Hfst)].
      * left. rewrite Hsnd. repeat split. exists e. exact Hfst.
      * right. exists m, rest0. rewrite Hsnd. repeat split; assumption.
    + exists []. split; [constructor|]. right. exists model, rest.
      rewrite (tryModels_stop env model rest lastErr Hs). repeat split. exact Hs.
Qed.

Lemma candidates_sublist env preferred :
  sublist (getTextModelCandidates env preferred)
          ["gpt-5.2"; trim (str preferred); trim (str (OPENAI_TEXT_MODEL env));
           "gpt-4o-mini"; "gpt-4o"].
Proof.
  unfold getTextModelCandidates. fold (named env preferred).
  etransitivity; [apply unique_sublist|]. unfold named. apply filter_sublist.
Qed.

Lemma candidates_NoDup env preferred : NoDup (getTextModelCandidates env preferred).
Proof. apply unique_NoDup. Qed.

Lemma candidates_head env preferred :
  head (getTextModelCandidates env preferred) = Some "gpt-5.2".
Proof.
  unfold getTextModelCandidates.
  set (tail := [trim (str preferred); trim (str (OPENAI_TEXT_MODEL env));
                "gpt-4o-mini"; "gpt-4o"]).
  change (head (DeleteJob.unique ("gpt-5.2" :: List.filter truthy tail) [])
          = Some "gpt-5.2").
  rewrite unique_head. reflexivity.
Qed.

End TextModelFacts.

Module TextModelTheorems.
Import TextModels TextModelFacts.

(** X10.  The candidate models: "gpt-5.2" first, then the preferred model and
    the one of the environment when they are not blank, then the two
    defaults; no model twice, so between three and five of them. *)
Theorem text_model_candidates env preferred :
  let ms := getTextModelCandidates env preferred in
  head ms = Some "gpt-5.2"
  ∧ NoDup ms
  ∧ (3 <= length ms <= 5)%nat
  ∧ sublist ms ["gpt-5.2"; trim (str preferred); trim (str (OPENAI_TEXT_MODEL env));
                "gpt-4o-mini"; "gpt-4o"]
  ∧ ∀ m, m ∈ ms
         ↔ truthy m = true
           ∧ (m = "gpt-5.2" ∨ m = trim (str preferred)
              ∨ m = trim (str (OPENAI_TEXT_MODEL env))
              ∨ m = "gpt-4o-mini" ∨ m = "gpt-4o").
Proof.
  intros ms. subst ms.
  pose proof (candidates_sublist env preferred) as Hsub.
  pose proof (candidates_NoDup env preferred) as Hnd.
  pose proof (candidates_head env preferred) as Hhd.
  unfold getTextModelCandidates in *. fold (named env preferred) in *.
  assert (Helem : ∀ m, m ∈ DeleteJob.unique (named env preferred) []
                       ↔ truthy m = true
                         ∧ (m = "gpt-5.2" ∨ m = trim (str preferred)
                            ∨ m = trim (str (OPENAI_TEXT_MODEL env))
                            ∨ m = "gpt-4o-mini" ∨ m = "gpt-4o")).
  { intros m. rewrite unique_elem, named_elem.
    split; [intros [H _]; exact H | intros H; split; [exact H | apply not_elem_of_nil]]. }
  split; [exact Hhd|split; [exact Hnd | split; [|split; [exact Hsub | exact Helem]]]].
  - split; [|apply sublist_length in Hsub; exact Hsub].
    assert (Hthree : ["gpt-5.2"; "gpt-4o-mini"; "gpt-4o"]
                     ⊆ DeleteJob.unique (named env preferred) []).
    { intros m Hm. apply Helem.
      apply elem_of_cons in Hm as [->|Hm]; [split; [reflexivity | auto]|].
      apply elem_of_cons in Hm as [->|Hm]; [split; [reflexivity | auto 6]|].
      apply elem_of_cons in Hm as [->|Hm]; [split; [reflexivity | auto 6]|].
      inversion Hm. }
    change 3%nat with (length ["gpt-5.2"; "gpt-4o-mini"; "gpt-4o"]).
    apply submseteq_length.
    apply NoDup_submseteq; [|exact Hthree].
    apply (bool_decide_unpack _). vm_compute. exact I.
Qed.

(** X11.  [openaiResponsesText] asks the candidates in order and at most once
    each.  It leaves a model for the next one when the refusal is a 403
    or 404 that names an access error, and also when the answer holds no
    text; it stops at the first other model, with the text of its answer
    or with its error; when no model is left it throws. *)
Theorem text_model_fallback env preferred :
  let out := openaiResponsesText env preferred in
  let ms := getTextModelCandidates env preferred in
  NoDup (snd out)
  ∧ (1 <= length (snd out) <= 5)%nat
  ∧ ∃ pre,
      Forall (fun m => skipped env m = true) pre
      ∧ ((ms = pre ∧ snd out = pre ∧ ∃ e, fst out = Throw e)
         ∨ ∃ m rest,
             ms = (pre ++ m :: rest)%list
             ∧ snd out = (pre ++ [m])%list
             ∧ skipped env m = false
             ∧ fst out = settled env m).
Proof.
  intros out ms. subst out ms. unfold openaiResponsesText.
  pose proof (candidates_head env preferred) as Hhd.
  pose proof (candidates_NoDup env preferred) as Hnd.
  pose proof (sublist_length _ _ (candidates_sublist env preferred)) as Hlen.
  cbn [length] in Hlen.
  destruct (tryModels_spec env (getTextModelCandidates env preferred) None)
    as (pre & Hpre & Hcase).
  assert (Hasked : ∃ rest, getTextModelCandidates env preferred
                           = (snd (tryModels env (getTextModelCandidates env preferred) None)
                              ++ rest)%list
                           ∧ snd (tryModels env (getTextModelCandidates env preferred) None)
                             ≠ []).
  { destruct Hcase as [(Hms & Hsnd & _)|(m & rest & Hms & Hsnd & _)].
    - exists []. rewrite Hsnd, app_nil_r. split; [exact Hms|].
      rewrite <- Hms. intros H. rewrite H in Hhd. discriminate.
    - exists rest. rewrite Hsnd, <- app_assoc. split; [exact Hms|].
      intros H. apply app_eq_nil in H as [_ H]. discriminate. }
  destruct Hasked as (rest & Hms & Hne).
  split; [|split].
  - rewrite Hms in Hnd. apply NoDup_app in Hnd. apply Hnd.
  - split.
    + destruct (snd (tryModels env _ None)); [contradiction | simpl; lia].
    + rewrite Hms, length_app in Hlen. lia.
  - exists pre. split; [exact Hpre | exact Hcase].
Qed.

End TextModelTheorems.

(** ** The retries of the calls to the provider *)

Module ProviderFacts.

(** The attempts a call made, in order. *)
Definition requests (tr : list Event) : list nat :=
  omap (fun e => match e with Requested _ k => Some k | _ => None end) tr.

(** An attempt that gave no result: the request was rejected, or answered
    with a status that is not a success. *)
Definition failed (f : Fetched) : bool :=
  match f with
  | Answer status _ => negb (http_ok status)
  | Rejected _ _ => true
  end.

Lemma requests_requested s k tr : requests (Requested s k :: tr) = k :: requests tr.
Proof. reflexivity. Qed.

Lemma requests_slept ms tr : requests (Slept ms :: tr) = requests tr.
Proof. reflexivity. Qed.

Lemma requests_none tr :
  (∀ e, e ∈ tr → match e with Requested _ _ => False | _ => True end) → requests tr = [].
Proof.
  induction tr as [|e tr IH]; intros H; [reflexivity|].
  pose proof (H e ltac:(left)) as He.
  destruct e; [contradiction| |]; apply IH; intros x Hx; apply H; right; exact Hx.
Qed.

Lemma clamp_env_bounds v d lo hi : lo <= hi → lo <= clamp_env v d lo hi <= hi.
Proof. unfold clamp_env. lia. Qed.

End ProviderFacts.

Module SpeechFacts.
Import Speech ProviderFacts.

Lemma maxAttempts_bounds env : 1 <= maxAttempts env <= 5.
Proof. apply clamp_env_bounds. lia. Qed.

Section Attempts.
Variable env : Env.
Let n := Z.to_nat (maxAttempts env).

Lemma more_attempts attempt left' :
  (attempt + S left' = n + 1)%nat →
  (Z.of_nat attempt <? maxAttempts env) = negb (Nat.eqb left' 0).
Proof.
  intros H. pose proof (maxAttempts_bounds env) as Hb. subst n.
  destruct (Nat.eqb_spec left' 0) as [->|Hne]; simpl.
  - apply Z.ltb_ge. lia.
  - apply Z.ltb_lt. lia.
Qed.

(** When every remaining attempt fails, all of them are made and the
    call throws. *)
Lemma attempts_all_fail left : ∀ attempt lastErr,
  (attempt + left = n + 1)%nat →
  (∀ j, (attempt <= j < attempt + left)%nat → failed (fetch env j) = true) →
  (∃ e, fst (attempts env left attempt lastErr) = Throw e)
  ∧ requests (snd (attempts env left attempt lastErr)) = seq attempt left.
Proof.
  induction left as [|left' IH]; intros attempt lastErr Hn Hfail.
  - simpl. split; [eexists; reflexivity | reflexivity].
  - assert (Hnext : ∀ e ms,
              (∃ e', fst (let '(r, tr) := attempts env left' (S attempt) (Some e) in
                          (r, Requested "speech" attempt :: Slept ms :: tr)) = Throw e')
              ∧ requests (snd (let '(r, tr) := attempts env left' (S attempt) (Some e) in
                               (r, Requested "speech" attempt :: Slept ms :: tr)))
                = seq attempt (S left')).
    { intros e ms.
      destruct (IH (S attempt) (Some e)) as [Hthrow Hreq]; [lia | intros j Hj; apply Hfail; lia|].
      destruct (attempts env left' (S attempt) (Some e)) as [r tr]. simpl in *.
      split; [exact Hthrow | unfold requests in *; simpl; f_equal; exact Hreq]. }
    assert (Hcaught : ∀ msg,
              let lastErr' := "OpenAI TTS request failed (attempt "
                              +:+ Paths.dec (Z.of_nat attempt) +:+ "): " +:+ msg in
              let out := if Z.of_nat attempt <? maxAttempts env
                         then let '(r, tr) := attempts env left' (S attempt) (Some lastErr') in
                              (r, Requested "speech" attempt
                                  :: Slept (600 * Z.of_nat attempt) :: tr)
                         else (Throw lastErr', [Requested "speech" attempt]) in
              (∃ e', fst out = Throw e') ∧ requests (snd out) = seq attempt (S left')).
    { intros msg lastErr' out. subst out. rewrite (more_attempts _ _ Hn).
      destruct (Nat.eqb_spec left' 0) as [->|Hne]; simpl.
      - split; [eexists; reflexivity | reflexivity].
      - apply Hnext. }
    specialize (Hfail attempt ltac:(lia)). cbn [attempts].
    destruct (fetch env attempt) as [status body|abort message].
    + simpl in Hfail. apply negb_true_iff in Hfail. rewrite Hfail.
      destruct (status =? 400); [apply Hcaught|].
      destruct ((status =? 429) || (500 <=? status)); [apply Hnext | apply Hcaught].
    + apply Hcaught.
Qed.

(** The first attempt that succeeds ends the call with its body. *)
Lemma attempts_first_ok left : ∀ attempt lastErr k status body,
  (attempt + left = n + 1)%nat →
  (attempt <= k < attempt + left)%nat →
  fetch env k = Answer status body → http_ok status = true →
  (∀ j, (attempt <= j < k)%nat → failed (fetch env j) = true) →
  fst (attempts env left attempt lastErr) = Ok body
  ∧ requests (snd (attempts env left attempt lastErr)) = seq attempt (S k - attempt).
Proof.
  induction left as [|left' IH]; intros attempt lastErr k status body Hn Hk Hfetch Hok Hfail;
    [lia|].
  destruct (Nat.eq_dec attempt k) as [->|Hne].
  - cbn [attempts]. rewrite Hfetch, Hok. simpl.
    replace (S k - k)%nat with 1%nat by lia. split; reflexivity.
  - assert (Hnext : ∀ e ms,
              fst (let '(r, tr) := attempts env left' (S attempt) (Some e) in
                   (r, Requested "speech" attempt :: Slept ms :: tr)) = Ok body
              ∧ requests (snd (let '(r, tr) := attempts env left' (S attempt) (Some e) in
                               (r, Requested "speech" attempt :: Slept ms :: tr)))
                = seq attempt (S k - attempt)).
    { intros e ms.
      destruct (IH (S attempt) (Some e) k status body) as [Hres Hreq];
        [lia | lia | exact Hfetch | exact Hok | intros j Hj; apply Hfail; lia|].
      destruct (attempts env left' (S attempt) (Some e)) as [r tr]. simpl in *.
      split; [exact Hres|].
      replace (S k - attempt)%nat with (S (S k - S attempt)) by lia.
      unfold requests in *. simpl. f_equal. exact Hreq. }
    assert (Hmore : (Z.of_nat attempt <? maxAttempts env) = true).
    { rewrite (more_attempts _ _ Hn). destruct left'; [lia | reflexivity]. }
    specialize (Hfail attempt ltac:(lia)). cbn [attempts].
    destruct (fetch env attempt) as [status' body'|abort message].
    + simpl in Hfail. apply negb_true_iff in Hfail. rewrite Hfail, Hmore.
      destruct (status' =? 400); [apply Hnext|].
      destruct ((status' =? 429) || (500 <=? status')); apply Hnext.
    + rewrite Hmore. apply Hnext.
Qed.
End Attempts.

End SpeechFacts.

Module SpeechTheorems.
Import Speech ProviderFacts SpeechFacts.

(** X12.  [openaiTtsMp3] makes between one and five attempts (two unless
    configured).  It returns the body of the first attempt that succeeds,
    after exactly that many requests; every attempt that fails is
    followed by another one while attempts are left, a refusal with
    status 400 included; and when all attempts fail it throws after
    exactly [maxAttempts] requests. *)
Theorem speech_is_retried_up_to_the_limit env :
  let n := Z.to_nat (maxAttempts env) in
  let out := openaiTtsMp3 env in
  (1 <= n <= 5)%nat
  ∧ (OPENAI_TTS_MAX_ATTEMPTS env = None → n = 2%nat)
  ∧ (∀ k status body,
       (1 <= k <= n)%nat →
       fetch env k = Answer status body → http_ok status = true →
       (∀ j, (1 <= j < k)%nat → failed (fetch env j) = true) →
       fst out = Ok body ∧ requests (snd out) = seq 1 k)
  ∧ ((∀ j, (1 <= j <= n)%nat → failed (fetch env j) = true) →
     (∃ e, fst out = Throw e) ∧ requests (snd out) = seq 1 n).
Proof.
  intros n out. subst n out. pose proof (maxAttempts_bounds env) as Hb.
  split; [lia|]. split; [|split].
  - intros H. unfold maxAttempts, clamp_env, num_or. rewrite H. reflexivity.
  - intros k status body Hk Hfetch Hok Hfail. unfold openaiTtsMp3.
    destruct (attempts_first_ok env (Z.to_nat (maxAttempts env)) 1 None k status body)
      as [Hres Hreq]; [lia | lia | exact Hfetch | exact Hok | intros j Hj; apply Hfail; lia|].
    split; [exact Hres|]. rewrite Hreq. f_equal. lia.
  - intros Hfail. unfold openaiTtsMp3.
    apply attempts_all_fail; [lia | intros j Hj; apply Hfail; lia].
Qed.

Definition always_bad_request : Env :=
  mkEnv None (Some 3) (fun _ => Answer 400 "bad request").

Lemma speech_is_retried_up_to_the_limit_witness :
  (∃ e, fst (openaiTtsMp3 always_bad_request) = Throw e)
  ∧ requests (snd (openaiTtsMp3 always_bad_request)) = [1; 2; 3]%nat.
Proof.
  destruct (speech_is_retried_up_to_the_limit always_bad_request) as (_ & _ & _ & H).
  apply H. intros j _. reflexivity.
Defined.

End SpeechTheorems.

Module ImageProviderFacts.
Import ImageProvider ProviderFacts.

Lemma maxAttemptsPerSize_bounds env : 1 <= maxAttemptsPerSize env <= 5.
Proof. apply clamp_env_bounds. lia. Qed.

(** An attempt after which the same size is tried again: the request was
    rejected, the status is 429 or at least 500, or the answer holds
    neither an image nor a link. *)
Definition retryable (env : Env) (size : string) (k : nat) : bool :=
  match fetch env size k with
  | Rejected _ _ => true
  | Answer status text =>
      if negb (http_ok status) then
        negb (status =? 400) && ((status =? 429) || (500 <=? status))
      else
        match parse env text with
        | Ok first => negb (truthy_opt (b64_json first)) && negb (truthy_opt (url first))
        | Throw _ => false
        end
  end.

(** The requests of a trace are for [size], with attempts in a range. *)
Definition ranged (size : string) (lo hi : nat) (tr : list Event) : Prop :=
  Forall (fun e => match e with
                   | Requested s k => s = size ∧ (lo <= k < hi)%nat
                   | _ => True
                   end) tr.

Lemma ranged_weaken size lo lo' hi tr :
  (lo' <= lo)%nat → ranged size lo hi tr → ranged size lo' hi tr.
Proof.
  intros Hlo H. unfold ranged in *. eapply Forall_impl; [exact H|].
  intros [s k| |]; [|auto..].
  intros [-> Hk]. split; [reflexivity | lia].
Qed.

Lemma perSize_trace env size left : ∀ attempt lastErr,
  let tr := snd (perSize env size left attempt lastErr) in
  ranged size attempt (attempt + left) tr
  ∧ (length (requests tr) <= left)%nat
  ∧ ∀ k, (attempt <= k)%nat → Requested size (S k) ∈ tr → retryable env size k = true.
Proof.
  induction left as [|left' IH]; intros attempt lastErr; simpl.
  - split; [constructor|]. split; [lia|]. intros k _ H. inversion H.
  - assert (Hone : ∀ tail,
              (∀ e, e ∈ tail → match e with Requested _ _ => False | _ => True end) →
              ranged size attempt (attempt + S left') (Requested size attempt :: tail)
              ∧ (length (requests (Requested size attempt :: tail)) <= S left')%nat
              ∧ ∀ k, (attempt <= k)%nat → Requested size (S k) ∈ Requested size attempt :: tail →
                     retryable env size k = true).
    { intros tail Htail. split; [|split].
      - constructor; [split; [reflexivity | lia]|].
        apply Forall_forall. intros e He. specialize (Htail e He).
        destruct e; [contradiction | exact I | exact I].
      - rewrite requests_requested, (requests_none _ Htail). simpl. lia.
      - intros k Hk Hin. apply elem_of_cons in Hin as [Heq|Hin]; [injection Heq; lia|].
        destruct (Htail _ Hin). }
    assert (Hnext : retryable env size attempt = true → ∀ e ms,
              let tr := snd (let '(c, tr) := perSize env size left' (S attempt) (Some e) in
                             (c, Requested size attempt :: Slept ms :: tr)) in
              ranged size attempt (attempt + S left') tr
              ∧ (length (requests tr) <= S left')%nat
              ∧ ∀ k, (attempt <= k)%nat → Requested size (S k) ∈ tr →
                     retryable env size k = true).
    { intros Hretry e ms. destruct (IH (S attempt) (Some e)) as (Hr & Hl & Hk).
      destruct (perSize env size left' (S attempt) (Some e)) as [c tr].
      cbv beta iota zeta in *. cbn [snd fst] in *.
      split; [|split].
      - constructor; [split; [reflexivity | lia]|]. constructor; [exact I|].
        eapply ranged_weaken; [|replace (attempt + S left')%nat with (S attempt + left')%nat by lia;
                                exact Hr]. lia.
      - rewrite requests_requested, requests_slept. simpl. lia.
      - intros k Hle Hin. apply elem_of_cons in Hin as [Heq|Hin]; [injection Heq; lia|].
        apply elem_of_cons in Hin as [Heq|Hin]; [discriminate|].
        destruct (Nat.eq_dec k attempt) as [->|Hne]; [exact Hretry|].
        apply Hk; [lia | exact Hin]. }
    unfold retryable in Hnext.
    destruct (fetch env size attempt) as [status text|abort message].
    + destruct (negb (http_ok status)) eqn:Hok.
      * destruct (status =? 400) eqn:H400.
        { apply Hone. intros e He. inversion He. }
        simpl in Hnext.
        destruct ((status =? 429) || (500 <=? status)) eqn:Hre.
        { apply Hnext. reflexivity. }
        apply Hone. intros e He. inversion He.
      * destruct (parse env text) as [first|m].
        { destruct (truthy_opt (b64_json first)) eqn:Hb.
          - apply Hone. intros e He. inversion He.
          - destruct (truthy_opt (url first)) eqn:Hu.
            + apply Hone. intros e He. apply list_elem_of_singleton in He. subst e. exact I.
            + apply Hnext. reflexivity. }
        apply Hone. intros e He. inversion He.
    + apply Hnext. reflexivity.
Qed.

Lemma requests_app tr tr' : requests (tr ++ tr') = (requests tr ++ requests tr')%list.
Proof. unfold requests. apply omap_app. Qed.

Lemma bySize_trace env todo : ∀ lastErr,
  let tr := snd (bySize env todo lastErr) in
  (∀ size k, Requested size k ∈ tr →
             size ∈ todo ∧ (1 <= k <= Z.to_nat (maxAttemptsPerSize env))%nat)
  ∧ (∀ size k, (1 <= k)%nat → Requested size (S k) ∈ tr → retryable env size k = true)
  ∧ (length (requests tr) <= length todo * Z.to_nat (maxAttemptsPerSize env))%nat.
Proof.
  induction todo as [|size rest IH]; intros lastErr; simpl.
  - split; [intros s k H; inversion H|]. split; [intros s k _ H; inversion H | lia].
  - destruct (perSize_trace env size (Z.to_nat (maxAttemptsPerSize env)) 1 lastErr)
      as (Hr & Hl & Hk).
    assert (Hhere : ∀ s k, Requested s k ∈ snd (perSize env size
                                (Z.to_nat (maxAttemptsPerSize env)) 1 lastErr) →
              s = size ∧ (1 <= k <= Z.to_nat (maxAttemptsPerSize env))%nat).
    { intros s k Hin. unfold ranged in Hr. rewrite Forall_forall in Hr.
      specialize (Hr _ Hin). simpl in Hr. destruct Hr as [-> Hk']. split; [reflexivity | lia]. }
    destruct (perSize env size (Z.to_nat (maxAttemptsPerSize env)) 1 lastErr) as [[r|e] tr];
      simpl in *.
    + split; [|split].
      * intros s k Hin. destruct (Hhere s k Hin) as [-> Hk']. split; [left | exact Hk'].
      * intros s k Hk1 Hin. destruct (Hhere s _ Hin) as [-> _]. apply Hk; [lia | exact Hin].
      * lia.
    + destruct (IH e) as (Hr' & Hk' & Hl').
      destruct (bySize env rest e) as [r tr']. simpl in *.
      split; [|split].
      * intros s k Hin. apply elem_of_app in Hin as [Hin|Hin].
        { destruct (Hhere s k Hin) as [-> Hkk]. split; [left | exact Hkk]. }
        destruct (Hr' s k Hin) as [Hs Hkk]. split; [right; exact Hs | exact Hkk].
      * intros s k Hk1 Hin. apply elem_of_app in Hin as [Hin|Hin].
        { destruct (Hhere s _ Hin) as [-> _]. apply Hk; [lia | exact Hin]. }
        apply Hk'; assumption.
      * rewrite requests_app, length_app. lia.
Qed.

End ImageProviderFacts.

Module ImageProviderTheorems.
Import ImageProvider ProviderFacts ImageProviderFacts.

(** X13.  [openaiImagePng] tries two or three sizes, none twice, with at
    most [maxAttemptsPerSize] attempts each, so it sends at most fifteen
    requests.  A size is tried again only
    after a request that was rejected, answered 429 or 5xx, or answered
    without an image; after a 400 it is given up. *)
Theorem image_requests_are_bounded env :
  let tr := snd (openaiImagePng env) in
  NoDup (sizes env)
  ∧ (2 <= length (sizes env) <= 3)%nat
  ∧ (∀ size k, Requested size k ∈ tr →
               size ∈ sizes env ∧ (1 <= k <= Z.to_nat (maxAttemptsPerSize env))%nat)
  ∧ (∀ size k, (1 <= k)%nat → Requested size (S k) ∈ tr → retryable env size k = true)
  ∧ (∀ size k text, (1 <= k)%nat → fetch env size k = Answer 400 text →
                    Requested size (S k) ∉ tr)
  ∧ (length (requests tr) <= 15)%nat.
Proof.
  intros tr. subst tr. unfold openaiImagePng.
  destruct (bySize_trace env (sizes env) None) as (Hin & Hre & Hlen).
  pose proof (maxAttemptsPerSize_bounds env) as Hb.
  assert (Hsub : sublist (sizes env)
                   [trim (str (OPENAI_IMAGE_SIZE env)); "1792x1024"; "1024x1024"]).
  { unfold sizes. etransitivity; [apply unique_sublist | apply filter_sublist]. }
  assert (Htwo : ["1792x1024"; "1024x1024"] ⊆ sizes env).
  { intros s Hs. unfold sizes. apply unique_elem. split; [|apply not_elem_of_nil].
    apply list_elem_of_In, filter_In. simpl.
    apply elem_of_cons in Hs as [->|Hs]; [auto|].
    apply list_elem_of_singleton in Hs as ->. auto. }
  split; [apply unique_NoDup|]. split; [|split; [exact Hin | split; [exact Hre | split]]].
  - split; [|apply sublist_length in Hsub; exact Hsub].
    change 2%nat with (length ["1792x1024"; "1024x1024"]).
    apply submseteq_length, NoDup_submseteq; [|exact Htwo].
    apply (bool_decide_unpack _). vm_compute. exact I.
  - intros size k text Hk H400 Hreq.
    apply Hre in Hreq; [|exact Hk]. unfold retryable in Hreq. rewrite H400 in Hreq.
    discriminate.
  - apply sublist_length in Hsub. simpl in Hsub.
    assert (length (sizes env) * Z.to_nat (maxAttemptsPerSize env) <= 3 * 5)%nat
      by (apply Nat.mul_le_mono; lia).
    lia.
Qed.

Definition always_refused : Env :=
  mkEnv None None None (fun _ _ => Answer 400 "bad request")
        (fun _ => Throw "unused") (fun _ => Throw "unused")
        (fun _ => Rejected false "unused").

Lemma image_requests_are_bounded_witness :
  Requested "1792x1024" 2 ∉ snd (openaiImagePng always_refused).
Proof.
  destruct (image_requests_are_bounded always_refused) as (_ & _ & _ & _ & H & _).
  apply (H "1792x1024" 1%nat "bad request"); [lia | reflexivity].
Defined.


End ImageProviderTheorems.

(** ** The paths of the stored objects *)

Module PathFacts.
Import Paths.

Definition chars (s : string) : list ascii := list_ascii_of_string s.

Lemma safe_dash : safe_char "-"%char = true.
Proof. reflexivity. Qed.

Lemma replace_runs_safe s : ∀ in_run, Forall (fun a => safe_char a = true)
                                             (chars (replace_runs in_run s)).
Proof.
  induction s as [|a s IH]; intros in_run; simpl; [constructor|].
  destruct (safe_char a) eqn:Ha; simpl.
  - constructor; [exact Ha | apply IH].
  - destruct in_run; [apply IH|]. simpl. constructor; [apply safe_dash | apply IH].
Qed.

Lemma replace_runs_fix s : ∀ in_run,
  Forall (fun a => safe_char a = true) (chars s) → replace_runs in_run s = s.
Proof.
  induction s as [|a s IH]; intros in_run H; simpl; [reflexivity|].
  inversion H as [|? ? Ha Hs]; subst. rewrite Ha. f_equal. apply IH, Hs.
Qed.

Lemma replace_runs_length s : ∀ in_run,
  (String.length (replace_runs in_run s) <= String.length s)%nat.
Proof.
  induction s as [|a s IH]; intros in_run; simpl; [lia|].
  destruct (safe_char a); simpl; [specialize (IH false); lia|].
  destruct in_run; simpl; [specialize (IH true); lia | specialize (IH true); lia].
Qed.

Lemma substring_prefix n : ∀ s, ∃ rest, s = String.substring 0 n s +:+ rest.
Proof.
  induction n as [|n IH]; intros s.
  - exists s. destruct s; reflexivity.
  - destruct s as [|a s]; [exists ""; reflexivity|].
    destruct (IH s) as [rest Hr]. exists rest. simpl.
    change (String a s = String a (String.substring 0 n s +:+ rest)). f_equal. exact Hr.
Qed.

Lemma substring_length n : ∀ s, (String.length (String.substring 0 n s) <= n)%nat.
Proof.
  induction n as [|n IH]; intros s; destruct s as [|a s]; simpl; try lia.
  specialize (IH s). lia.
Qed.

Lemma chars_app a b : chars (a +:+ b) = (chars a ++ chars b)%list.
Proof.
  induction a as [|c a IH]; [reflexivity|].
  change (c :: chars (a +:+ b) = c :: (chars a ++ chars b)%list). f_equal. exact IH.
Qed.

Lemma chars_inj a b : chars a = chars b → a = b.
Proof.
  intros H. rewrite <- (string_of_list_ascii_of_string a), <- (string_of_list_ascii_of_string b).
  unfold chars in H. rewrite H. reflexivity.
Qed.

Lemma append_inv_head p a b : p +:+ a = p +:+ b → a = b.
Proof.
  induction p as [|c p IH]; [auto|].
  change (String c (p +:+ a) = String c (p +:+ b) → a = b).
  intros H. injection H as H. auto.
Qed.

Lemma append_inv_tail a b t : a +:+ t = b +:+ t → a = b.
Proof.
  intros H. apply chars_inj. apply (f_equal chars) in H.
  rewrite !chars_app in H. eapply app_inv_tail, H.
Qed.

(** Decimal numerals. *)
Lemma to_int_norm z : Decimal.norm (Z.to_int z) = Z.to_int z.
Proof. rewrite <- (DecimalZ.to_of (Z.to_int z)), DecimalZ.of_to. reflexivity. Qed.

Lemma dec_inj a b : dec a = dec b → a = b.
Proof.
  unfold dec. intros H. apply DecimalZ.to_int_inj.
  assert (Hn : ∀ z, Z.to_int z ≠ Decimal.Pos Decimal.Nil ∧ Z.to_int z ≠ Decimal.Neg Decimal.Nil).
  { intros [|p|p]; simpl; split; try discriminate;
      intros Heq; injection Heq as Heq; exact (DecimalPos.Unsigned.to_uint_nonnil p Heq). }
  pose proof (NilZero.isi (Z.to_int a) (proj1 (Hn a)) (proj2 (Hn a))) as Ha.
  pose proof (NilZero.isi (Z.to_int b) (proj1 (Hn b)) (proj2 (Hn b))) as Hb.
  rewrite H in Ha. rewrite Ha in Hb. injection Hb as Hb. exact Hb.
Qed.

Lemma unorm_zero d d' : Decimal.unorm d = Decimal.D0 d' → d' = Decimal.Nil.
Proof.
  induction d as [|d IH|d IH|d IH|d IH|d IH|d IH|d IH|d IH|d IH|d IH]; simpl;
    intros H; try discriminate; [injection H as <-; reflexivity | apply IH, H].
Qed.

(** A numeral has no leading zero. *)
Lemma dec_leading_zero z rest : dec z = String "0"%char rest → rest = "".
Proof.
  unfold dec. destruct z as [|p|p]; simpl.
  - intros H. injection H as <-. reflexivity.
  - pose proof (to_int_norm (Z.pos p)) as Hn. simpl in Hn. injection Hn as Hn.
    pose proof (DecimalPos.Unsigned.to_uint_nonzero p) as Hz.
    destruct (Pos.to_uint p) as [|d|d|d|d|d|d|d|d|d|d] eqn:Hp; simpl; intros H;
      try discriminate.
    simpl in Hn. apply unorm_zero in Hn. subst d. contradiction.
  - discriminate.
Qed.

Lemma dec_nonempty z : dec z ≠ "".
Proof.
  unfold dec. destruct z as [|p|p]; simpl; try discriminate.
  pose proof (DecimalPos.Unsigned.to_uint_nonnil p) as Hn.
  destruct (Pos.to_uint p); simpl; try discriminate.
Qed.

Lemma padStart2_dec_inj a b : padStart2 (dec a) = padStart2 (dec b) → a = b.
Proof.
  intros H. apply dec_inj.
  pose proof (dec_nonempty a) as Hna. pose proof (dec_nonempty b) as Hnb.
  destruct (dec a) as [|a1 ra] eqn:Ha; [exfalso; apply Hna; reflexivity|].
  destruct (dec b) as [|b1 rb] eqn:Hb; [exfalso; apply Hnb; reflexivity|].
  destruct ra as [|a2 ra]; destruct rb as [|b2 rb]; simpl in H.
  - injection H as ->. reflexivity.
  - injection H as <- <- <-. apply dec_leading_zero in Hb. discriminate.
  - injection H as -> -> ->. apply dec_leading_zero in Ha. discriminate.
  - exact H.
Qed.

End PathFacts.

Module PathTheorems.
Import Paths PathFacts.

(** X14.  [safeFilename] leaves only letters, digits, dots, underscores and
    dashes, does not lengthen its argument and is idempotent; the topic
    part of an
    object name has at most 48 such characters, among them no slash. *)
Theorem file_names_are_safe s :
  Forall (fun a => safe_char a = true) (chars (safeFilename s))
  ∧ (String.length (safeFilename s) <= String.length s)%nat
  ∧ safeFilename (safeFilename s) = safeFilename s
  ∧ (String.length (slice0 48 (safeFilename s)) <= 48)%nat
  ∧ Forall (fun a => safe_char a = true ∧ a ≠ "/"%char) (chars (slice0 48 (safeFilename s))).
Proof.
  pose proof (replace_runs_safe s false) as Hsafe. fold (safeFilename s) in Hsafe.
  split; [exact Hsafe|]. split; [apply replace_runs_length|].
  split; [apply replace_runs_fix, Hsafe|]. split; [apply substring_length|].
  destruct (substring_prefix 48 (safeFilename s)) as [rest Hrest]. unfold slice0.
  rewrite Hrest, chars_app in Hsafe. apply Forall_app in Hsafe as [Hpre _].
  eapply Forall_impl; [exact Hpre|]. intros a Ha. split; [exact Ha|].
  intros ->. discriminate.
Qed.

(** X15.  Two scenes of a job never share an object: for a given job and topic,
    different scene ids give different image paths and different audio
    paths. *)
Theorem scene_paths_are_distinct jobId topic a b :
  a ≠ b →
  scenePath jobId a topic ≠ scenePath jobId b topic
  ∧ audioPath jobId a ≠ audioPath jobId b.
Proof.
  intros Hab. split; intros H; apply Hab, padStart2_dec_inj.
  - unfold scenePath in H.
    apply (append_inv_head "jobs/"), append_inv_head, (append_inv_head "/scene-") in H.
    apply (append_inv_tail _ _ ("-" +:+ slice0 48 (safeFilename topic) +:+ ".png")), H.
  - unfold audioPath in H.
    apply (append_inv_head "jobs/"), append_inv_head, (append_inv_head "/tts/scene-") in H.
    apply (append_inv_tail _ _ ".mp3"), H.
Qed.

Lemma scene_paths_are_distinct_witness :
  scenePath "job-1" 3 "space travel" ≠ scenePath "job-1" 12 "space travel"
  ∧ audioPath "job-1" 3 ≠ audioPath "job-1" 12.
Proof.
  apply (scene_paths_are_distinct "job-1" "space travel" 3 12). lia.
Defined.

End PathTheorems.

(** ** The image render requests of a job *)

Module RenderRequestFacts.
Import RenderRequests.

Lemma platform_size_truthy pt : truthy (platformTargetToRequestedSize pt) = true.
Proof.
  unfold platformTargetToRequestedSize.
  destruct pt as [s|]; [|reflexivity].
  repeat (destruct s as [|[[] [] [] [] [] [] [] []] s]; try reflexivity).
Qed.

(** A well-formed request for a scene among [sceneIds]. *)
Definition well_formed (sceneIds : list Z) (r : Request) : Prop :=
  scene_id r ∈ sceneIds ∧ truthy (prompt r) = true ∧ truthy (size r) = true ∧ n r = 1.

Lemma cleaned_spec p sceneIds pt r :
  r ∈ cleaned p (list_to_set sceneIds) pt →
  well_formed sceneIds r
  ∧ ∃ raw, raw ∈ default [] (po_image_render_requests p)
           ∧ rr_scene_id raw = Some (scene_id r)
           ∧ prompt r = trim (str (rr_prompt raw)).
Proof.
  unfold cleaned. rewrite list_elem_of_omap. intros (raw & Hraw & Hr).
  destruct (rr_scene_id raw) as [sid|] eqn:Hsid; [|discriminate].
  destruct (bool_decide (sid ∈ (list_to_set sceneIds : gset Z))) eqn:Hv; [|discriminate].
  destruct (truthy (trim (str (rr_prompt raw)))) eqn:Hp; [|discriminate].
  simpl in Hr. injection Hr as <-. apply bool_decide_eq_true in Hv.
  apply elem_of_list_to_set in Hv. split.
  - repeat split; simpl; [exact Hv | exact Hp | apply or_else_truthy_r, platform_size_truthy].
  - exists raw. repeat split; [exact Hraw | exact Hsid].
Qed.

(** Every prompt of a table is not empty. *)
Definition prompts_truthy (m : gmap Z string) : Prop :=
  ∀ sid pr, m !! sid = Some pr → truthy pr = true.

Lemma prompts_truthy_empty : prompts_truthy ∅.
Proof. intros sid pr H. rewrite lookup_empty in H. discriminate. Qed.

Lemma prompts_truthy_insert m sid pr :
  truthy pr = true → prompts_truthy m → prompts_truthy (<[sid := pr]> m).
Proof.
  intros Hp Hm k v. destruct (decide (k = sid)) as [->|Hne].
  - rewrite lookup_insert_eq. intros H. injection H as <-. exact Hp.
  - rewrite lookup_insert_ne by congruence. apply Hm.
Qed.

Lemma fromPrompts_truthy p V : prompts_truthy (fromPrompts p V).
Proof.
  unfold fromPrompts.
  generalize (default [] (po_image_prompts p)).
  assert (H : ∀ (l : list (option Z * option string)) m0, prompts_truthy m0 →
            prompts_truthy
              (fold_left
                 (fun (m : gmap Z string) (r : option Z * option string) =>
                    let pr := trim (str (snd r)) in
                    match fst r with
                    | Some sid =>
                        if bool_decide (sid ∈ V) && truthy pr then <[sid := pr]> m else m
                    | None => m
                    end) l m0)).
  { induction l as [|r l IH]; intros m0 Hm0; simpl; [exact Hm0|].
    apply IH. destruct (fst r) as [sid|]; [|exact Hm0].
    destruct (bool_decide (sid ∈ V)); simpl; [|exact Hm0].
    destruct (truthy (trim (str (snd r)))) eqn:Hp; [|exact Hm0].
    apply prompts_truthy_insert; assumption. }
  intros l. apply H, prompts_truthy_empty.
Qed.

Definition scene_step (style : StyleGuide) (V : gset Z) (m : gmap Z string) (s : RawScene)
    : gmap Z string :=
  match raw_scene_id s with
  | Some sid =>
      if bool_decide (sid ∈ V) then
        let pr := scenePrompt style s in
        if truthy (trim pr) then <[sid := trim pr]> m else m
      else m
  | None => m
  end.

Lemma fromScenes_fold p V :
  fromScenes p V
  = fold_left (scene_step (default (mkStyle None None None) (po_style_guide p)) V)
              (default [] (po_scenes p)) ∅.
Proof. reflexivity. Qed.

(** The prompt built from a scene ends with the fixed suffix. *)
Lemma scenePrompt_truthy style s : truthy (trim (scenePrompt style s)) = true.
Proof.
  unfold scenePrompt. apply (trim_truthy "n"%char); [|reflexivity].
  apply (join_has_char _ _ promptSuffix).
  - apply filter_In. split; [|reflexivity].
    right; right; right; right; left. reflexivity.
  - simpl. left. reflexivity.
Qed.

Lemma scene_fold_truthy style V l : ∀ m0,
  prompts_truthy m0 → prompts_truthy (fold_left (scene_step style V) l m0).
Proof.
  induction l as [|s l IH]; intros m0 Hm0; simpl; [exact Hm0|].
  apply IH. unfold scene_step. destruct (raw_scene_id s) as [sid|]; [|exact Hm0].
  destruct (bool_decide (sid ∈ V)); [|exact Hm0].
  rewrite scenePrompt_truthy. apply prompts_truthy_insert; [apply scenePrompt_truthy | exact Hm0].
Qed.

Lemma scene_fold_keeps style V l : ∀ m0 sid,
  is_Some (m0 !! sid) → is_Some (fold_left (scene_step style V) l m0 !! sid).
Proof.
  induction l as [|s l IH]; intros m0 sid Hm0; simpl; [exact Hm0|].
  apply IH. unfold scene_step. destruct (raw_scene_id s) as [sid'|]; [|exact Hm0].
  destruct (bool_decide (sid' ∈ V)); [|exact Hm0].
  rewrite scenePrompt_truthy.
  destruct (decide (sid = sid')) as [->|Hne];
    [rewrite lookup_insert_eq; eexists; reflexivity
    | rewrite lookup_insert_ne by congruence; exact Hm0].
Qed.

(** Every scene of the packager with a valid id gets a prompt. *)
Lemma scene_fold_covers style V l : ∀ m0 s sid,
  s ∈ l → raw_scene_id s = Some sid → sid ∈ V →
  is_Some (fold_left (scene_step style V) l m0 !! sid).
Proof.
  induction l as [|x l IH]; intros m0 s sid Hin Hid HV; [inversion Hin|].
  simpl. apply elem_of_cons in Hin as [<-|Hin].
  - apply scene_fold_keeps. unfold scene_step. rewrite Hid.
    rewrite bool_decide_eq_true_2 by exact HV. rewrite scenePrompt_truthy.
    rewrite lookup_insert_eq. eexists. reflexivity.
  - eapply IH; eassumption.
Qed.

Lemma omap_lookup_sublist (m : gmap Z string) (size : string) (ids : list Z) :
  List.map scene_id
    (omap (fun sid => (fun pr => mkRequest sid pr size 1) <$> m !! sid) ids)
  `sublist_of` ids.
Proof.
  induction ids as [|sid ids IH]; simpl; [constructor|].
  destruct (m !! sid); simpl; [apply sublist_skip | apply sublist_cons]; exact IH.
Qed.

End RenderRequestFacts.

Module RenderRequestTheorems.
Import RenderRequests RenderRequestFacts.

(** X16.  Whatever the packager holds, every request returned is for a scene of
    the list, has a prompt and a size that are not empty, and asks for one
    image.  The requests of the model are kept ([generated] false) as soon
    as one of them is usable, each with the prompt the model gave for that
    scene; otherwise the list is rebuilt ([generated] true) and follows
    the order of the scenes. *)
Theorem render_requests_are_well_formed p sceneIds pt :
  let out := normalizeImageRenderRequests p sceneIds pt in
  Forall (well_formed sceneIds) (fst out)
  ∧ (snd out = false →
     fst out ≠ []
     ∧ ∀ r, r ∈ fst out →
            ∃ raw, raw ∈ default [] (po_image_render_requests p)
                   ∧ rr_scene_id raw = Some (scene_id r)
                   ∧ prompt r = trim (str (rr_prompt raw)))
  ∧ (snd out = true →
     List.map scene_id (fst out) `sublist_of` sceneIds
     ∧ Forall (fun r => size r = platformTargetToRequestedSize pt) (fst out)).
Proof.
  intros out. subst out. unfold normalizeImageRenderRequests.
  destruct (cleaned p (list_to_set sceneIds) pt) as [|r0 rest] eqn:Hc; simpl.
  - set (byId := if bool_decide (fromPrompts p (list_to_set sceneIds) = ∅)
                 then fromScenes p (list_to_set sceneIds)
                 else fromPrompts p (list_to_set sceneIds)).
    assert (Ht : prompts_truthy byId).
    { subst byId. destruct (bool_decide _); [|apply fromPrompts_truthy].
      rewrite fromScenes_fold. apply scene_fold_truthy, prompts_truthy_empty. }
    split; [|split; [discriminate|]].
    + apply Forall_forall. intros r Hr. apply list_elem_of_omap in Hr as (sid & Hsid & Hr).
      destruct (byId !! sid) as [pr|] eqn:Hpr; [|discriminate].
      simpl in Hr. injection Hr as <-.
      repeat split; simpl; [exact Hsid | exact (Ht _ _ Hpr) | apply platform_size_truthy].
    + intros _. split; [apply omap_lookup_sublist|].
      apply Forall_forall. intros r Hr. apply list_elem_of_omap in Hr as (sid & _ & Hr).
      destruct (byId !! sid); [|discriminate]. simpl in Hr. injection Hr as <-. reflexivity.
  - assert (Hall : ∀ r, r ∈ r0 :: rest →
              well_formed sceneIds r
              ∧ ∃ raw, raw ∈ default [] (po_image_render_requests p)
                       ∧ rr_scene_id raw = Some (scene_id r)
                       ∧ prompt r = trim (str (rr_prompt raw))).
    { intros r Hr. rewrite <- Hc in Hr. apply (cleaned_spec _ _ _ _ Hr). }
    split; [|split; [|discriminate]].
    + apply Forall_forall. intros r Hr. apply Hall, Hr.
    + intros _. split; [discriminate|]. intros r Hr. apply Hall, Hr.
Qed.

(** X17.  When the model gave neither a usable request nor a usable image
    prompt, the server builds one request for every scene of the list
    whose id a scene of the packager carries; the prompt of a scene is
    never empty. *)
Theorem render_requests_cover_the_scenes p sceneIds pt sid s :
  cleaned p (list_to_set sceneIds) pt = [] →
  fromPrompts p (list_to_set sceneIds) = ∅ →
  sid ∈ sceneIds →
  s ∈ default [] (po_scenes p) → raw_scene_id s = Some sid →
  let out := normalizeImageRenderRequests p sceneIds pt in
  snd out = true ∧ ∃ r, r ∈ fst out ∧ scene_id r = sid ∧ truthy (prompt r) = true.
Proof.
  intros Hc Hp Hsid Hs Hid out. subst out. unfold normalizeImageRenderRequests.
  rewrite Hc, Hp. simpl. rewrite bool_decide_eq_true_2 by reflexivity.
  split; [reflexivity|].
  assert (Hsome : is_Some (fromScenes p (list_to_set sceneIds) !! sid)).
  { rewrite fromScenes_fold. eapply scene_fold_covers; [exact Hs | exact Hid|].
    apply elem_of_list_to_set, Hsid. }
  destruct Hsome as [pr Hpr].
  exists (mkRequest sid pr (platformTargetToRequestedSize pt) 1).
  split; [|split; [reflexivity|]].
  - apply list_elem_of_omap. exists sid. split; [exact Hsid|]. rewrite Hpr. reflexivity.
  - simpl. assert (Ht : prompts_truthy (fromScenes p (list_to_set sceneIds)))
      by (rewrite fromScenes_fold; apply scene_fold_truthy, prompts_truthy_empty).
    exact (Ht _ _ Hpr).
Qed.

Definition bare_packager : PackagerOutput :=
  mkPackagerOutput None None
    (Some [mkRawScene (Some 1) None None (Some "a harbour at dawn") None None;
           mkRawScene None None None None None None])
    None.

Lemma render_requests_cover_the_scenes_witness :
  ∃ r, r ∈ fst (normalizeImageRenderRequests bare_packager [2; 1] None)
       ∧ scene_id r = 1 ∧ truthy (prompt r) = true.
Proof.
  apply (render_requests_cover_the_scenes bare_packager [2; 1] None 1
           (mkRawScene (Some 1) None None (Some "a harbour at dawn") None None)).
  - reflexivity.
  - reflexivity.
  - apply (bool_decide_unpack _). vm_compute. exact I.
  - simpl. left.
  - reflexivity.
Defined.

Lemma render_requests_are_well_formed_witness :
  let p := mkPackagerOutput (Some [mkRaw (Some 2) (Some " a quay ") None;
                                   mkRaw (Some 9) (Some "elsewhere") None])
             None None None in
  fst (normalizeImageRenderRequests p [1; 2] (Some "shorts_9_16"))
  = [mkRequest 2 "a quay" "1080x1920" 1]
  ∧ ∃ raw, raw ∈ [mkRaw (Some 2) (Some " a quay ") None; mkRaw (Some 9) (Some "elsewhere") None]
           ∧ rr_scene_id raw = Some 2.
Proof.
  split; [reflexivity|].
  destruct (render_requests_are_well_formed
              (mkPackagerOutput (Some [mkRaw (Some 2) (Some " a quay ") None;
                                       mkRaw (Some 9) (Some "elsewhere") None])
                                None None None)
              [1; 2] (Some "shorts_9_16")) as (_ & H & _).
  destruct (H eq_refl) as [_ Hraw].
  destruct (Hraw (mkRequest 2 "a quay" "1080x1920" 1)) as (raw & Hin & Hid & _).
  - left.
  - exists raw. split; [exact Hin | exact Hid].
Defined.

End RenderRequestTheorems.

(** ** The storage clean-up of trendstory-delete-job *)

Module CleanupTheorems.
Import DeleteJob.

(** The objects the clean-up asks the storage to remove. *)
Definition toRemove (env : Env) (prefix : string) : list string :=
  match storage_list env prefix with
  | Throw _ => []
  | Ok listing =>
      unique (List.map (fun name => squeeze (prefix +:+ "/" +:+ name))
                       (List.filter truthy (default [] listing))
              ++ [prefix +:+ "/narration.mp3"])%list []
  end.




End CleanupTheorems.

(** ** The self-requeue of trendstory-retry-images *)

Module RequeueTheorems.
Import RetryImages.

Definition blank (k : option string) : Prop := truthy (trim (str k)) = false.

Lemma filter_nil_iff {A} (p : A → bool) (l : list A) :
  List.filter p l = [] ↔ Forall (fun x => p x = false) l.
Proof.
  induction l as [|x l IH]; simpl; [split; [constructor | reflexivity]|].
  destruct (p x) eqn:Hx.
  - split; [discriminate | intros H; inversion H; congruence].
  - rewrite IH. split; [intros H; constructor; assumption | intros H; inversion H; assumption].
Qed.

Lemma filter_head_elem {A} (p : A → bool) (l : list A) x rest :
  List.filter p l = x :: rest → In x l ∧ p x = true.
Proof. intros H. apply filter_In. rewrite H. left. reflexivity. Qed.

Lemma pickJwtKey_blank keys : truthy (pickJwtKey keys) = false ↔ Forall blank keys.
Proof.
  unfold pickJwtKey.
  set (ts := List.map (fun k => trim (str k)) keys).
  assert (Hblank : Forall (fun t => truthy t = false) ts ↔ Forall blank keys).
  { subst ts. rewrite Forall_map. reflexivity. }
  destruct (List.filter (fun t => truthy t && jwtLike t) ts) as [|t rest] eqn:Hjwt.
  - destruct (List.filter truthy ts) as [|t rest] eqn:Hany.
    + apply filter_nil_iff in Hany.
      split; [intros _; apply Hblank, Hany | reflexivity].
    + apply filter_head_elem in Hany as [Hin Ht].
      split; [congruence|]. intros Hall. apply Hblank in Hall.
      rewrite Forall_forall in Hall. apply Hall, list_elem_of_In, Hin.
  - apply filter_head_elem in Hjwt as [Hin Ht]. apply andb_true_iff in Ht as [Ht Hj].
    split; [congruence|]. intros Hall. apply Hblank in Hall.
    rewrite Forall_forall in Hall. apply Hall, list_elem_of_In, Hin.
Qed.

(** X19.  [pickJwtKey] returns a key of the list, trimmed: the result is
    empty exactly when every key is blank, and it looks like a JWT as
    soon as a key that is not blank does. *)
Theorem jwt_like_key_is_preferred keys :
  let k := pickJwtKey keys in
  (truthy k = false ↔ Forall blank keys)
  ∧ (truthy k = true → ∃ x, x ∈ keys ∧ k = trim (str x))
  ∧ (jwtLike k = false →
     Forall (fun x => truthy (trim (str x)) = true → jwtLike (trim (str x)) = false) keys).
Proof.
  intros k. subst k. unfold pickJwtKey.
  set (ts := List.map (fun k => trim (str k)) keys).
  assert (Hts : ∀ t, In t ts → ∃ x, x ∈ keys ∧ t = trim (str x)).
  { intros t Hin. apply in_map_iff in Hin as (x & <- & Hx).
    exists x. split; [apply list_elem_of_In, Hx | reflexivity]. }
  assert (Hblank : Forall (fun t => truthy t = false) ts ↔ Forall blank keys).
  { subst ts. rewrite Forall_map. reflexivity. }
  destruct (List.filter (fun t => truthy t && jwtLike t) ts) as [|t rest] eqn:Hjwt.
  - apply filter_nil_iff in Hjwt.
    assert (Hno : Forall (fun x => truthy (trim (str x)) = true
                                   → jwtLike (trim (str x)) = false) keys).
    { subst ts. rewrite Forall_map in Hjwt. eapply Forall_impl; [exact Hjwt|].
      intros x Hx Ht. simpl in Hx. rewrite Ht in Hx. exact Hx. }
    destruct (List.filter truthy ts) as [|t rest] eqn:Hany.
    + apply filter_nil_iff in Hany. split; [|split].
      * split; [intros _; apply Hblank, Hany | reflexivity].
      * discriminate.
      * intros _. exact Hno.
    + apply filter_head_elem in Hany as [Hin Ht]. split; [|split].
      * split; [congruence|]. intros Hall. apply Hblank in Hall.
        rewrite Forall_forall in Hall. apply Hall, list_elem_of_In, Hin.
      * intros _. apply Hts, Hin.
      * intros _. exact Hno.
  - apply filter_head_elem in Hjwt as [Hin Ht]. apply andb_true_iff in Ht as [Ht Hj].
    split; [|split].
    + split; [congruence|]. intros Hall. apply Hblank in Hall.
      rewrite Forall_forall in Hall. apply Hall, list_elem_of_In, Hin.
    + intros _. apply Hts, Hin.
    + congruence.
Qed.

Lemma jwt_like_key_is_preferred_witness :
  ∃ x, x ∈ [Some " sbp_123 "; Some "a.b.c"]
       ∧ pickJwtKey [Some " sbp_123 "; Some "a.b.c"] = trim (str x).
Proof.
  destruct (jwt_like_key_is_preferred [Some " sbp_123 "; Some "a.b.c"]) as (_ & H & _).
  apply H. reflexivity.
Defined.

(** X20.  The next batch is requested exactly when work is left, the depth is
    below the maximum (between 0 and 30) and one of the two keys is not
    blank.  The body names the job, exactly the scene ids left, the next
    depth, and always asks for a missing-only batch. *)
Theorem next_batch_needs_work_depth_and_a_key env jobId depth r :
  let out := requeue env jobId depth r in
  0 <= maxDepth env <= 30
  ∧ (is_Some (fst out)
     ↔ run_remaining r ≠ [] ∧ depth < maxDepth env
       ∧ ¬ (blank (Some (SUPABASE_SERVICE_ROLE_KEY env)) ∧ blank (SUPABASE_ANON_KEY env)))
  ∧ ∀ body, fst out = Some body →
            body = mkRequest (Some jobId) (Some (List.map Some (run_remaining r)))
                             (Some true) (Some (depth + 1)).
Proof.
  intros out. subst out. unfold requeue.
  split; [unfold maxDepth, clamp_env; lia|].
  pose proof (pickJwtKey_blank
                [Some (SUPABASE_SERVICE_ROLE_KEY env); SUPABASE_ANON_KEY env]) as Hk.
  assert (Hkeys : Forall blank [Some (SUPABASE_SERVICE_ROLE_KEY env); SUPABASE_ANON_KEY env]
                  ↔ blank (Some (SUPABASE_SERVICE_ROLE_KEY env))
                    ∧ blank (SUPABASE_ANON_KEY env)).
  { split; [intros H; inversion H as [|? ? H1 H2]; inversion H2; auto
           | intros [H1 H2]; repeat constructor; assumption]. }
  destruct (negb (Nat.eqb (length (run_remaining r)) 0)) eqn:Hrem; simpl.
  - assert (Hne : run_remaining r ≠ []).
    { intros E. rewrite E in Hrem. discriminate. }
    destruct (depth <? maxDepth env) eqn:Hd; simpl.
    + apply Z.ltb_lt in Hd. unfold auth_ok.
      set (key := pickJwtKey _) in *.
      assert (Htrim : truthy (trim key) = truthy key).
      { subst key. unfold pickJwtKey.
        destruct (List.filter _ _) as [|t ?] eqn:E1.
        - destruct (List.filter truthy _) as [|t ?] eqn:E2; [reflexivity|].
          apply filter_head_elem in E2 as [Hin Ht].
          apply in_map_iff in Hin as (x & <- & _). rewrite trim_idem. reflexivity.
        - apply filter_head_elem in E1 as [Hin Ht].
          apply in_map_iff in Hin as (x & <- & _). rewrite trim_idem. reflexivity. }
      rewrite Htrim. destruct (truthy key) eqn:Hkey; simpl.
      * split; [|intros body H; injection H as <-; reflexivity].
        split; [intros _ | intros _; eexists; reflexivity].
        split; [exact Hne|]. split; [exact Hd|]. rewrite <- Hkeys, <- Hk. congruence.
      * split; [|discriminate].
        split; [intros [x Hx]; discriminate|].
        intros (_ & _ & Hnb). exfalso. apply Hnb. apply Hkeys, Hk. reflexivity.
    + apply Z.ltb_ge in Hd. split; [|discriminate].
      split; [intros [x Hx]; discriminate | intros (_ & Hlt & _); lia].
  - split; [|discriminate].
    split; [intros [x Hx]; discriminate|]. intros (Hne & _). exfalso. apply Hne.
    apply negb_false_iff, Nat.eqb_eq in Hrem. destruct (run_remaining r); [reflexivity | discriminate].
Qed.

Definition keyed (service : string) (anon : option string) : Env :=
  mkEnv None None service anon (fun _ _ => 0) (fun _ _ _ => Throw "provider down")
        (fun _ _ _ => None) (fun p => p) (fun j _ _ => j) (fun _ => true).

Definition interrupted : Run :=
  mkRun (None, mkWorld [] [] [] 0 [] [] [] [] [] []) 1 1 0 0 [mkTask 1 "a quay"] [2; 3].

Lemma next_batch_needs_work_depth_and_a_key_witness :
  fst (requeue (keyed "  " (Some "a.b.c")) "job-1" 0 interrupted)
  = Some (mkRequest (Some "job-1") (Some [Some 2; Some 3]) (Some true) (Some 1)).
Proof.
  destruct (next_batch_needs_work_depth_and_a_key (keyed "  " (Some "a.b.c")) "job-1" 0
              interrupted) as (_ & Hiff & Hbody).
  destruct (proj2 Hiff) as [body Hsome].
  - split; [discriminate|]. split; [reflexivity|]. intros [_ H]. discriminate H.
  - rewrite Hsome. f_equal. apply Hbody, Hsome.
Defined.

End RequeueTheorems.

(** ** trendstory-retry-audio *)

Module RetryAudioFacts.
Import RetryAudio.

Lemma select_job_same jobId w w' :
  jobs w' = jobs w → Db.select_job jobId w' = Db.select_job jobId w.
Proof. unfold Db.select_job. intros ->. reflexivity. Qed.

(** One scene: one request to the speech model; no job or scene row
    changes; a URL comes back only when the provider answered. *)
Lemma speak_run env jobId s st :
  let out := speak env jobId s st in
  speech_requests (snd (snd out)) = (speech_requests (snd st) ++ [snd s])%list
  ∧ jobs (snd (snd out)) = jobs (snd st)
  ∧ scenes (snd (snd out)) = scenes (snd st)
  ∧ (is_ok (fst out) = true → is_ok (openaiTtsMp3 env (fst s) (snd s)) = true).
Proof.
  unfold speak. destruct st as [pk w]. simpl.
  destruct (openaiTtsMp3 env (fst s) (snd s)) as [mp3|m]; simpl; [|auto].
  destruct (upload_error env (audioPath env jobId (fst s))) as [m|]; simpl;
    [repeat split; discriminate|].
  unfold Db.insert_asset.
  match goal with |- context [Db.job_exists jobId ?w0] =>
    destruct (Db.job_exists jobId w0) end; simpl; destruct pk; simpl; auto.
Qed.

(** The job as the loop leaves it: its status and its final package are
    those it had. *)
Definition kept (jobId : string) (j : Job.row) (w : World) : Prop :=
  ∃ j', Db.select_job jobId w = Ok j'
        ∧ Job.status j' = Job.status j
        ∧ Job.final_package j' = Job.final_package j.

Lemma kept_persist jobId j pk w :
  kept jobId j w → kept jobId j (Db.update_jobs jobId (set_packager pk) w).
Proof.
  intros (j' & Hsel & Hst & Hfp). exists (set_packager pk j').
  split; [apply select_job_update; [intros j0; reflexivity | exact Hsel]|].
  split; assumption.
Qed.

Lemma kept_same jobId j w w' : jobs w' = jobs w → kept jobId j w → kept jobId j w'.
Proof.
  intros Hj (j' & Hsel & H). exists j'. rewrite (select_job_same _ _ _ Hj). auto.
Qed.

Lemma speakAll_run env jobId j rows : ∀ urls st,
  kept jobId j (snd st) →
  ∃ extra st',
    speakAll env jobId rows urls st = ((urls ++ extra)%list, st')
    ∧ kept jobId j (snd st')
    ∧ speech_requests (snd st') = (speech_requests (snd st) ++ List.map snd rows)%list
    ∧ scenes (snd st') = scenes (snd st)
    ∧ List.map fst extra `sublist_of` List.map fst rows
    ∧ (Forall (fun s => is_ok (openaiTtsMp3 env (fst s) (snd s)) = false) rows → extra = []).
Proof.
  induction rows as [|s rows IH]; intros urls st Hk; simpl.
  - exists [], st. rewrite !app_nil_r. repeat split; [exact Hk | constructor].
  - destruct (speak_run env jobId s st) as (Hsp & Hj & Hsc & Hok).
    destruct (speak env jobId s st) as [r st1]. simpl in Hsp, Hj, Hsc, Hok.
    set (step := match r with
                 | Ok url => ((urls ++ [(fst s, url)])%list, st1)
                 | Throw m => (urls, pushRuntimeLog error "audio (scene) regeneration failed"
                                                    (SceneError (fst s) m) st1)
                 end).
    assert (Hstep : jobs (snd (snd step)) = jobs (snd st)
                    ∧ scenes (snd (snd step)) = scenes (snd st)
                    ∧ speech_requests (snd (snd step))
                      = (speech_requests (snd st) ++ [snd s])%list
                    ∧ (fst step = urls
                       ∨ ∃ url, fst step = (urls ++ [(fst s, url)])%list
                                ∧ is_ok (openaiTtsMp3 env (fst s) (snd s)) = true)).
    { subst step. destruct r as [url|m]; simpl.
      - repeat split; try assumption. right. exists url. split; [reflexivity | apply Hok; reflexivity].
      - destruct st1 as [pk1 w1]. simpl in *.
        repeat split; try assumption. left. reflexivity. }
    destruct step as [urls1 st2]. simpl in Hstep. destruct Hstep as (Hj2 & Hsc2 & Hsp2 & Hu).
    destruct (IH urls1 (fst st2, Db.update_jobs jobId (set_packager (fst st2)) (snd st2)))
      as (extra & st' & Hrun & Hk' & Hsp' & Hsc' & Hsub & Hnone).
    { apply kept_persist. eapply kept_same; [exact Hj2 | exact Hk]. }
    simpl in Hsp', Hsc'. rewrite Hrun. destruct Hu as [->|(url & -> & Hgood)].
    + exists extra, st'. split; [reflexivity|]. split; [exact Hk'|].
      split; [rewrite Hsp', Hsp2, <- app_assoc; reflexivity|].
      split; [congruence|]. split; [apply sublist_cons, Hsub|].
      intros Hall. inversion Hall; subst. apply Hnone. assumption.
    + exists ((fst s, url) :: extra), st'. split; [rewrite <- app_assoc; reflexivity|].
      split; [exact Hk'|]. split; [rewrite Hsp', Hsp2, <- app_assoc; reflexivity|].
      split; [congruence|]. split; [simpl; apply sublist_skip, Hsub|].
      intros Hall. inversion Hall; subst. congruence.
Qed.

End RetryAudioFacts.

Module RetryAudioTheorems.
Import RetryAudio RetryAudioFacts.

(** X21.  A retry of the audio sends every scene with a narration to the speech
    model once, in ascending scene order, and then replaces the scene
    audios of the final package by the URLs this run obtained, keeping the
    scenes of the package and the status of the job; no scene row
    changes.  So a run in which every request fails leaves the list of
    scene audios empty, whatever it held. *)
Theorem audio_retry_replaces_the_scene_audios env jobId w job :
  Db.select_job jobId w = Ok job →
  let rows := sceneRows (Db.scenes_of jobId w) in
  let w' := runRetryAudio env jobId w in
  ∃ job' urls,
    Db.select_job jobId w' = Ok job'
    ∧ Job.status job' = Job.status job
    ∧ Job.final_package job'
      = (fun fp => mkFinalPackage (fp_scenes fp) urls) <$> Job.final_package job
    ∧ List.map fst urls `sublist_of` List.map fst rows
    ∧ (Forall (fun s => is_ok (openaiTtsMp3 env (fst s) (snd s)) = false) rows → urls = [])
    ∧ speech_requests w' = (speech_requests w ++ List.map snd rows)%list
    ∧ scenes w' = scenes w.
Proof.
  intros Hjob rows w'. subst w'. unfold runRetryAudio. rewrite Hjob. fold rows.
  assert (Hk0 : kept jobId job w) by (exists job; auto).
  assert (Hrun : ∃ urls st1,
            match rows with
            | [] => ([], pushRuntimeLog error "no scene has a narration" NoData
                                        (Job.packager job, w))
            | _ :: _ => speakAll env jobId rows [] (Job.packager job, w)
            end = (urls, st1)
            ∧ kept jobId job (snd st1)
            ∧ speech_requests (snd st1) = (speech_requests w ++ List.map snd rows)%list
            ∧ scenes (snd st1) = scenes w
            ∧ List.map fst urls `sublist_of` List.map fst rows
            ∧ (Forall (fun s => is_ok (openaiTtsMp3 env (fst s) (snd s)) = false) rows
               → urls = [])).
  { destruct rows as [|s rest] eqn:Hrows.
    - eexists _, _. split; [reflexivity|].
      destruct (Job.packager job); simpl; rewrite app_nil_r;
        repeat split; try exact Hk0; constructor.
    - destruct (speakAll_run env jobId job (s :: rest) [] (Job.packager job, w) Hk0)
        as (extra & st' & H1 & H2 & H3 & H4 & H5 & H6).
      exists extra, st'. auto 10. }
  destruct Hrun as (urls & st1 & -> & (j1 & Hsel & Hst & Hfp) & Hsp & Hsc & Hsub & Hnone).
  destruct (Job.final_package job) as [fp|] eqn:Hfpj.
  - exists (patched fp urls (fst st1) j1), urls.
    split; [apply select_job_update; [intros j0; reflexivity | exact Hsel]|].
    simpl. auto 10.
  - exists (set_packager (fst st1) j1), urls.
    split; [apply select_job_update; [intros j0; reflexivity | exact Hsel]|].
    simpl. rewrite Hfp. auto 10.
Qed.

Definition mute : Env :=
  mkEnv (fun _ _ => Throw "provider down") (fun _ => None) (fun p => p) (fun j _ => j).

Definition published : World :=
  mkWorld [Job.mk "job-1" SUCCEEDED (mkStartRequest "space travel" "en" "teens" None None)
                  None None (Some (mkFinalPackage [] [(1, "https://cdn/1.mp3")])) None
                  "trace-1"]
          [Sample.scene 0 1 None None None None] [] 1 [] [] [] [] [] [].

Lemma audio_retry_replaces_the_scene_audios_witness :
  ∃ job', Db.select_job "job-1" (runRetryAudio mute "job-1" published) = Ok job'
          ∧ Job.status job' = SUCCEEDED
          ∧ Job.final_package job' = Some (mkFinalPackage [] []).
Proof.
  destruct (audio_retry_replaces_the_scene_audios mute "job-1" published
              (Job.mk "job-1" SUCCEEDED (mkStartRequest "space travel" "en" "teens" None None)
                      None None (Some (mkFinalPackage [] [(1, "https://cdn/1.mp3")])) None
                      "trace-1") eq_refl)
    as (job' & urls & Hsel & Hst & Hfp & _ & Hnone & _).
  exists job'. split; [exact Hsel|]. split; [exact Hst|].
  rewrite Hfp, Hnone; [reflexivity|].
  repeat constructor.
Defined.

End RetryAudioTheorems.

(** ** trendstory-status and the operations it reports on *)

Module StatusViewTheorems.
Import Status.




(** X24.  The polling contract of a start request.  For an accepted request
    with a job id that is not empty, the status endpoint answers 200 for
    the returned id: Queued before the pipeline has run, and Succeeded or
    Failed, never Queued or Running, once it has. *)
Theorem started_job_is_reported env body w res l w1 :
  Start.serve env body w = (Json 200 res, Some l, w1) →
  truthy (Start.res_job_id res) = true →
  (∃ view, serve (Some (Start.res_job_id res)) w1 = Json 200 view
           ∧ res_status view = QUEUED)
  ∧ ∃ view, serve (Some (Start.res_job_id res)) (snd (Start.start env body w)) = Json 200 view
            ∧ (res_status view = SUCCEEDED ∨ res_status view = FAILED).
Proof.
  intros Hserve Hid.
  pose proof (StartFacts.serve_all_or_nothing env body w) as Hall. rewrite Hserve in Hall.
  destruct Hall as (_ & Hl & _ & _ & Hsel).
  split.
  - unfold serve. simpl. rewrite Hid, Hsel. simpl. eexists. split; reflexivity.
  - unfold Start.start. rewrite Hserve. simpl. rewrite Hl.
    destruct (StartFacts.runPipeline_terminal env (Start.res_job_id res) w1 _ Hsel)
      as (job' & Hsel' & Hst).
    unfold serve. simpl. rewrite Hid, Hsel'. simpl. eexists. split; [reflexivity|]. simpl.
    destruct Hst as [(-> & _)|(-> & _)]; auto.
Qed.

Lemma started_job_is_reported_witness :
  let env := PipelineRuns.provider (Throw "no answer") (Throw "unused") in
  let body := Some (mkStartRequest "space travel" "en" "teens" None None) in
  ∃ view, serve (Some "job-2") (snd (Start.start env body PipelineRuns.queued_world))
          = Json 200 view
          ∧ (res_status view = SUCCEEDED ∨ res_status view = FAILED).
Proof.
  apply (started_job_is_reported
           (PipelineRuns.provider (Throw "no answer") (Throw "unused"))
           (Some (mkStartRequest "space travel" "en" "teens" None None))
           PipelineRuns.queued_world (Start.mkResponse "job-2" "trace-2")
           (Start.mkLaunch "job-2" "trace-2"
              (mkStartRequest "space travel" "en" "teens" None None))
           (snd (Start.serve (PipelineRuns.provider (Throw "no answer") (Throw "unused"))
                             (Some (mkStartRequest "space travel" "en" "teens" None None))
                             PipelineRuns.queued_world)));
    reflexivity.
Defined.

End StatusViewTheorems.

(** ** The counters of a batch of trendstory-retry-images *)

Module BatchFacts.
Import RetryImages.

(** A scene row after the batch: as it was, or with a new image (path,
    URL and prompt) and every other column, the claim among them, as it
    was. *)
Definition image_only (s s' : Scene.row) : Prop :=
  s' = s ∨ ∃ path url prompt, s' = with_image path url prompt s.

Lemma image_only_refl s : image_only s s.
Proof. left. reflexivity. Qed.

Lemma image_only_trans s1 s2 s3 : image_only s1 s2 → image_only s2 s3 → image_only s1 s3.
Proof.
  intros [->|(p & u & q & ->)] [->|(p' & u' & q' & ->)].
  - left. reflexivity.
  - right. eauto.
  - right. eauto.
  - right. exists p', u', q'. reflexivity.
Qed.

Definition images_only (l l' : list Scene.row) : Prop := Forall2 image_only l l'.

Lemma images_only_refl l : images_only l l.
Proof. induction l; constructor; [apply image_only_refl | assumption]. Qed.

Lemma images_only_trans l1 l2 l3 :
  images_only l1 l2 → images_only l2 l3 → images_only l1 l3.
Proof.
  intros H12. revert l3. induction H12 as [|a b l1 l2 Hab H12 IH]; intros l3 H23.
  - inversion H23. constructor.
  - inversion H23; subst. constructor; [eapply image_only_trans; eassumption | apply IH; assumption].
Qed.

Lemma images_only_update sel path url prompt l :
  images_only l (Db.update_where sel (with_image path url prompt) l).
Proof.
  induction l as [|s l IH]; simpl; constructor; [|exact IH].
  destruct (sel s); [right; eauto | left; reflexivity].
Qed.

(** What the loop has done so far, against the world it started from. *)
Record Tally (w0 : World) (r : Run) : Prop := mkTally {
  tally_attempted : run_attempted r = (run_succeeded r + run_failed r)%nat;
  tally_processed : length (run_processed r) = (run_attempted r + run_skipped r)%nat;
  tally_requests : length (image_requests (snd (run_log r)))
                   = (length (image_requests w0) + run_attempted r)%nat;
  tally_bucket : bucket w0 ⊆ bucket (snd (run_log r));
  tally_assets : (length (assets w0) <= length (assets (snd (run_log r)))
                  <= length (assets w0) + run_succeeded r)%nat;
  tally_scenes : images_only (scenes w0) (scenes (snd (run_log r)))
}.

Section Run.
Variables (env : Env) (inv : nat) (jobId topic : string) (depth : Z).

(** One item of the work list: what [regenerate] adds. *)
Lemma regenerate_tally idx sceneId prompt st :
  let out := regenerate env inv jobId topic idx sceneId prompt st in
  let w := snd st in
  let w' := snd (snd out) in
  image_requests w' = (image_requests w ++ [prompt])%list
  ∧ images_only (scenes w) (scenes w')
  ∧ match fst out with
    | None => bucket w ⊆ bucket w'
              ∧ (length (assets w) <= length (assets w') <= S (length (assets w)))%nat
    | Some _ => bucket w' = bucket w ∧ assets w' = assets w
    end.
Proof.
  unfold regenerate. destruct st as [pk w]. simpl.
  destruct (openaiImagePng env inv idx prompt) as [png|m]; simpl.
  - destruct (upload_error env inv idx _) as [m|]; simpl.
    + destruct pk; simpl; repeat split; apply images_only_refl.
    + unfold Db.insert_asset.
      match goal with |- context [Db.job_exists jobId ?w0] =>
        destruct (Db.job_exists jobId w0) end; simpl; destruct pk; simpl;
        (split; [reflexivity|]); (split; [apply images_only_update|]);
        (split; [intros o Ho; apply elem_of_app; left; exact Ho|]);
        rewrite ?length_app; simpl; lia.
  - destruct pk; simpl; repeat split; apply images_only_refl.
Qed.

Lemma process_item_tally w0 idx t r :
  Tally w0 r → Tally w0 (process_item env inv jobId topic idx t r).
Proof.
  intros [Ha Hp Hr Hb Has Hs]. unfold process_item.
  destruct (truthy (trim (t_prompt t))); simpl.
  - destruct (regenerate_tally idx (t_scene_id t) (trim (t_prompt t)) (run_log r))
      as (Hreq & Himg & Hres).
    destruct (regenerate env inv jobId topic idx (t_scene_id t) (trim (t_prompt t))
                         (run_log r)) as [err st].
    simpl in Hreq, Himg, Hres.
    destruct err as [m|]; simpl.
    + destruct Hres as [Hbk Hass]. destruct st as [pk w1]. simpl in *.
      split; simpl; rewrite ?length_app in *; simpl.
      * lia.
      * lia.
      * destruct pk; simpl; rewrite Hreq, length_app; simpl; lia.
      * destruct pk; simpl; rewrite Hbk; assumption.
      * destruct pk; simpl; rewrite Hass; lia.
      * destruct pk; simpl; eapply images_only_trans; eassumption.
    + destruct Hres as [Hbk Hass]. destruct st as [pk w1]. simpl in *.
      split; simpl; rewrite ?length_app in *; simpl.
      * lia.
      * lia.
      * rewrite Hreq, length_app. simpl. lia.
      * intros o Ho. apply Hbk, Hb, Ho.
      * lia.
      * eapply images_only_trans; eassumption.
  - split; simpl; rewrite ?length_app; simpl; try lia; assumption.
Qed.

Lemma loop_tally w0 startedAt todo : ∀ idx r,
  Tally w0 r → Tally w0 (loop env inv jobId topic depth startedAt idx todo r).
Proof.
  induction todo as [|t rest IH]; intros idx r H; simpl; [exact H|].
  destruct (dateNow env inv (S idx) - startedAt >? maxRuntimeMs env).
  - destruct H as [Ha Hp Hr Hb Has Hs]. destruct (run_log r) as [pk w1] eqn:Hlog.
    split; simpl; try assumption; destruct pk; simpl; assumption.
  - apply IH, process_item_tally, H.
Qed.

Lemma runRetryInBackground_tally pk tasks w :
  Tally w (runRetryInBackground env inv jobId topic depth pk tasks w).
Proof.
  unfold runRetryInBackground.
  set (st0 := pushRuntimeLog info "image retry background task started" NoData (pk, w)).
  assert (H0 : Tally w (mkRun st0 0 0 0 0 [] [])).
  { subst st0. split; simpl; try lia; destruct pk; simpl; try lia;
      first [apply images_only_refl | intros o Ho; exact Ho]. }
  pose proof (loop_tally w (dateNow env inv 0) tasks 0 _ H0) as H.
  destruct H as [Ha Hp Hr Hb Has Hs].
  destruct (run_log (loop env inv jobId topic depth (dateNow env inv 0) 0 tasks
                          (mkRun st0 0 0 0 0 [] []))) as [pk1 w1] eqn:Hlog.
  split; simpl; try assumption; destruct pk1; simpl in *; assumption.
Qed.
End Run.

End BatchFacts.

Module BatchTheorems.
Import RetryImages BatchFacts.

(** X25.  The counters of a batch add up: every task the loop ran on was
    attempted or skipped, every attempt succeeded or failed and called
    [openaiImagePng] exactly once, and the asset rows grow by at most one
    per success; no stored object is removed.  The batch writes only the
    image columns (path, URL, prompt) of scene rows: every other column,
    the claim columns of generate-scene-image among them, is as it was. *)
Theorem batch_counters_add_up env inv jobId topic depth pk tasks w :
  let r := runRetryInBackground env inv jobId topic depth pk tasks w in
  let w' := snd (run_log r) in
  run_attempted r = (run_succeeded r + run_failed r)%nat
  ∧ length (run_processed r) = (run_attempted r + run_skipped r)%nat
  ∧ (length (run_processed r) <= length tasks)%nat
  ∧ length (image_requests w') = (length (image_requests w) + run_attempted r)%nat
  ∧ bucket w ⊆ bucket w'
  ∧ (length (assets w) <= length (assets w') <= length (assets w) + run_succeeded r)%nat
  ∧ Forall2 image_only (scenes w) (scenes w').
Proof.
  intros r w'. subst r w'.
  destruct (runRetryInBackground_tally env inv jobId topic depth pk tasks w)
    as [Ha Hp Hr Hb Has Hs].
  destruct (ChainFacts.runRetryInBackground_spec env inv jobId topic depth pk tasks w)
    as (k & Hk & _).
  repeat split; try assumption; try lia.
  rewrite Hk, length_take. lia.
Qed.

End BatchTheorems.
